(** * aciSearchDb: the search engine of the ACI search application

    A shallow embedding of [applications/search/aciSearchDb.py]:
    the query-term parser ([Term.parse_input], [Term.build_search_term]),
    the seven inverted index tables ([SearchIndexLookup._index_searchables])
    and the query executor and ranker ([SearchIndexLookup.search],
    [_get_terms], [_rank_results]); then the object store
    ([SearchObjectStore]), the session ([SearchSession]) and the
    database that joins the index and the store ([SearchDb.search]).

    Python values are modelled as follows.
    - [str] (a byte string in Python 2) is [string].
    - [int] is [Z]; [len(..)] and loop counters are [nat].
    - a term key, which is a [str] or a 2- or 3-tuple of [str], is [Key].
    - a [dict] is a [gmap]; a [set] of uids is a [gset string].
    - the sets stored in the index tables are mutable objects that
      [dict.get] hands out by reference: they live in a [heap] and the
      tables hold their locations.
    - an exception is the [Raise] outcome of the [res] type. *)

From Stdlib Require Import ZArith List Ascii String Bool Lia.
From Stdlib Require Import Sorting.Sorted Sorting.Permutation.
From stdpp Require Import base gmap strings list sets sorting pretty.

Local Open Scope string_scope.

(** ** Exceptions *)

Inductive exn := IndexError | KeyError.

Inductive res (A : Type) :=
| Ok (a : A)
| Raise (e : exn).
Arguments Ok {A} a.
Arguments Raise {A} e.

(** ** The fragment of Python's [re] used by [build_search_term]

    A pattern is a sequence of items.  [Group min neg cs] is the
    capturing group around a character class repeated with plus
    ([min = 1]) or with star ([min = 0]), with [neg] for a negated
    class; it is greedy and backtracks from the longest run to the
    shortest.  [Dollar] is [$] without the MULTILINE
    flag: the end of the string, or just before a newline that ends the
    string. *)

Inductive item :=
| Chr (c : ascii)
| Bracket (neg : bool) (cs : list ascii)
| Group (min : nat) (neg : bool) (cs : list ascii)
| Dollar.

Definition in_class (neg : bool) (cs : list ascii) (a : ascii) : bool :=
  xorb neg (existsb (Ascii.eqb a) cs).

Fixpoint greedy (ok : ascii -> bool) (min : nat)
    (k : string -> string -> option string) (taken s : string) : option string :=
  let stop := if Nat.leb min (String.length taken) then k taken s else None in
  match s with
  | String a s' =>
      if ok a then
        match greedy ok min k (taken +:+ String a EmptyString) s' with
        | Some g => Some g
        | None => stop
        end
      else stop
  | EmptyString => stop
  end.

Definition at_end (s : string) : bool :=
  match s with
  | EmptyString => true
  | String a EmptyString => Ascii.eqb a "010"%char
  | _ => false
  end.

(** [match_here p g s]: match pattern [p] at the start of [s]; the
    result is the text captured by the group ([g] until it is reached). *)
Fixpoint match_here (p : list item) (g s : string) : option string :=
  match p with
  | [] => Some g
  | Chr c :: p' =>
      match s with
      | String a s' => if Ascii.eqb a c then match_here p' g s' else None
      | EmptyString => None
      end
  | Bracket neg cs :: p' =>
      match s with
      | String a s' => if in_class neg cs a then match_here p' g s' else None
      | EmptyString => None
      end
  | Group min neg cs :: p' =>
      greedy (in_class neg cs) min (fun taken rest => match_here p' taken rest)
        EmptyString s
  | Dollar :: p' => if at_end s then match_here p' g s else None
  end.

(** [re.search(p, s)]: the leftmost match; [Some g] is a match object
    whose [group(1)] is [g], [None] is Python's [None]. *)
Fixpoint re_search (p : list item) (s : string) : option string :=
  match match_here p EmptyString s with
  | Some g => Some g
  | None =>
      match s with
      | String _ s' => re_search p s'
      | EmptyString => None
      end
  end.

(** The escape string is spliced into the pattern text: a backslash
    quotes the character after it, any other character stands for
    itself (none of [#], [@], [=] is special in a pattern). *)
Fixpoint literal (e : string) : list item :=
  match e with
  | String "092" (String c e') => Chr c :: literal e'
  | String c e' => Chr c :: literal e'
  | EmptyString => []
  end.

(** The class [[@=#*]]. *)
Definition markers : list ascii := ["@"; "="; "#"; "*"]%char.

(** ** Term *)

Inductive Key :=
| K1 (s : string)
| K2 (s1 s2 : string)
| K3 (s1 s2 s3 : string).

#[global] Instance Key_eq_dec : EqDecision Key.
Proof. solve_decision. Defined.

#[global] Instance Key_countable : Countable Key.
Proof.
  refine (inj_countable'
    (fun k => match k with
              | K1 s => inl s
              | K2 s1 s2 => inr (inl (s1, s2))
              | K3 s1 s2 s3 => inr (inr (s1, s2, s3))
              end)
    (fun x => match x with
              | inl s => K1 s
              | inr (inl (s1, s2)) => K2 s1 s2
              | inr (inr (s1, s2, s3)) => K3 s1 s2 s3
              end) _).
  intros []; reflexivity.
Defined.

Record Term := { key : Key; type : string; points : Z }.

Definition any_escape : string := String "092" "*".
Definition class_escape : string := "#".
Definition attr_escape : string := "@".
Definition value_escape : string := "=".

(** [Term.build_search_term(escape_char, strng)]. *)
Definition build_search_term (escape_char strng : string) : bool * string :=
  let mid := re_search (literal escape_char ++
                        [Group 1 true markers; Bracket false markers]) strng in
  let end_ := re_search (literal escape_char ++
                         [Group 0 true markers; Dollar]) strng in
  match mid with
  | Some term_string => (Nat.ltb 0 (String.length term_string), term_string)
  | None =>
      match end_ with
      | Some term_string => (Nat.ltb 0 (String.length term_string), term_string)
      | None => (false, EmptyString)
      end
  end.

(** [Term.parse_input(strng)].  [strng[0]] raises [IndexError] on the
    empty string; it is a one-character string, compared with the four
    escape strings (of which [any_escape] has two characters). *)
Definition parse_input (strng : string) : res (list Term) :=
  match strng with
  | EmptyString => Raise IndexError
  | String c0 _ =>
      let new_string :=
        if negb (existsb (String.eqb (String c0 EmptyString))
                   [any_escape; class_escape; attr_escape; value_escape])
        then "*" +:+ strng else strng in
      let '(class_valid, class_str) := build_search_term class_escape new_string in
      let '(attr_valid, attr_str) := build_search_term attr_escape new_string in
      let '(value_valid, value_str) := build_search_term value_escape new_string in
      let '(any_valid, any_str) := build_search_term any_escape new_string in
      if class_valid && attr_valid && value_valid then
        Ok [Build_Term (K3 class_str attr_str value_str) "cav" 8]
      else if class_valid && attr_valid then
        if any_valid then Ok [Build_Term (K3 class_str attr_str any_str) "cav" 6]
        else Ok [Build_Term (K2 class_str attr_str) "ca" 4]
      else if class_valid && value_valid then
        if any_valid then Ok [Build_Term (K3 class_str any_str value_str) "cav" 6]
        else Ok [Build_Term (K2 class_str value_str) "cv" 4]
      else if class_valid && any_valid then
        Ok [Build_Term (K2 class_str any_str) "ca" 3;
            Build_Term (K2 class_str any_str) "cv" 3]
      else if attr_valid && value_valid then
        if any_valid then Ok [Build_Term (K3 any_str attr_str value_str) "cav" 6]
        else Ok [Build_Term (K2 attr_str value_str) "av" 4]
      else if attr_valid && any_valid then
        Ok [Build_Term (K2 any_str attr_str) "ca" 3;
            Build_Term (K2 attr_str any_str) "av" 3]
      else if value_valid && any_valid then
        Ok [Build_Term (K2 any_str value_str) "cv" 3;
            Build_Term (K2 any_str value_str) "av" 3]
      else if class_valid then Ok [Build_Term (K1 class_str) "c" 2]
      else if attr_valid then Ok [Build_Term (K1 attr_str) "a" 2]
      else if value_valid then Ok [Build_Term (K1 value_str) "v" 2]
      else if any_valid then
        Ok [Build_Term (K1 any_str) "c" 1;
            Build_Term (K1 any_str) "a" 1;
            Build_Term (K1 any_str) "v" 1]
      else Ok []
  end.

(** ** [str(key)]

    Python 2's [str] of a [str] is the string itself; [str] of a tuple
    is the [repr] of its elements, separated by a comma and a space,
    between parentheses. *)

Definition hex_digit (n : N) : ascii :=
  nth (N.to_nat n)
    ["0"; "1"; "2"; "3"; "4"; "5"; "6"; "7"; "8"; "9";
     "a"; "b"; "c"; "d"; "e"; "f"]%char "0"%char.

Definition repr_char (quote c : ascii) : string :=
  if Ascii.eqb c quote || Ascii.eqb c "092" then String "092" (String c EmptyString)
  else if Ascii.eqb c "009" then String "092" "t"
  else if Ascii.eqb c "010" then String "092" "n"
  else if Ascii.eqb c "013" then String "092" "r"
  else if (N_of_ascii c <? 32)%N || (127 <=? N_of_ascii c)%N then
    String "092" (String "x" (String (hex_digit (N_of_ascii c / 16))
      (String (hex_digit (N_of_ascii c mod 16)) EmptyString)))
  else String c EmptyString.

Fixpoint has_char (c : ascii) (s : string) : bool :=
  match s with
  | String a s' => Ascii.eqb a c || has_char c s'
  | EmptyString => false
  end.

Fixpoint repr_body (quote : ascii) (s : string) : string :=
  match s with
  | String a s' => repr_char quote a +:+ repr_body quote s'
  | EmptyString => EmptyString
  end.

Definition repr (s : string) : string :=
  let quote : ascii :=
    if has_char "'" s && negb (has_char "034" s) then "034"%char else "'"%char in
  String quote (repr_body quote s +:+ String quote EmptyString).

Definition str (k : Key) : string :=
  match k with
  | K1 s => s
  | K2 s1 s2 => "(" +:+ repr s1 +:+ ", " +:+ repr s2 +:+ ")"
  | K3 s1 s2 s3 => "(" +:+ repr s1 +:+ ", " +:+ repr s2 +:+ ", " +:+ repr s3 +:+ ")"
  end.

(** ** [str.strip()] and [str.split(' ')] *)

Definition is_space (a : ascii) : bool :=
  existsb (Ascii.eqb a) [" "; "009"; "010"; "011"; "012"; "013"]%char.

Fixpoint lstrip (s : string) : string :=
  match s with
  | String a s' => if is_space a then lstrip s' else s
  | EmptyString => EmptyString
  end.

Fixpoint rstrip (s : string) : string :=
  match s with
  | String a s' =>
      match rstrip s' with
      | EmptyString => if is_space a then EmptyString else String a EmptyString
      | r => String a r
      end
  | EmptyString => EmptyString
  end.

Definition strip (s : string) : string := rstrip (lstrip s).

(** [cur] is the piece being read; every separator closes a piece, so
    the result is never empty and adjacent separators give empty
    pieces. *)
Fixpoint split_from (sep : ascii) (cur s : string) : list string :=
  match s with
  | String a s' =>
      if Ascii.eqb a sep then cur :: split_from sep EmptyString s'
      else split_from sep (cur +:+ String a EmptyString) s'
  | EmptyString => [cur]
  end.

Definition split (sep : ascii) (s : string) : list string :=
  split_from sep EmptyString s.

(** [SearchIndexLookup._get_terms(term_string)] (a static method). *)
Fixpoint extend_parsed (terms : list string) (result : list Term) : res (list Term) :=
  match terms with
  | [] => Ok result
  | term :: terms' =>
      match parse_input term with
      | Ok ts => extend_parsed terms' (result ++ ts)
      | Raise e => Raise e
      end
  end.

Definition _get_terms (term_string : string) : res (list Term) :=
  let terms := split " " (strip term_string) in
  extend_parsed terms [].

(** ** The object store *)

(** Modelled from the spec: the class of the searchable objects is not
    part of this file; a searchable exposes [object_class], [attr],
    [value] and [attr_value], and [uid] stands for
    [searchable.primary.get_attributes()['dn']], the record's
    identifier. *)
Record Searchable := {
  object_class : string;
  attr : list string;
  value : list string;
  attr_value : list (string * string);
  uid : string }.

(** An entry of [self.ranked_items]: the dict with keys ['pscore'],
    ['sscore'] and ['terms']. *)
Record Rank := { pscore : Z; sscore : Z; terms : gset string }.

(** An entry of the response list of [_rank_results]. *)
Record Ranked := {
  r_pscore : Z;
  r_sscore : Z;
  r_terms : list string;
  r_uid : string }.

Abbreviation loc := nat (only parsing).

(** The attributes of a [SearchIndexLookup]: the seven tables map a key
    to (the location of) a set of uids. *)
Record SearchIndexLookup := {
  by_attr : gmap Key loc;
  by_value : gmap Key loc;
  by_class : gmap Key loc;
  by_attr_value : gmap Key loc;
  by_class_value : gmap Key loc;
  by_class_attr : gmap Key loc;
  by_class_attr_value : gmap Key loc;
  ranked_items : gmap string Rank }.

Inductive table :=
| ByAttr | ByValue | ByClass | ByAttrValue | ByClassValue | ByClassAttr
| ByClassAttrValue.

#[global] Instance table_eq_dec : EqDecision table.
Proof. solve_decision. Defined.

Definition get_table (d : table) (o : SearchIndexLookup) : gmap Key loc :=
  match d with
  | ByAttr => by_attr o
  | ByValue => by_value o
  | ByClass => by_class o
  | ByAttrValue => by_attr_value o
  | ByClassValue => by_class_value o
  | ByClassAttr => by_class_attr o
  | ByClassAttrValue => by_class_attr_value o
  end.

Definition set_table (d : table) (m : gmap Key loc) (o : SearchIndexLookup)
    : SearchIndexLookup :=
  {| by_attr := if decide (d = ByAttr) then m else by_attr o;
     by_value := if decide (d = ByValue) then m else by_value o;
     by_class := if decide (d = ByClass) then m else by_class o;
     by_attr_value := if decide (d = ByAttrValue) then m else by_attr_value o;
     by_class_value := if decide (d = ByClassValue) then m else by_class_value o;
     by_class_attr := if decide (d = ByClassAttr) then m else by_class_attr o;
     by_class_attr_value :=
       if decide (d = ByClassAttrValue) then m else by_class_attr_value o;
     ranked_items := ranked_items o |}.

Definition set_ranked_items (r : gmap string Rank) (o : SearchIndexLookup)
    : SearchIndexLookup :=
  {| by_attr := by_attr o;
     by_value := by_value o;
     by_class := by_class o;
     by_attr_value := by_attr_value o;
     by_class_value := by_class_value o;
     by_class_attr := by_class_attr o;
     by_class_attr_value := by_class_attr_value o;
     ranked_items := r |}.

(** The state of the program: the set objects and the index object. *)
Record world := { heap : list (gset string); self : SearchIndexLookup }.

(** [SearchIndexLookup.__init__]: seven empty dicts.  ([ranked_items] is
    not an attribute yet; it is assigned before it is first read.) *)
Definition __init__ : world :=
  {| heap := [];
     self := {| by_attr := ∅; by_value := ∅; by_class := ∅; by_attr_value := ∅;
                by_class_value := ∅; by_class_attr := ∅;
                by_class_attr_value := ∅; ranked_items := ∅ |} |}.

(** The set object at a location. *)
Definition deref (w : world) (l : loc) : gset string := default ∅ (heap w !! l).

(** ** A state and exception monad *)

Definition M (A : Type) : Type := world -> res A * world.

Definition ret {A} (x : A) : M A := fun w => (Ok x, w).

Definition bind {A B} (m : M A) (f : A -> M B) : M B :=
  fun w =>
    match m w with
    | (Ok x, w') => f x w'
    | (Raise e, w') => (Raise e, w')
    end.

Definition raise {A} (e : exn) : M A := fun w => (Raise e, w).

Definition lift {A} (r : res A) : M A := fun w => (r, w).

Notation "'let*' x ':=' c1 'in' c2" := (bind c1 (fun x => c2))
  (at level 10, x name, c1 at level 100, c2 at level 200).

Notation "c1 ;;; c2" := (bind c1 (fun _ => c2))
  (at level 100, c2 at level 200, right associativity).

(** [for x in l: body x]. *)
Fixpoint for_ {A} (l : list A) (body : A -> M unit) : M unit :=
  match l with
  | [] => ret tt
  | x :: l' => body x ;;; for_ l' body
  end.

(** *** Statements on the tables *)

(** [self.d = {}] *)
Definition dict_clear (d : table) : M unit :=
  fun w => (Ok tt, {| heap := heap w; self := set_table d ∅ (self w) |}).

(** [k in self.d] *)
Definition dict_contains (d : table) (k : Key) : M bool :=
  fun w => (Ok (bool_decide (is_Some (get_table d (self w) !! k))), w).

(** [self.d[k] = set([])]: a new set object is allocated. *)
Definition dict_set_new (d : table) (k : Key) : M unit :=
  fun w =>
    (Ok tt,
     {| heap := heap w ++ [∅];
        self := set_table d (<[k := length (heap w)]> (get_table d (self w)))
                  (self w) |}).

(** [self.d[k].add(uid)]: the set object is updated in place. *)
Definition dict_add (d : table) (k : Key) (uid : string) : M unit :=
  fun w =>
    match get_table d (self w) !! k with
    | Some l =>
        (Ok tt, {| heap := <[l := deref w l ∪ {[uid]}]> (heap w); self := self w |})
    | None => (Raise KeyError, w)
    end.

(** [self.d.get(k)]: a reference to the set object, or [None]. *)
Definition dict_get (d : table) (k : Key) : M (option loc) :=
  fun w => (Ok (get_table d (self w) !! k), w).

(** Reading the set object behind a reference. *)
Definition read_set (l : loc) : M (gset string) := fun w => (Ok (deref w l), w).

(** [if k not in self.d: self.d[k] = set([])] *)
Definition ensure (d : table) (k : Key) : M unit :=
  let* present := dict_contains d k in
  if negb present then dict_set_new d k else ret tt.

(** ** [SearchIndexLookup._index_searchables(searchables)]

    The progress counter and the timing printed by the method have no
    effect on the index and are left out. *)
Definition index_searchable (searchable : Searchable) : M unit :=
  let atk_class := object_class searchable in
  let atk_attrs := attr searchable in
  let atk_values := value searchable in
  let atk_attr_values := attr_value searchable in
  let uid := uid searchable in
  ensure ByClass (K1 atk_class) ;;;
  dict_add ByClass (K1 atk_class) uid ;;;
  for_ atk_attrs (fun atk_attr =>
    ensure ByAttr (K1 atk_attr) ;;;
    ensure ByClassAttr (K2 atk_class atk_attr) ;;;
    dict_add ByAttr (K1 atk_attr) uid ;;;
    dict_add ByClassAttr (K2 atk_class atk_attr) uid) ;;;
  for_ atk_values (fun atk_value =>
    ensure ByValue (K1 atk_value) ;;;
    ensure ByClassValue (K2 atk_class atk_value) ;;;
    dict_add ByValue (K1 atk_value) uid ;;;
    dict_add ByClassValue (K2 atk_class atk_value) uid) ;;;
  for_ atk_attr_values (fun atk_attr_value =>
    let k := K2 atk_attr_value.1 atk_attr_value.2 in
    ensure ByAttrValue k ;;;
    dict_add ByAttrValue k uid ;;;
    let '(atk_attr, atk_value) := atk_attr_value in
    ensure ByClassAttrValue (K3 atk_class atk_attr atk_value) ;;;
    dict_add ByClassAttrValue (K3 atk_class atk_attr atk_value) uid).

Definition _index_searchables (searchables : list Searchable) : M unit :=
  dict_clear ByAttr ;;;
  dict_clear ByValue ;;;
  dict_clear ByAttrValue ;;;
  dict_clear ByClass ;;;
  dict_clear ByClassValue ;;;
  dict_clear ByClassAttr ;;;
  dict_clear ByClassAttrValue ;;;
  for_ searchables index_searchable.

(** ** [SearchIndexLookup.search(term_string)] *)

(** [if term.type == ty: results.append((term, self.d.get(term.key)))] *)
Definition probe (ty : string) (d : table) (term : Term)
    (results : list (Term * option loc)) : M (list (Term * option loc)) :=
  if String.eqb (type term) ty then
    let* hit := dict_get d (key term) in
    ret (results ++ [(term, hit)])%list
  else ret results.

Fixpoint probe_terms (terms : list Term) (results : list (Term * option loc))
    : M (list (Term * option loc)) :=
  match terms with
  | [] => ret results
  | term :: terms' =>
      let* results := probe "cav" ByClassAttrValue term results in
      let* results := probe "ca" ByClassAttr term results in
      let* results := probe "cv" ByClassValue term results in
      let* results := probe "av" ByAttrValue term results in
      let* results := probe "c" ByClass term results in
      let* results := probe "a" ByAttr term results in
      let* results := probe "v" ByValue term results in
      probe_terms terms' results
  end.

(** *** Statements on [self.ranked_items] *)

(** [self.ranked_items = {}] *)
Definition ranked_clear : M unit :=
  fun w => (Ok tt, {| heap := heap w; self := set_ranked_items ∅ (self w) |}).

(** [self.ranked_items[item] = r] *)
Definition ranked_setitem (item : string) (r : Rank) : M unit :=
  fun w =>
    (Ok tt,
     {| heap := heap w;
        self := set_ranked_items (<[item := r]> (ranked_items (self w))) (self w) |}).

(** [self.ranked_items[item]] *)
Definition ranked_getitem (item : string) : M Rank :=
  fun w =>
    match ranked_items (self w) !! item with
    | Some r => (Ok r, w)
    | None => (Raise KeyError, w)
    end.

(** The keys of [self.ranked_items], in the order of iteration. *)
Definition ranked_keys : M (list string) :=
  fun w => (Ok ((map_to_list (ranked_items (self w))).*1), w).

(** [len(self.ranked_items)] *)
Definition ranked_len : M nat :=
  fun w => (Ok (size (ranked_items (self w))), w).

(** *** Sorting *)

(** [<] on the tuples [(-pscore, -sscore, uid)]. *)
Definition tuple_ltb (x y : Z * Z * string) : bool :=
  let '(p1, s1, u1) := x in
  let '(p2, s2, u2) := y in
  if (p1 <? p2)%Z then true
  else if (p2 <? p1)%Z then false
  else if (s1 <? s2)%Z then true
  else if (s2 <? s1)%Z then false
  else String.ltb u1 u2.

(** A stable sort of keyed items: [x] goes before the first [y] that is
    not smaller than it. *)
Fixpoint insert_keyed (x : (Z * Z * string) * string)
    (l : list ((Z * Z * string) * string)) : list ((Z * Z * string) * string) :=
  match l with
  | [] => [x]
  | y :: l' => if tuple_ltb y.1 x.1 then y :: insert_keyed x l' else x :: y :: l'
  end.

Fixpoint sort_keyed (l : list ((Z * Z * string) * string))
    : list ((Z * Z * string) * string) :=
  match l with
  | [] => []
  | x :: l' => insert_keyed x (sort_keyed l')
  end.

(** The key function of the sort, applied once to every item:
    [lambda x: (-self.ranked_items[x]['pscore'],
                -self.ranked_items[x]['sscore'], x)]. *)
Fixpoint keyed (items : list string) : M (list ((Z * Z * string) * string)) :=
  match items with
  | [] => ret []
  | x :: items' =>
      let* rp := ranked_getitem x in
      let* rs := ranked_getitem x in
      let* ks := keyed items' in
      ret (((- pscore rp, - sscore rs, x)%Z, x) :: ks)
  end.

(** [sorted(self.ranked_items, key=...)] *)
Definition sorted : M (list string) :=
  let* items := ranked_keys in
  let* ks := keyed items in
  ret ((sort_keyed ks).*2).

(** *** [SearchIndexLookup._rank_results(unranked_results)] *)

(** The first loop: the union of the hits that are not [None]. *)
Fixpoint union_hits (unranked_results : list (Term * option loc))
    (master_items : gset string) : M (gset string) :=
  match unranked_results with
  | [] => ret master_items
  | results :: rest =>
      match results.2 with
      | Some l =>
          let* s := read_set l in
          union_hits rest (master_items ∪ s)
      | None => union_hits rest master_items
      end
  end.

(** The body of the scoring loop. *)
Definition score (atk_obj : string) (result : Term * option loc) : M unit :=
  match result.2 with
  | Some l =>
      let* s := read_set l in
      if bool_decide (atk_obj ∈ s) then
        let* r := ranked_getitem atk_obj in
        ranked_setitem atk_obj
          {| pscore := pscore r + points result.1;
             sscore := sscore r; terms := terms r |} ;;;
        let* r := ranked_getitem atk_obj in
        ranked_setitem atk_obj
          {| pscore := pscore r; sscore := sscore r;
             terms := terms r ∪ {[str (key result.1)]} |}
      else ret tt
  | None => ret tt
  end.

(** The last loop: it stops after the hundredth record. *)
Fixpoint respond (results : list string) (count : nat) (resp : list Ranked)
    : M (list Ranked) :=
  match results with
  | [] => ret resp
  | result :: rest =>
      let count := count + 1 in
      let* rp := ranked_getitem result in
      let* rs := ranked_getitem result in
      let* rt := ranked_getitem result in
      let record :=
        {| r_pscore := pscore rp; r_sscore := sscore rs;
           r_terms := elements (terms rt); r_uid := result |} in
      let resp := (resp ++ [record])%list in
      if Nat.leb 100 count then ret resp else respond rest count resp
  end.

Definition _rank_results (unranked_results : list (Term * option loc))
    : M (list Ranked * nat) :=
  let* master_items := union_hits unranked_results ∅ in
  ranked_clear ;;;
  for_ (elements master_items) (fun item =>
    ranked_setitem item {| pscore := 0; sscore := 0; terms := ∅ |}) ;;;
  for_ (elements master_items) (fun atk_obj =>
    for_ unranked_results (score atk_obj)) ;;;
  let* order := sorted in
  let* resp := respond order 0 [] in
  let* n := ranked_len in
  ret (resp, n).

Definition search (term_string : string) : M (list Ranked * nat) :=
  let* terms := lift (_get_terms term_string) in
  let* results := probe_terms terms [] in
  _rank_results results.

(** [SearchIndexLookup.add_atk_objects(root)], given the searchables of
    [root]. *)
Definition add_atk_objects (searchables : list Searchable) : M unit :=
  _index_searchables searchables.

(** * Vocabulary of the properties

    The definitions below are not part of the program: they are the
    words in which the properties of the parser, of the index and of
    the ranking are stated. *)

Local Open Scope list_scope.

(** ** Tokens and segments *)

(** One of the four marker characters. *)
Definition is_marker (a : ascii) : bool := in_class false markers a.

Fixpoint string_forall (f : ascii -> bool) (s : string) : bool :=
  match s with
  | String a s' => f a && string_forall f s'
  | EmptyString => true
  end.

(** A string without marker characters. *)
Definition plain (s : string) : bool := string_forall (in_class true markers) s.

(** Where a greedy run over [ok] characters has to stop. *)
Definition stops (ok : ascii -> bool) (r : string) : bool :=
  match r with
  | String a _ => negb (ok a)
  | EmptyString => true
  end.

(** The escape string of a marker character. *)
Definition escape_of (c : ascii) : string :=
  if Ascii.eqb c "*" then any_escape else String c EmptyString.

(** The segment of a facet: present when [build_search_term] finds it
    valid. *)
Definition segment (escape_char s : string) : option string :=
  let '(valid, term_string) := build_search_term escape_char s in
  if valid then Some term_string else None.

(** The token with its implied wildcard: a star is put in front of a
    token whose first character is none of the four markers. *)
Definition implied_any (strng : string) : string :=
  match strng with
  | String c0 _ => if is_marker c0 then strng else "*" +:+ strng
  | EmptyString => EmptyString
  end.

(** The string on which [parse_input] extracts the segments. *)
Definition new_string (c0 : ascii) (rest : string) : string :=
  if negb (existsb (String.eqb (String c0 EmptyString))
             [any_escape; class_escape; attr_escape; value_escape])
  then "*" +:+ String c0 rest else String c0 rest.

(** The disambiguation table, row by row in its order of priority:
    the Terms for a combination of present class, attribute, value and
    wildcard segments. *)
Definition disambiguation_table (class_ attr_ value_ any_ : option string)
    : list Term :=
  match class_, attr_, value_, any_ with
  | Some c, Some a, Some v, _ => [Build_Term (K3 c a v) "cav" 8]
  | Some c, Some a, None, Some x => [Build_Term (K3 c a x) "cav" 6]
  | Some c, Some a, None, None => [Build_Term (K2 c a) "ca" 4]
  | Some c, None, Some v, Some x => [Build_Term (K3 c x v) "cav" 6]
  | Some c, None, Some v, None => [Build_Term (K2 c v) "cv" 4]
  | Some c, None, None, Some x =>
      [Build_Term (K2 c x) "ca" 3; Build_Term (K2 c x) "cv" 3]
  | None, Some a, Some v, Some x => [Build_Term (K3 x a v) "cav" 6]
  | None, Some a, Some v, None => [Build_Term (K2 a v) "av" 4]
  | None, Some a, None, Some x =>
      [Build_Term (K2 x a) "ca" 3; Build_Term (K2 a x) "av" 3]
  | None, None, Some v, Some x =>
      [Build_Term (K2 x v) "cv" 3; Build_Term (K2 x v) "av" 3]
  | Some c, None, None, None => [Build_Term (K1 c) "c" 2]
  | None, Some a, None, None => [Build_Term (K1 a) "a" 2]
  | None, None, Some v, None => [Build_Term (K1 v) "v" 2]
  | None, None, None, Some x =>
      [Build_Term (K1 x) "c" 1; Build_Term (K1 x) "a" 1; Build_Term (K1 x) "v" 1]
  | None, None, None, None => []
  end.

(** ** The contents of the index *)

(** The contents of a table: every key with the set object it refers
    to. *)
Definition view (w : world) (d : table) : gmap Key (gset string) :=
  deref w <$> get_table d (self w).

(** The tables refer to allocated set objects, and no set object is
    shared by two entries. *)
Definition wf (w : world) : Prop :=
  (forall d k l, get_table d (self w) !! k = Some l -> l < length (heap w)) /\
  (forall d d' k k' l,
     get_table d (self w) !! k = Some l ->
     get_table d' (self w) !! k' = Some l -> d = d' /\ k = k').

(** [x] is in the entry of table [d] under key [k]. *)
Definition indexed (w : world) (d : table) (k : Key) (x : string) : Prop :=
  exists l, get_table d (self w) !! k = Some l /\ x ∈ deref w l.

(** A posting: a uid to be found in a table under a key. *)
Definition posting : Type := table * Key * string.

(** The postings of a record, in the order in which the builder makes
    them. *)
Definition postings_of (r : Searchable) : list posting :=
  let c := object_class r in
  let x := uid r in
  [(ByClass, K1 c, x)] ++
  flat_map (fun a => [(ByAttr, K1 a, x); (ByClassAttr, K2 c a, x)]) (attr r) ++
  flat_map (fun v => [(ByValue, K1 v, x); (ByClassValue, K2 c v, x)]) (value r) ++
  flat_map (fun av => [(ByAttrValue, K2 av.1 av.2, x);
                       (ByClassAttrValue, K3 c av.1 av.2, x)]) (attr_value r).

Definition postings (R : list Searchable) : list posting := flat_map postings_of R.

(** The entry that a list of postings gives to a key of a table. *)
Definition bucket (E : list posting) (d : table) (k : Key) : option (gset string) :=
  let s : gset string :=
    list_to_set ((fun e : posting => e.2) <$>
                 filter (fun e : posting => e.1 = (d, k)) E) in
  if decide (s = ∅) then None else Some s.

(** The tables of [w] hold exactly the postings [E]. *)
Definition posted (w : world) (E : list posting) : Prop :=
  wf w /\ forall d k, view w d !! k = bucket E d k.

Definition views : Type := table -> gmap Key (gset string).

(** The effect of [ensure] and of [dict_add] on the contents. *)
Definition view_ensure (d : table) (k : Key) (V : views) : views :=
  fun d' => if decide (d' = d) then <[k := default ∅ (V d !! k)]> (V d) else V d'.

Definition view_add (d : table) (k : Key) (x : string) (V : views) : views :=
  fun d' =>
    if decide (d' = d) then <[k := default ∅ (V d !! k) ∪ {[x]}]> (V d) else V d'.

Definition has_views (w : world) (V : views) : Prop :=
  wf w /\ forall d, view w d = V d.

Definition same_ranked (w w' : world) : Prop :=
  ranked_items (self w') = ranked_items (self w).

(** The state after the seven assignments that open a build. *)
Definition cleared (w : world) : world :=
  {| heap := heap w;
     self := {| by_attr := ∅; by_value := ∅; by_class := ∅; by_attr_value := ∅;
                by_class_value := ∅; by_class_attr := ∅;
                by_class_attr_value := ∅;
                ranked_items := ranked_items (self w) |} |}.

(** ** Candidates and scores *)

(** The table selected by the kind of a Term. *)
Definition table_of_type (ty : string) : option table :=
  if String.eqb ty "cav" then Some ByClassAttrValue
  else if String.eqb ty "ca" then Some ByClassAttr
  else if String.eqb ty "cv" then Some ByClassValue
  else if String.eqb ty "av" then Some ByAttrValue
  else if String.eqb ty "c" then Some ByClass
  else if String.eqb ty "a" then Some ByAttr
  else if String.eqb ty "v" then Some ByValue
  else None.

(** The match set of a Term: the entry under its key in the table of
    its kind; [None] is a lookup miss. *)
Definition match_set (w : world) (t : Term) : option (gset string) :=
  match table_of_type (type t) with
  | Some d => view w d !! key t
  | None => None
  end.

(** The match set of [t] contains [x]. *)
Definition contributes (w : world) (x : string) (t : Term) : bool :=
  match match_set w t with
  | Some s => bool_decide (x ∈ s)
  | None => false
  end.

(** The union of the match sets that are not misses. *)
Definition candidates (w : world) (ts : list Term) : gset string :=
  ⋃ omap (match_set w) ts.

(** The sum of the weights of the Terms whose match set contains [x]. *)
Definition primary_score (w : world) (ts : list Term) (x : string) : Z :=
  foldr Z.add 0%Z (points <$> filter (fun t => contributes w x t = true) ts).

(** The stringified keys of the Terms whose match set contains [x]. *)
Definition matched_term_keys (w : world) (ts : list Term) (x : string)
    : gset string :=
  list_to_set ((fun t => str (key t)) <$>
               filter (fun t => contributes w x t = true) ts).

Definition rank_of (w : world) (ts : list Term) (x : string) : Rank :=
  {| pscore := primary_score w ts x; sscore := 0;
     terms := matched_term_keys w ts x |}.

(** The ranking of a query: every candidate with its scores. *)
Definition ranking (w : world) (ts : list Term) : gmap string Rank :=
  set_to_map (fun x => (x, rank_of w ts x)) (candidates w ts).

(** ** The steps of [search] in closed form *)

(** The unranked results of the probes. *)
Definition hits (w : world) (ts : list Term) : list (Term * option nat) :=
  flat_map (fun t =>
    match table_of_type (type t) with
    | Some d => [(t, get_table d (self w) !! key t)]
    | None => []
    end) ts.

(** [w] with [self.ranked_items] replaced. *)
Definition with_ranked (rk : gmap string Rank) (w : world) : world :=
  {| heap := heap w; self := set_ranked_items rk (self w) |}.

Definition hit_sets (w : world) (results : list (Term * option nat))
    : list (gset string) :=
  omap (fun r : Term * option nat => deref w <$> r.2) results.

(** One step of the scoring loop on the entry of [x]. *)
Definition bump (w : world) (x : string) (r : Rank) (result : Term * option nat)
    : Rank :=
  match result.2 with
  | Some l =>
      if bool_decide (x ∈ deref w l) then
        {| pscore := pscore r + points result.1; sscore := sscore r;
           terms := terms r ∪ {[str (key result.1)]} |}
      else r
  | None => r
  end.

Definition scored (w : world) (x : string) (results : list (Term * option nat))
    (r : Rank) : Rank :=
  foldl (bump w x) r results.

Definition rank0 : Rank := {| pscore := 0; sscore := 0; terms := ∅ |}.

(** [self.ranked_items] after the two loops of [_rank_results]. *)
Definition ranks (w : world) (results : list (Term * option nat))
    : gmap string Rank :=
  let l := elements (⋃ hit_sets w results) in
  foldl (fun m x => <[x := scored w x results rank0]> m)
    (foldl (fun m x => <[x := rank0]> m) ∅ l) l.

(** The sort key of an item and the item. *)
Definition key_of (rk : gmap string Rank) (x : string) : (Z * Z * string) * string :=
  let r := default rank0 (rk !! x) in ((- pscore r, - sscore r, x)%Z, x).

(** The uids of a ranking in sorted order. *)
Definition order (rk : gmap string Rank) : list string :=
  (sort_keyed (key_of rk <$> (map_to_list rk).*1)).*2.

(** The response record of a uid. *)
Definition record_of (rk : gmap string Rank) (x : string) : Ranked :=
  let r := default rank0 (rk !! x) in
  {| r_pscore := pscore r; r_sscore := sscore r;
     r_terms := elements (terms r); r_uid := x |}.

Definition response (rk : gmap string Rank) : list Ranked :=
  record_of rk <$> take 100 (order rk).

(** ** The order of the response *)

(** The sort key of [a] is not after the sort key of [b]. *)
Definition kle (a b : (Z * Z * string) * string) : Prop := tuple_ltb b.1 a.1 = false.

(** [ri] is ranked before [rj]: a higher primary score, then a higher
    secondary score, then a smaller uid. *)
Definition before (ri rj : Ranked) : Prop :=
  (r_pscore ri > r_pscore rj)%Z \/
  (r_pscore ri = r_pscore rj /\
   ((r_sscore ri > r_sscore rj)%Z \/
    (r_sscore ri = r_sscore rj /\ String.ltb (r_uid ri) (r_uid rj) = true))).

(** ** Sequences of queries and sample records *)

(** The state after a sequence of queries. *)
Definition run_queries (qs : list string) (w : world) : world :=
  foldl (fun w q => (search q w).2) w qs.

Definition tenant_a : Searchable :=
  {| object_class := "Tenant"; attr := ["name"; "x"]; value := ["APP1"; "x"];
     attr_value := [("name", "APP1"); ("x", "x")]; uid := "uni/tn-a" |}.

Definition tenant_b : Searchable :=
  {| object_class := "Tenant"; attr := ["name"]; value := ["leaf"];
     attr_value := [("name", "leaf")]; uid := "uni/tn-b" |}.

Definition example_world : world :=
  (add_atk_objects [tenant_a; tenant_b] __init__).2.

(** A hundred and fifty records of one class. *)
Definition numbered (n : nat) : Searchable :=
  {| object_class := "T"; attr := []; value := []; attr_value := [];
     uid := pretty n |}.

Definition many_records : list Searchable := numbered <$> seq 0 150.

Definition many_world : world := (add_atk_objects many_records __init__).2.

(** The Terms of the query [#Tenant name]. *)
Definition example_terms : list Term :=
  [Build_Term (K1 "Tenant") "c" 2; Build_Term (K1 "name") "c" 1;
   Build_Term (K1 "name") "a" 1; Build_Term (K1 "name") "v" 1].

(** ** Classes and white space *)

(** A string without white space. *)
Definition spaceless (s : string) : bool :=
  string_forall (fun a => negb (is_space a)) s.

(** The uids of the records of class [c]. *)
Definition uids_of_class (R : list Searchable) (c : string) : gset string :=
  list_to_set (uid <$> filter (fun r => object_class r = c) R).

(** * The object store, the session and the database *)

(** ** Exceptions of the object store, the session and the database *)

Inductive exception :=
| Builtin (e : exn)
| LoginError
| TypeError
| AttributeError
| External (name : string).

Inductive outcome (A : Type) :=
| Return (a : A)
| Throw (e : exception).
Arguments Return {A} a.
Arguments Throw {A} e.

(** The outcome is a value, not an exception. *)
Definition returned {A} (r : outcome A) : bool :=
  match r with
  | Return _ => true
  | Throw _ => false
  end.

(** ** [SearchSession] *)

Module SearchSession.

(** Modelled from the spec: the credentials come from outside this
    file.  The [args] object has the instance variables [url], [login]
    and [password], of which this file tests [login] for [None]. *)
Record Args := { url : string; login : option string; password : string }.

(** Modelled from the spec: the class [Session] is imported.  The
    object made by [Session(url, login, password)] is the record of its
    three arguments. *)
Record Session := {
  session_url : string;
  session_login : string;
  session_password : string }.

(** The attributes of a [SearchSession]. *)
Record t := {
  _session : option Session;
  args : option Args;
  timeout : option Z }.

(** The state: the object, and the calls of [Session.login] made so
    far, each with the session and the timeout it was given. *)
Record state := { obj : t; calls : list (Session * option Z) }.

Definition set_session (s : option Session) (st : state) : state :=
  {| obj := {| _session := s; args := args (obj st); timeout := timeout (obj st) |};
     calls := calls st |}.

(** [_clear_switch_info(self)] *)
Definition _clear_switch_info (st : state) : state := set_session None st.

(** [set_login_credentials(self, args, timeout=2)]; the caller that
    gives no timeout passes [default_timeout]. *)
Definition default_timeout : option Z := Some 2%Z.

Definition set_login_credentials (a : option Args) (tmo : option Z) (st : state)
    : state :=
  _clear_switch_info
    {| obj := {| _session := _session (obj st); args := a; timeout := tmo |};
       calls := calls st |}.

(** [__init__(self, args=None)], given the calls made so far. *)
Definition __init__ (a : option Args) (made : list (Session * option Z)) : state :=
  let st := {| obj := {| _session := None; args := None; timeout := None |};
               calls := made |} in
  match a with
  | Some _ => set_login_credentials a default_timeout st
  | None => st
  end.

Section Login.

(** What [Session.login(timeout)] does is not in this file, and is a
    parameter: it answers with a response whose [ok] is given here, or
    it raises, depending on the calls made before, on the session and
    on the timeout. *)
Variable response : list (Session * option Z) -> Session -> option Z -> outcome bool.

(** The property [session].  It reads itself once, after it has
    assigned [_session]; [fuel] bounds the depth of these reads and
    [None] is a read that is cut off. *)
Fixpoint session (fuel : nat) (st : state) : option (outcome (option Session) * state) :=
  match fuel with
  | 0 => None
  | S fuel' =>
      match _session (obj st) with
      | None =>
          match args (obj st) with
          | Some a =>
              match login a with
              | Some l =>
                  let st1 :=
                    set_session
                      (Some {| session_url := url a; session_login := l;
                               session_password := password a |}) st in
                  match session fuel' st1 with
                  | None => None
                  | Some (Throw e, st2) => Some (Throw e, st2)
                  | Some (Return None, st2) => Some (Throw AttributeError, st2)
                  | Some (Return (Some s), st2) =>
                      let st3 :=
                        {| obj := obj st2;
                           calls := calls st2 ++ [(s, timeout (obj st2))] |} in
                      match response (calls st2) s (timeout (obj st2)) with
                      | Throw e => Some (Throw e, st3)
                      | Return ok =>
                          if negb ok then Some (Throw LoginError, st3)
                          else Some (Return (_session (obj st3)), st3)
                      end
                  end
              | None => Some (Throw LoginError, st)
              end
          | None => Some (Throw LoginError, st)
          end
      | Some _ => Some (Return (_session (obj st)), st)
      end
  end.

End Login.

(** The session that the property [session] makes of the credentials
    [a] with the login [l]. *)
Definition new_session (a : Args) (l : string) : Session :=
  {| session_url := url a; session_login := l; session_password := password a |}.

(** Sample credentials, and a [SearchSession] made with them. *)
Definition sample_args : Args :=
  {| url := "https://apic"; login := Some "admin"; password := "secret" |}.

Definition sample_state : state := __init__ (Some sample_args) [].

End SearchSession.

(** ** [SearchObjectStore] *)

Module SearchObjectStore.

#[local] Unset Elimination Schemes.

(** Modelled from the spec: the classes of the acitoolkit objects are
    imported.  An object is what this file reads of it: its identity
    (two values with the same [o_id] stand for one object),
    [__class__.__name__], the names of the classes it is an instance
    of, the attributes [name], [dn], [attr] and [_relations] (pairs of
    [item] and [relation_type]), and the results of [get_attributes()],
    [get_parent()] and [get_children()]. *)
Inductive Obj := mkObj {
  o_id : nat;
  o_class : string;
  o_isa : list string;
  o_name : string;
  o_dn : string;
  o_attr : gmap string string;
  o_attributes : gmap string string;
  o_parent : option Obj;
  o_children : list Obj;
  o_relations : list (Obj * string) }.
#[local] Set Elimination Schemes.

(** [isinstance(o, cls)] *)
Definition isinstance (o : Obj) (cls : string) : bool := bool_decide (cls ∈ o_isa o).

(** A dict with the keys ['class'], ['name'] and ['dn']. *)
Record Brief := { b_class : string; b_name : string; b_dn : string }.

(** The attributes of a [SearchObjectStore] that its methods use. *)
Record t := {
  map_class : gmap string (list Obj);
  object_directory : gmap string Obj }.

(** The state: the store, the attribute [gui_x_reference] of the
    objects that have one (by identity), and the lines printed. *)
Record state := {
  store : t;
  gui_x_reference : gmap nat (gmap string (list Brief));
  stdout : list string }.

(** [SearchObjectStore.__init__] *)
Definition __init__ : t := {| map_class := ∅; object_directory := ∅ |}.

(** *** The monad of the store

    A method of the store is a function of the state that gives a
    value or an exception and the next state. *)

Definition N (A : Type) : Type := state -> outcome A * state.

Definition ret {A} (x : A) : N A := fun st => (Return x, st).

Definition bind {A B} (m : N A) (f : A -> N B) : N B :=
  fun st =>
    match m st with
    | (Return x, st') => f x st'
    | (Throw e, st') => (Throw e, st')
    end.

Definition throw {A} (e : exception) : N A := fun st => (Throw e, st).

Declare Scope store_scope.
Delimit Scope store_scope with store.

Notation "'let*' x ':=' c1 'in' c2" := (bind c1 (fun x => c2))
  (at level 10, x name, c1 at level 100, c2 at level 200) : store_scope.

Notation "c1 ;;; c2" := (bind c1 (fun _ => c2))
  (at level 100, c2 at level 200, right associativity) : store_scope.

Local Open Scope store_scope.

(** [for x in l: body] *)
Fixpoint for_ {A} (l : list A) (body : A -> N unit) : N unit :=
  match l with
  | [] => ret tt
  | x :: l' => body x ;;; for_ l' body
  end.

(** [if b: body] *)
Definition when (b : bool) (body : N unit) : N unit := if b then body else ret tt.

(** [print line] *)
Definition print (line : string) : N unit :=
  fun st => (Return tt, {| store := store st; gui_x_reference := gui_x_reference st;
                           stdout := stdout st ++ [line] |}).

(** [d[k]] on a dict of strings *)
Definition getitem {V} (d : gmap string V) (k : string) : N V :=
  match d !! k with
  | Some v => ret v
  | None => throw (Builtin KeyError)
  end.

(** [self], and the assignment of its attributes. *)
Definition get_store : N t := fun st => (Return (store st), st).

Definition put_store (s : t) : N unit :=
  fun st => (Return tt, {| store := s; gui_x_reference := gui_x_reference st;
                           stdout := stdout st |}).

(** [self.object_directory[guid] = root] *)
Definition directory_setitem (guid : string) (root : Obj) : N unit :=
  let* s := get_store in
  put_store {| map_class := map_class s;
               object_directory := <[guid := root]> (object_directory s) |}.

(** [self.map_class[cls] = l] *)
Definition map_class_setitem (cls : string) (l : list Obj) : N unit :=
  let* s := get_store in
  put_store {| map_class := <[cls := l]> (map_class s);
               object_directory := object_directory s |}.

(** *** The directory

    [_add_dir_entry(self, root)] *)
Fixpoint _add_dir_entry (root : Obj) : N unit :=
  let attrs := o_attributes root in
  when (negb (bool_decide (is_Some (attrs !! "dn")))) (print "no guid") ;;;
  let* guid := getitem attrs "dn" in
  let* s := get_store in
  when (bool_decide (is_Some (object_directory s !! guid)))
    (print ("Duplicate guid " +:+ guid)) ;;;
  directory_setitem guid root ;;;
  (fix children_loop (children : list Obj) : N unit :=
     match children with
     | [] => ret tt
     | child :: rest => _add_dir_entry child ;;; children_loop rest
     end) (o_children root) ;;;
  let* s := get_store in
  when (negb (bool_decide (is_Some (map_class s !! o_class root))))
    (map_class_setitem (o_class root) []) ;;;
  let* s := get_store in
  let* l := getitem (map_class s) (o_class root) in
  map_class_setitem (o_class root) (l ++ [root]).

(** [_create_object_directory(self, root)] *)
Definition _create_object_directory (root : Obj) : N unit :=
  (let* s := get_store in
   put_store {| map_class := map_class s; object_directory := ∅ |}) ;;;
  _add_dir_entry root.

(** [get_by_uids_short(self, uids)] *)
Fixpoint get_by_uids_short_loop (uids : list string) (result : gmap string Brief)
    : N (gmap string Brief) :=
  match uids with
  | [] => ret result
  | uid :: rest =>
      let* s := get_store in
      let* atk_obj := getitem (object_directory s) uid in
      let* name := getitem (o_attributes atk_obj) "name" in
      let* dn := getitem (o_attributes atk_obj) "dn" in
      let record := {| b_class := o_class atk_obj; b_name := name; b_dn := dn |} in
      get_by_uids_short_loop rest (<[uid := record]> result)
  end.

Definition get_by_uids_short (uids : list string) : N (gmap string Brief) :=
  get_by_uids_short_loop uids ∅.

(** *** Cross references *)

(** [o.gui_x_reference = d] *)
Definition gui_set (o : Obj) (d : gmap string (list Brief)) : N unit :=
  fun st => (Return tt, {| store := store st;
                           gui_x_reference := <[o_id o := d]> (gui_x_reference st);
                           stdout := stdout st |}).

(** ['gui_x_reference' in o.__dict__] *)
Definition gui_has (o : Obj) : N bool :=
  fun st => (Return (bool_decide (is_Some (gui_x_reference st !! o_id o))), st).

(** [o.gui_x_reference] *)
Definition gui_get (o : Obj) : N (gmap string (list Brief)) :=
  fun st =>
    match gui_x_reference st !! o_id o with
    | Some d => (Return d, st)
    | None => (Throw AttributeError, st)
    end.

(** [o.get_parent().name] *)
Definition parent_name (o : Obj) : N string :=
  match o_parent o with
  | Some p => ret (o_name p)
  | None => throw AttributeError
  end.

(** [_add_relation(relationship_type, child_obj, parent_obj)]; either
    object may be [None]. *)
Definition _add_relation (relationship_type : string)
    (child_obj parent_obj : option Obj) : N unit :=
  match parent_obj with
  | None => throw AttributeError
  | Some parent =>
      let* has := gui_has parent in
      when (negb has) (gui_set parent ∅) ;;;
      match child_obj with
      | None => throw AttributeError
      | Some child =>
          let* child_name :=
            if isinstance child "BridgeDomain" || isinstance child "Context" then
              let* pn := parent_name child in
              ret (pn +:+ ":" +:+ o_name child)
            else ret (o_name child) in
          let record :=
            {| b_class := o_class child; b_name := child_name; b_dn := o_dn child |} in
          let* d := gui_get parent in
          when (negb (bool_decide (is_Some (d !! relationship_type))))
            (gui_set parent (<[relationship_type := []]> d)) ;;;
          let* d := gui_get parent in
          let* l := getitem d relationship_type in
          if existsb (fun existing_record =>
                        String.eqb (b_dn record) (b_dn existing_record)) l
          then ret tt
          else
            let* d := gui_get parent in
            let* l := getitem d relationship_type in
            gui_set parent (<[relationship_type := l ++ [record]]> d)
      end
  end.

(** [self.map_class.get(cls, {})], to be iterated. *)
Definition map_class_get_or_empty (cls : string) : N (list Obj) :=
  let* s := get_store in
  ret (default [] (map_class s !! cls)).

(** The last piece of [s.split(':')]. *)
Definition last_piece (s : string) : string :=
  List.last (split ":" s) EmptyString.

(** The loop over the concrete bridge domains that is run for a
    [context] and, with other names, for a tenant. *)
Definition for_concrete_bds (body : Obj -> N unit) : N unit :=
  let* cbds := map_class_get_or_empty "ConcreteBD" in
  for_ cbds body.

(** [_cross_reference_objects(self)] *)
Definition _cross_reference_objects : N unit :=
  (* map tenants to switches *)
  (let* tenants := map_class_get_or_empty "Tenant" in
   for_ tenants (fun tenant =>
     for_concrete_bds (fun concrete_bd =>
       let* ctenant_name := getitem (o_attr concrete_bd) "tenant" in
       when (String.eqb ctenant_name (o_name tenant))
         (let switch := o_parent concrete_bd in
          _add_relation "switches" switch (Some tenant) ;;;
          _add_relation "tenants" (Some tenant) switch)))) ;;;
  (let* s := get_store in
   match map_class s !! "BridgeDomain" with
   | None => throw TypeError
   | Some bridge_domains =>
       for_ bridge_domains (fun bridge_domain =>
         for_concrete_bds (fun concrete_bd =>
           let* n := getitem (o_attr concrete_bd) "name" in
           let* cbd_name :=
             if has_char ":" n then
               let* n := getitem (o_attr concrete_bd) "name" in
               ret (last_piece n)
             else getitem (o_attr concrete_bd) "name" in
           let* matches :=
             if String.eqb cbd_name (o_name bridge_domain) then
               let* t := getitem (o_attr concrete_bd) "tenant" in
               let* pn := parent_name bridge_domain in
               ret (String.eqb t pn)
             else ret false in
           when matches
             (let switch := o_parent concrete_bd in
              _add_relation "switches" switch (Some bridge_domain) ;;;
              _add_relation "bridge domains" (Some bridge_domain) switch ;;;
              _add_relation "concrete BD" (Some concrete_bd) (Some bridge_domain) ;;;
              _add_relation "logical BD" (Some bridge_domain) (Some concrete_bd))) ;;;
         let relations := o_relations bridge_domain in
         for_ relations (fun relation =>
           when (isinstance relation.1 "Context")
             (_add_relation "context" (Some relation.1) (Some bridge_domain) ;;;
              _add_relation "bridge domains" (Some bridge_domain) (Some relation.1))))
   end) ;;;
  (let* s := get_store in
   let* contexts := getitem (map_class s) "Context" in
   for_ contexts (fun context =>
     for_concrete_bds (fun concrete_bd =>
       let* ccontext_name := getitem (o_attr concrete_bd) "context" in
       let* matches :=
         if String.eqb ccontext_name (o_name context) then
           let* t := getitem (o_attr concrete_bd) "tenant" in
           let* pn := parent_name context in
           ret (String.eqb t pn)
         else ret false in
       when matches
         (let switch := o_parent concrete_bd in
          _add_relation "switches" switch (Some context) ;;;
          _add_relation "contexts" (Some context) switch)))) ;;;
  (let* eps := map_class_get_or_empty "Endpoint" in
   for_ eps (fun ep =>
     let epg := o_parent ep in
     let* app_profile :=
       match epg with
       | Some epg => ret (o_parent epg)
       | None => throw AttributeError
       end in
     let* tenant :=
       match app_profile with
       | Some app_profile => ret (o_parent app_profile)
       | None => throw AttributeError
       end in
     _add_relation "endpoints" (Some ep) app_profile ;;;
     _add_relation "endpoints" (Some ep) tenant ;;;
     _add_relation "tenant" tenant (Some ep) ;;;
     _add_relation "app profile" app_profile (Some ep))) ;;;
  (let* s := get_store in
   let* epgs := getitem (map_class s) "EPG" in
   for_ epgs (fun epg =>
     let relations := o_relations epg in
     for_ relations (fun relation =>
       when (isinstance relation.1 "Contract")
         (if String.eqb relation.2 "consumed" then
            _add_relation "consumes" (Some relation.1) (Some epg) ;;;
            _add_relation "consumed by" (Some epg) (Some relation.1)
          else if String.eqb relation.2 "provided" then
            _add_relation "provides" (Some relation.1) (Some epg) ;;;
            _add_relation "provided by" (Some epg) (Some relation.1)
          else print ("unexpected relation type " +:+ relation.2)) ;;;
       when (isinstance relation.1 "BridgeDomain")
         (_add_relation "bridge domain" (Some relation.1) (Some epg) ;;;
          _add_relation "epgs" (Some epg) (Some relation.1))))).

(** [add_atk_objects(self, root)] *)
Definition add_atk_objects (root : Obj) : N unit :=
  _create_object_directory root ;;;
  _cross_reference_objects.

(** *** [get_object_info(self, obj_dn)] *)

(** The result: ['properties'], ['attributes'], ['parent'] when the
    object has a parent, ['children'] by class, and ['relations'] when
    the object has cross references. *)
Record Info := {
  properties : Brief;
  attributes : gmap string string;
  parent : option Brief;
  children : gmap string (list Brief);
  relations : option (gmap string (list Brief)) }.

Fixpoint children_loop (cs : list Obj) (result : gmap string (list Brief))
    : N (gmap string (list Brief)) :=
  match cs with
  | [] => ret result
  | child :: rest =>
      let child_class := o_class child in
      let result :=
        if bool_decide (is_Some (result !! child_class)) then result
        else <[child_class := []]> result in
      let* name := getitem (o_attributes child) "name" in
      let* dn := getitem (o_attributes child) "dn" in
      let* l := getitem result child_class in
      children_loop rest
        (<[child_class :=
             l ++ [{| b_class := o_class child; b_name := name; b_dn := dn |}]]>
           result)
  end.

Definition get_object_info (obj_dn : string) : N Info :=
  let* s := get_store in
  let* atk_obj := getitem (object_directory s) obj_dn in
  let attr := o_attributes atk_obj in
  let* name := getitem attr "name" in
  let properties := {| b_class := o_class atk_obj; b_name := name; b_dn := obj_dn |} in
  let* parent :=
    match o_parent atk_obj with
    | Some p =>
        let* parent := getitem (o_attributes p) "name" in
        let* parent_dn := getitem (o_attributes p) "dn" in
        ret (Some {| b_class := o_class p; b_name := parent; b_dn := parent_dn |})
    | None => ret None
    end in
  let* children := children_loop (o_children atk_obj) ∅ in
  let* has := gui_has atk_obj in
  let* relations :=
    if has then (let* d := gui_get atk_obj in ret (Some d)) else ret None in
  ret {| properties := properties; attributes := o_attributes atk_obj;
         parent := parent; children := children; relations := relations |}.

(** *** Vocabulary of the properties of the store *)

(** The objects below [o], [o] first and each object before its
    children. *)
Fixpoint tree (o : Obj) : list Obj := o :: flat_map tree (o_children o).

(** The same objects, each one after its children. *)
Fixpoint postorder (o : Obj) : list Obj := flat_map postorder (o_children o) ++ [o].

Definition has_dn (o : Obj) : bool := bool_decide (is_Some (o_attributes o !! "dn")).

(** [o.get_attributes()['dn']], where there is one. *)
Definition guid (o : Obj) : string := default EmptyString (o_attributes o !! "dn").

(** The objects of [l] whose dn is [k]. *)
Definition with_guid (k : string) (l : list Obj) : list Obj :=
  filter (fun o => o_attributes o !! "dn" = Some k) l.

(** The objects of [l] whose class is [c]. *)
Definition of_class (c : string) (l : list Obj) : list Obj :=
  filter (fun o => o_class o = c) l.

(** [self.map_class.get(c, [])] *)
Definition instances (s : t) (c : string) : list Obj := default [] (map_class s !! c).

(** One object entered in the directory: the entry, and the line
    printed when the dn is there already. *)
Definition dir_step (acc : gmap string Obj * list string) (o : Obj)
    : gmap string Obj * list string :=
  (<[guid o := o]> acc.1,
   if bool_decide (is_Some (acc.1 !! guid o))
   then acc.2 ++ ["Duplicate guid " +:+ guid o] else acc.2).

(** One object entered in the class map. *)
Definition class_step (mc : gmap string (list Obj)) (o : Obj) : gmap string (list Obj) :=
  <[o_class o := default [] (mc !! o_class o) ++ [o]]> mc.

(** The state after the objects [pre] were entered in the directory
    and the objects [post] in the class map. *)
Definition added (pre post : list Obj) (st : state) : state :=
  let r := foldl dir_step (object_directory (store st), stdout st) pre in
  {| store := {| map_class := foldl class_step (map_class (store st)) post;
                 object_directory := r.1 |};
     gui_x_reference := gui_x_reference st;
     stdout := r.2 |}.

(** The record that [get_by_uids_short] makes of an object: its class
    and the attributes ['name'] and ['dn'], when it has both. *)
Definition brief (o : Obj) : option Brief :=
  name ← o_attributes o !! "name";
  dn ← o_attributes o !! "dn";
  Some {| b_class := o_class o; b_name := name; b_dn := dn |}.

(** The record of the object that the directory has under [uid]. *)
Definition short (s : t) (uid : string) : option Brief :=
  object_directory s !! uid ≫= brief.

(** The name under which [_add_relation] records a child: a bridge
    domain and a context are prefixed with the name of their parent. *)
Definition child_name (child : Obj) : option string :=
  if isinstance child "BridgeDomain" || isinstance child "Context" then
    p ← o_parent child; Some (o_name p +:+ ":" +:+ o_name child)
  else Some (o_name child).

(** The record that [_add_relation] makes of a child. *)
Definition record_of_child (child : Obj) (n : string) : Brief :=
  {| b_class := o_class child; b_name := n; b_dn := o_dn child |}.

(** [o.gui_x_reference[relationship_type]], empty where there is none. *)
Definition xrefs (st : state) (o : Obj) (relationship_type : string) : list Brief :=
  default [] (default ∅ (gui_x_reference st !! o_id o) !! relationship_type).

(** A list of records has a record with the dn of [r]. *)
Definition known (r : Brief) (l : list Brief) : bool :=
  existsb (fun existing_record => String.eqb (b_dn r) (b_dn existing_record)) l.

(** The state after the record [r] was entered under [parent]. *)
Definition related (relationship_type : string) (r : Brief) (parent : Obj) (st : state)
    : state :=
  let d := default ∅ (gui_x_reference st !! o_id parent) in
  let l := default [] (d !! relationship_type) in
  if known r l then st
  else {| store := store st;
          gui_x_reference :=
            <[o_id parent := <[relationship_type := l ++ [r]]> d]> (gui_x_reference st);
          stdout := stdout st |}.

(** A computation that leaves the class map and the directory as
    they are, whatever its outcome. *)
Definition keeps {A} (m : N A) : Prop := forall st, store (m st).2 = store st.

(** A computation that raises from every state whose store is [s]. *)
Definition fails_on {A} (s : t) (m : N A) : Prop :=
  forall st, store st = s -> exists e st', m st = (Throw e, st').

(** The state with an empty directory. *)
Definition reset_directory (st : state) : state :=
  {| store := {| map_class := map_class (store st); object_directory := ∅ |};
     gui_x_reference := gui_x_reference st;
     stdout := stdout st |}.

(** *** Sample objects *)

(** An object with the attributes ['name'] and ['dn']; a parent is
    given without its children. *)
Definition object (i : nat) (cls name dn : string) (p : option Obj) (cs : list Obj)
    : Obj :=
  {| o_id := i; o_class := cls; o_isa := [cls]; o_name := name; o_dn := dn;
     o_attr := ∅; o_attributes := {[ "name" := name; "dn" := dn ]};
     o_parent := p; o_children := cs; o_relations := [] |}.

Definition fabric_above : Obj := object 0 "Fabric" "fabric" "topology" None [].

Definition tenant_above : Obj :=
  object 1 "Tenant" "a" "uni/tn-a" (Some fabric_above) [].

Definition sample_bd : Obj :=
  object 2 "BridgeDomain" "bd1" "uni/tn-a/BD-bd1" (Some tenant_above) [].

Definition sample_app : Obj :=
  object 3 "AppProfile" "app" "uni/tn-a/ap-app" (Some tenant_above) [].

Definition sample_tenant : Obj :=
  object 1 "Tenant" "a" "uni/tn-a" (Some fabric_above) [sample_bd; sample_app].

Definition sample_fabric : Obj :=
  object 0 "Fabric" "fabric" "topology" None [sample_tenant].

(** A store as [__init__] makes it, no cross references, nothing
    printed. *)
Definition sample_state : state :=
  {| store := __init__; gui_x_reference := ∅; stdout := [] |}.

(** The state after the directory of the sample objects was built. *)
Definition sample_directory : state :=
  (_create_object_directory sample_fabric sample_state).2.

End SearchObjectStore.

(** ** [SearchDb] *)

Module SearchDb.

(** A result of [SearchIndexLookup.search] with the keys ['name'] and
    ['class'] added. *)
Record Found := { ranked : Ranked; f_name : string; f_class : string }.

(** The state: the index and the object store.  (The session and the
    flag [initialized] are not used by [search].) *)
Record state := { index : world; store : SearchObjectStore.state }.

Definition enrich_one (result : Ranked) (st : SearchObjectStore.state)
    : outcome Found * SearchObjectStore.state :=
  match SearchObjectStore.get_by_uids_short [r_uid result] st with
  | (Return short_record, st') =>
      match short_record !! r_uid result with
      | Some b =>
          (Return {| ranked := result; f_name := SearchObjectStore.b_name b;
                     f_class := SearchObjectStore.b_class b |}, st')
      | None => (Throw (Builtin KeyError), st')
      end
  | (Throw e, st') => (Throw e, st')
  end.

Fixpoint enrich (results : list Ranked) (st : SearchObjectStore.state)
    : outcome (list Found) * SearchObjectStore.state :=
  match results with
  | [] => (Return [], st)
  | result :: rest =>
      match enrich_one result st with
      | (Return f, st') =>
          match enrich rest st' with
          | (Return fs, st'') => (Return (f :: fs), st'')
          | (Throw e, st'') => (Throw e, st'')
          end
      | (Throw e, st') => (Throw e, st')
      end
  end.

(** [search(self, terms)]; the [search] it calls is the one of the
    index, [SearchIndexLookup.search]. *)
Definition search (terms : string) (st : state)
    : outcome (list Found * nat) * state :=
  match search terms (index st) with
  | (Ok (results, total), w') =>
      match enrich results (store st) with
      | (Return fs, s') => (Return (fs, total), {| index := w'; store := s' |})
      | (Throw e, s') => (Throw e, {| index := w'; store := s' |})
      end
  | (Raise e, w') => (Throw (Builtin e), {| index := w'; store := store st |})
  end.

(** A database with the sample index and the sample directory, where
    the uids of the index are the dn of two objects. *)
Definition sample_db : state :=
  {| index := example_world;
     store :=
       (SearchObjectStore._create_object_directory
          (SearchObjectStore.object 0 "Fabric" "fabric" "topology" None
             [SearchObjectStore.object 1 "Tenant" "a" "uni/tn-a" None [];
              SearchObjectStore.object 2 "Tenant" "b" "uni/tn-b" None []])
          SearchObjectStore.sample_state).2 |}.

End SearchDb.

(** * Proofs *)

(** ** Strings *)

Lemma append_cons a s t : String a s +:+ t = String a (s +:+ t).
Proof. reflexivity. Qed.

Lemma append_nil_l t : EmptyString +:+ t = t.
Proof. reflexivity. Qed.

Lemma append_nil_r s : s +:+ EmptyString = s.
Proof. induction s as [|a s IH]; [done|]. by rewrite append_cons, IH. Qed.

Lemma append_assoc s t u : (s +:+ t) +:+ u = s +:+ t +:+ u.
Proof. induction s as [|a s IH]; [done|]. by rewrite !append_cons, IH. Qed.

(** ** Greedy runs

    [greedy] explores the splits of the string after a run of [ok]
    characters, the longest run first. *)

Section Greedy.
Variables (ok : ascii -> bool) (min : nat) (k : string -> string -> option string).

Lemma greedy_none s : forall taken,
  (forall p r, s = p +:+ r -> string_forall ok p = true ->
               k (taken +:+ p) r = None) ->
  greedy ok min k taken s = None.
Proof.
  induction s as [|a s IH]; intros taken Hk.
  - simpl. rewrite <- (append_nil_r taken) at 2.
    rewrite (Hk EmptyString EmptyString); [by destruct (Nat.leb _ _)|done..].
  - simpl.
    assert (Hstop : k taken (String a s) = None).
    { rewrite <- (append_nil_r taken). by apply Hk. }
    rewrite Hstop.
    destruct (ok a) eqn:Ha; [|by destruct (Nat.leb _ _)].
    rewrite IH; [by destruct (Nat.leb _ _)|].
    intros p r -> Hp. rewrite append_assoc. rewrite append_cons, append_nil_l.
    apply Hk; [done|]. simpl. by rewrite Ha, Hp.
Qed.

Lemma greedy_some p : forall taken r g,
  string_forall ok p = true -> stops ok r = true ->
  Nat.leb min (String.length (taken +:+ p)) = true ->
  k (taken +:+ p) r = Some g ->
  greedy ok min k taken (p +:+ r) = Some g.
Proof.
  induction p as [|a p IH]; intros taken r g Hp Hr Hmin Hk.
  - rewrite append_nil_l. rewrite append_nil_r in Hmin, Hk.
    destruct r as [|b r]; simpl.
    + by rewrite Hmin.
    + simpl in Hr. apply negb_true_iff in Hr. by rewrite Hr, Hmin.
  - rewrite append_cons. simpl in Hp. apply andb_true_iff in Hp as [Ha Hp].
    simpl. rewrite Ha.
    rewrite (IH (taken +:+ String a EmptyString) r g); try done.
    + by rewrite append_assoc.
    + by rewrite append_assoc.
Qed.

End Greedy.

(** ** Searching a pattern that starts with a literal character *)

Lemma re_search_absent c p s :
  has_char c s = false -> re_search (Chr c :: p) s = None.
Proof.
  induction s as [|a s IH]; intros H; [done|].
  simpl in H. apply orb_false_iff in H as [Ha Hs].
  simpl. rewrite Ha. auto.
Qed.

Lemma re_search_skip c p s t :
  has_char c s = false ->
  re_search (Chr c :: p) (s +:+ t) = re_search (Chr c :: p) t.
Proof.
  induction s as [|a s IH]; intros H; [done|].
  simpl in H. apply orb_false_iff in H as [Ha Hs].
  rewrite append_cons. simpl. rewrite Ha. auto.
Qed.

Lemma re_search_here p s g :
  match_here p EmptyString s = Some g -> re_search p s = Some g.
Proof. intros H. destruct s; simpl; by rewrite H. Qed.

Lemma re_search_next p a s :
  match_here p EmptyString (String a s) = None ->
  re_search p (String a s) = re_search p s.
Proof. intros H. simpl re_search. by rewrite H. Qed.

Lemma plain_has_char c s :
  is_marker c = true -> plain s = true -> has_char c s = false.
Proof.
  intros Hc. induction s as [|a s IH]; [done|].
  unfold plain. simpl. intros [Ha Hs]%andb_true_iff.
  rewrite (IH Hs), orb_false_r.
  destruct (Ascii.eqb_spec a c) as [->|]; [|done].
  unfold is_marker, in_class in *. simpl in *. by rewrite Hc in Ha.
Qed.

Lemma plain_append s t : plain (s +:+ t) = plain s && plain t.
Proof.
  unfold plain. induction s as [|a s IH]; [done|].
  rewrite append_cons. simpl. by rewrite IH, andb_assoc.
Qed.

(** ** Extraction of the segments *)

Lemma literal_escape_of c :
  is_marker c = true -> literal (escape_of c) = [Chr c].
Proof.
  unfold is_marker, in_class, markers. simpl.
  rewrite !orb_true_iff. rewrite !Ascii.eqb_eq.
  intros [->|[->|[->|[->|[=]]]]]; reflexivity.
Qed.

Lemma stops_spec r :
  stops (in_class true markers) r = true <->
  r = EmptyString \/ exists m r', r = String m r' /\ is_marker m = true.
Proof.
  destruct r as [|m r]; simpl.
  - naive_solver.
  - unfold is_marker, in_class. simpl.
    destruct (_ || _) eqn:E; simpl.
    + split; [intros _; right; eauto|done].
    + split; [done|]. intros [|(?&?&[= <- <-]&?)]; congruence.
Qed.

Lemma plain_head_not_marker a s :
  plain (String a s) = true -> is_marker a = false.
Proof.
  unfold plain, is_marker, in_class. simpl.
  intros [H _]%andb_true_iff. by apply negb_true_iff in H.
Qed.

#[local] Arguments in_class : simpl never.

Lemma mid_here c seg m rest :
  plain seg = true -> seg <> EmptyString -> is_marker m = true ->
  match_here [Chr c; Group 1 true markers; Bracket false markers] EmptyString
    (String c (seg +:+ String m rest)) = Some seg.
Proof.
  intros Hseg Hne Hm. simpl. rewrite Ascii.eqb_refl.
  apply greedy_some; [done| |..].
  - apply stops_spec. eauto.
  - rewrite append_nil_l. destruct seg; done.
  - rewrite append_nil_l. simpl. unfold is_marker in Hm. by rewrite Hm.
Qed.

Lemma mid_plain_none c seg :
  plain seg = true ->
  match_here [Chr c; Group 1 true markers; Bracket false markers] EmptyString
    (String c seg) = None.
Proof.
  intros Hseg. simpl. rewrite Ascii.eqb_refl.
  apply greedy_none. intros p r -> Hp.
  destruct r as [|a r]; [done|]. simpl.
  rewrite plain_append in Hseg. apply andb_true_iff in Hseg as [_ Hr].
  apply plain_head_not_marker in Hr. unfold is_marker in Hr. by rewrite Hr.
Qed.

Lemma end_here c seg :
  plain seg = true ->
  match_here [Chr c; Group 0 true markers; Dollar] EmptyString (String c seg)
  = Some seg.
Proof.
  intros Hseg. simpl. rewrite Ascii.eqb_refl.
  rewrite <- (append_nil_r seg) at 1.
  apply greedy_some; [done..|]. by rewrite append_nil_l.
Qed.

Lemma bst_absent c s :
  is_marker c = true -> has_char c s = false ->
  build_search_term (escape_of c) s = (false, EmptyString).
Proof.
  intros Hc Hs. unfold build_search_term. rewrite (literal_escape_of _ Hc).
  simpl app. by rewrite !re_search_absent.
Qed.

Lemma bst_mid c pre seg m rest :
  is_marker c = true -> has_char c pre = false ->
  plain seg = true -> seg <> EmptyString -> is_marker m = true ->
  build_search_term (escape_of c) (pre +:+ String c (seg +:+ String m rest))
  = (true, seg).
Proof.
  intros Hc Hpre Hseg Hne Hm. unfold build_search_term.
  rewrite (literal_escape_of _ Hc). simpl app.
  rewrite re_search_skip by done.
  rewrite (re_search_here _ _ seg) by by apply mid_here.
  destruct seg; done.
Qed.

Lemma bst_end c pre seg :
  is_marker c = true -> has_char c pre = false -> plain seg = true ->
  build_search_term (escape_of c) (pre +:+ String c seg)
  = (Nat.ltb 0 (String.length seg), seg).
Proof.
  intros Hc Hpre Hseg. unfold build_search_term.
  rewrite (literal_escape_of _ Hc). simpl app.
  rewrite !re_search_skip by done.
  rewrite re_search_next by by apply mid_plain_none.
  rewrite re_search_absent by by apply plain_has_char.
  by rewrite (re_search_here _ _ seg) by by apply end_here.
Qed.

(** ** [parse_input] and the table *)

Lemma segment_nonempty e s : segment e s <> Some EmptyString.
Proof.
  unfold segment. destruct (build_search_term e s) as [valid t] eqn:E.
  destruct valid; [|done]. intros [= ->].
  unfold build_search_term in E. repeat case_match; by simplify_eq/=.
Qed.

Lemma build_search_term_star_star c rest :
  is_marker c = true ->
  build_search_term (escape_of c) (String "*" (String "*" rest))
  = build_search_term (escape_of c) (String "*" rest).
Proof.
  intros Hc. unfold build_search_term. rewrite (literal_escape_of _ Hc).
  simpl app.
  assert (Hmid : match_here [Chr c; Group 1 true markers; Bracket false markers]
            EmptyString (String "*" (String "*" rest)) = None).
  { cbn [match_here greedy]. destruct (Ascii.eqb "*" c); [|done].
    change (in_class true markers "*") with false. done. }
  assert (Hend : match_here [Chr c; Group 0 true markers; Dollar]
            EmptyString (String "*" (String "*" rest)) = None).
  { cbn [match_here greedy]. destruct (Ascii.eqb "*" c); [|done].
    change (in_class true markers "*") with false. by destruct rest. }
  by rewrite (re_search_next _ _ _ Hmid), (re_search_next _ _ _ Hend).
Qed.

Lemma parse_input_cons c0 rest :
  parse_input (String c0 rest) =
  Ok (disambiguation_table
        (segment class_escape (new_string c0 rest))
        (segment attr_escape (new_string c0 rest))
        (segment value_escape (new_string c0 rest))
        (segment any_escape (new_string c0 rest))).
Proof.
  unfold parse_input, segment. fold (new_string c0 rest).
  generalize (new_string c0 rest) as ns. intros ns.
  destruct (build_search_term class_escape ns) as [[] ?];
  destruct (build_search_term attr_escape ns) as [[] ?];
  destruct (build_search_term value_escape ns) as [[] ?];
  destruct (build_search_term any_escape ns) as [[] ?];
  reflexivity.
Qed.

Lemma new_string_segments c0 rest c :
  is_marker c = true ->
  build_search_term (escape_of c) (new_string c0 rest)
  = build_search_term (escape_of c) (implied_any (String c0 rest)).
Proof.
  intros Hc. unfold implied_any, new_string.
  destruct (Ascii.eqb_spec c0 "*") as [->|Hstar].
  { simpl negb. cbv iota. change (is_marker "*") with true. cbv iota.
    by apply build_search_term_star_star. }
  destruct (is_marker c0) eqn:Hm.
  - assert (existsb (String.eqb (String c0 EmptyString))
              [any_escape; class_escape; attr_escape; value_escape] = true)
      as ->; [|done].
    unfold is_marker, in_class, markers in Hm. simpl in Hm.
    rewrite !orb_true_iff, !Ascii.eqb_eq in Hm.
    destruct Hm as [->|[->|[->|[->|[=]]]]]; done.
  - assert (existsb (String.eqb (String c0 EmptyString))
              [any_escape; class_escape; attr_escape; value_escape] = false)
      as ->; [|done].
    unfold is_marker, in_class, markers in Hm. simpl in Hm.
    rewrite !orb_false_iff in Hm. destruct Hm as (H1&H2&H3&_).
    simpl. rewrite H1, H2, H3. by destruct c0 as [[] [] [] [] [] [] [] []].
Qed.

Lemma new_string_segment c0 rest e c :
  is_marker c = true -> e = escape_of c ->
  segment e (new_string c0 rest) = segment e (implied_any (String c0 rest)).
Proof. intros Hc ->. unfold segment. by rewrite new_string_segments. Qed.

(** ** The attributes of the index object and the monad *)

Lemma get_set_table d d' m o :
  get_table d' (set_table d m o) = if decide (d' = d) then m else get_table d' o.
Proof. destruct d, d'; reflexivity. Qed.

Lemma get_table_set_ranked d r o : get_table d (set_ranked_items r o) = get_table d o.
Proof. by destruct d. Qed.

Lemma bind_ok {A B} (m : M A) (f : A -> M B) w x w' :
  m w = (Ok x, w') -> bind m f w = f x w'.
Proof. unfold bind. by intros ->. Qed.

(** ** The statements on the tables

    Their effect on the contents of the tables, when no set object is
    shared. *)

Lemma ensure_spec d k w :
  wf w ->
  exists w', ensure d k w = (Ok tt, w') /\ wf w' /\
    ranked_items (self w') = ranked_items (self w) /\
    forall d', view w' d' =
      if decide (d' = d) then <[k := default ∅ (view w d !! k)]> (view w d)
      else view w d'.
Proof.
  intros [Hlt Hinj]. unfold ensure, bind, dict_contains.
  destruct (get_table d (self w) !! k) as [l|] eqn:Hk.
  - rewrite bool_decide_true by eauto. simpl. exists w.
    split; [done|]. split; [done|]. split; [done|].
    intros d'. case_decide as Hd; [subst d'|done].
    unfold view. rewrite lookup_fmap, Hk. simpl.
    symmetry. apply insert_id. by rewrite lookup_fmap, Hk.
  - rewrite bool_decide_false by (intros [? ?]; congruence). simpl.
    unfold dict_set_new. eexists. split; [done|]. split; [|split; [done|]].
    + split; simpl.
      * intros d' k' l. rewrite get_set_table, length_app. simpl.
        case_decide as Hd; [subst d'|].
        -- rewrite lookup_insert. case_decide; [intros [= <-]; lia|].
           intros ?%Hlt. lia.
        -- intros ?%Hlt. lia.
      * intros d1 d2 k1 k2 l. rewrite !get_set_table.
        repeat case_decide; subst; rewrite ?lookup_insert;
          repeat case_decide; subst; intros H1 H2; simplify_eq;
          try done; try (apply Hlt in H1; lia); try (apply Hlt in H2; lia);
          eauto.
    + intros d'. unfold view. simpl. rewrite get_set_table.
      assert (Hold : forall m : gmap Key nat,
        (forall k' l, m !! k' = Some l -> l < length (heap w)) ->
        deref {| heap := heap w ++ [∅];
                 self := set_table d (<[k:=length (heap w)]> (get_table d (self w)))
                           (self w) |} <$> m
        = deref w <$> m).
      { intros m Hm. apply map_fmap_ext. intros k' l Hl. unfold deref. simpl.
        by rewrite lookup_app_l by eauto. }
      case_decide as Hd; [subst d'|].
      * rewrite fmap_insert, Hold by eauto. rewrite lookup_fmap, Hk. simpl.
        f_equal. unfold deref. simpl.
        rewrite lookup_app_r by lia. by rewrite Nat.sub_diag.
      * apply Hold. eauto.
Qed.

Lemma dict_add_spec d k x w s :
  wf w -> view w d !! k = Some s ->
  exists w', dict_add d k x w = (Ok tt, w') /\ wf w' /\
    ranked_items (self w') = ranked_items (self w) /\
    forall d', view w' d' =
      if decide (d' = d) then <[k := s ∪ {[x]}]> (view w d) else view w d'.
Proof.
  intros [Hlt Hinj]. unfold view at 1. rewrite lookup_fmap.
  destruct (get_table d (self w) !! k) as [l|] eqn:Hk; [|done].
  simpl. intros [= <-]. unfold dict_add. rewrite Hk. eexists.
  split; [done|]. split; [|split; [done|]].
  - split; simpl; [|done]. intros d' k' l'. rewrite length_insert. eauto.
  - intros d'. unfold view. simpl. apply map_eq. intros k'.
    pose proof (Hlt _ _ _ Hk) as Hl.
    case_decide as Hd; [subst d'|].
    + rewrite lookup_insert. case_decide as Hkk; [subst k'|].
      * rewrite lookup_fmap, Hk. simpl. unfold deref at 1. simpl.
        by rewrite list_lookup_insert_eq.
      * rewrite !lookup_fmap.
        destruct (get_table d (self w) !! k') as [l'|] eqn:Hk'; [|done]. simpl.
        f_equal. unfold deref. simpl. rewrite list_lookup_insert_ne; [done|].
        intros ->. destruct (Hinj _ _ _ _ _ Hk Hk'); congruence.
    + rewrite !lookup_fmap.
      destruct (get_table d' (self w) !! k') as [l'|] eqn:Hk'; [|done]. simpl.
      f_equal. unfold deref. simpl. rewrite list_lookup_insert_ne; [done|].
      intros ->. destruct (Hinj _ _ _ _ _ Hk Hk'); congruence.
Qed.

Lemma ensure_views d k w V :
  has_views w V ->
  exists w', ensure d k w = (Ok tt, w') /\ has_views w' (view_ensure d k V) /\
    ranked_items (self w') = ranked_items (self w).
Proof.
  intros [Hwf HV]. destruct (ensure_spec d k w Hwf) as (w'&?&?&?&Hv).
  exists w'. split; [done|]. split; [|done]. split; [done|].
  intros d'. rewrite Hv. unfold view_ensure. by rewrite !HV.
Qed.

Lemma dict_add_views d k x w V :
  has_views w V -> is_Some (V d !! k) ->
  exists w', dict_add d k x w = (Ok tt, w') /\ has_views w' (view_add d k x V) /\
    ranked_items (self w') = ranked_items (self w).
Proof.
  intros [Hwf HV] [s Hs].
  destruct (dict_add_spec d k x w s Hwf) as (w'&?&?&?&Hv); [by rewrite HV|].
  exists w'. split; [done|]. split; [|done]. split; [done|].
  intros d'. rewrite Hv. unfold view_add. by rewrite !HV, Hs.
Qed.

(** ** Postings *)

Lemma bucket_snoc E d k x d' k' :
  bucket (E ++ [(d, k, x)]) d' k' =
  if decide ((d', k') = (d, k)) then Some (default ∅ (bucket E d k) ∪ {[x]})
  else bucket E d' k'.
Proof.
  unfold bucket. rewrite filter_app, fmap_app, list_to_set_app_L.
  rewrite filter_cons, filter_nil. cbn [fst snd].
  destruct (decide ((d', k') = (d, k))) as [Heq|Hne].
  - rewrite (decide_True (P := (d, k) = (d', k'))) by done. simplify_eq.
    cbn [fmap list_fmap list_to_set snd]. rewrite union_empty_r_L.
    set (s := list_to_set _).
    rewrite decide_False by set_solver.
    f_equal. by destruct (decide (s = ∅)) as [->|].
  - rewrite (decide_False (P := (d, k) = (d', k'))) by done.
    cbn [fmap list_fmap list_to_set]. by rewrite union_empty_r_L.
Qed.

Lemma one_posting V E d k x :
  (forall d' k', V d' !! k' = bucket E d' k') ->
  forall d' k',
    view_add d k x (view_ensure d k V) d' !! k' = bucket (E ++ [(d, k, x)]) d' k'.
Proof.
  intros HV d' k'. rewrite bucket_snoc. unfold view_add, view_ensure.
  rewrite !(decide_True (P := d = d)) by done.
  destruct (decide (d' = d)) as [->|Hd].
  - rewrite lookup_insert_eq. simpl. rewrite insert_insert_eq.
    rewrite lookup_insert, HV.
    destruct (decide (k = k')) as [->|]; [by rewrite decide_True|].
    rewrite decide_False by congruence. apply HV.
  - rewrite decide_False by congruence. apply HV.
Qed.

Lemma two_postings V E d1 k1 d2 k2 x :
  d1 <> d2 ->
  (forall d' k', V d' !! k' = bucket E d' k') ->
  forall d' k',
    view_add d2 k2 x (view_add d1 k1 x (view_ensure d2 k2 (view_ensure d1 k1 V))) d' !! k'
    = bucket ((E ++ [(d1, k1, x)]) ++ [(d2, k2, x)]) d' k'.
Proof.
  intros Hne HV d' k'. rewrite !bucket_snoc.
  unfold view_add, view_ensure.
  rewrite !(decide_True (P := d1 = d1)) by done.
  rewrite !(decide_True (P := d2 = d2)) by done.
  rewrite ?(decide_False (P := d1 = d2)) by done.
  rewrite ?(decide_False (P := d2 = d1)) by done.
  rewrite ?lookup_insert_eq. simpl. rewrite ?insert_insert_eq.
  rewrite (decide_False (P := (d2, k2) = (d1, k1))) by congruence.
  destruct (decide (d' = d2)) as [->|Hd2].
  - rewrite lookup_insert, HV.
    destruct (decide (k2 = k')) as [->|]; [by rewrite decide_True|].
    rewrite decide_False by congruence.
    rewrite decide_False by congruence. apply HV.
  - rewrite (decide_False (P := (d', k') = (d2, k2))) by congruence.
    destruct (decide (d' = d1)) as [->|Hd1].
    + rewrite lookup_insert, HV.
      destruct (decide (k1 = k')) as [->|]; [by rewrite decide_True|].
      rewrite decide_False by congruence. apply HV.
    + rewrite decide_False by congruence. apply HV.
Qed.

(** ** The loops of the build *)

Lemma posted_views w E : posted w E -> has_views w (view w).
Proof. intros [? ?]. by split. Qed.

Lemma one_step d k x w E :
  posted w E ->
  exists w', (ensure d k ;;; dict_add d k x) w = (Ok tt, w') /\
    posted w' (E ++ [(d, k, x)]) /\ same_ranked w w'.
Proof.
  intros HE. pose proof (posted_views _ _ HE) as HV. destruct HE as [_ HE].
  destruct (ensure_views d k _ _ HV) as (w1&He1&HV1&Hr1).
  destruct (dict_add_views d k x _ _ HV1) as (w2&He2&[Hwf2 HV2]&Hr2).
  { unfold view_ensure. rewrite decide_True by done. by rewrite lookup_insert_eq. }
  exists w2. rewrite (bind_ok _ _ _ _ _ He1). split; [done|].
  split; [|unfold same_ranked; congruence].
  split; [done|]. intros d' k'. rewrite HV2. by apply one_posting.
Qed.

Lemma two_steps d1 k1 d2 k2 x w E :
  d1 <> d2 -> posted w E ->
  exists w',
    (ensure d1 k1 ;;; ensure d2 k2 ;;; dict_add d1 k1 x ;;; dict_add d2 k2 x) w
      = (Ok tt, w') /\
    posted w' ((E ++ [(d1, k1, x)]) ++ [(d2, k2, x)]) /\ same_ranked w w'.
Proof.
  intros Hne HE. pose proof (posted_views _ _ HE) as HV. destruct HE as [_ HE].
  destruct (ensure_views d1 k1 _ _ HV) as (w1&He1&HV1&Hr1).
  destruct (ensure_views d2 k2 _ _ HV1) as (w2&He2&HV2&Hr2).
  destruct (dict_add_views d1 k1 x _ _ HV2) as (w3&He3&HV3&Hr3).
  { unfold view_ensure. rewrite decide_False by done. rewrite decide_True by done.
    by rewrite lookup_insert_eq. }
  destruct (dict_add_views d2 k2 x _ _ HV3) as (w4&He4&[Hwf4 HV4]&Hr4).
  { unfold view_add, view_ensure. rewrite (decide_False (P := d2 = d1)) by done.
    rewrite decide_True by done. by rewrite lookup_insert_eq. }
  exists w4. rewrite (bind_ok _ _ _ _ _ He1), (bind_ok _ _ _ _ _ He2),
    (bind_ok _ _ _ _ _ He3). split; [done|].
  split; [|unfold same_ranked; congruence].
  split; [done|]. intros d' k'. rewrite HV4. by apply two_postings.
Qed.

Lemma for_posted {A} (body : A -> M unit) (f : A -> list posting) l :
  (forall x w E, posted w E ->
     exists w', body x w = (Ok tt, w') /\ posted w' (E ++ f x) /\ same_ranked w w') ->
  forall w E, posted w E ->
    exists w', for_ l body w = (Ok tt, w') /\ posted w' (E ++ flat_map f l) /\
      same_ranked w w'.
Proof.
  intros Hbody. induction l as [|x l IH]; intros w E HE.
  - exists w. simpl. by rewrite app_nil_r.
  - destruct (Hbody x w E HE) as (w1&He1&HE1&Hr1).
    destruct (IH w1 _ HE1) as (w2&He2&HE2&Hr2).
    exists w2. simpl. rewrite (bind_ok _ _ _ _ _ He1). split; [done|].
    rewrite <- app_assoc in HE2. split; [done|].
    unfold same_ranked in *. congruence.
Qed.

Lemma index_searchable_posted r w E :
  posted w E ->
  exists w', index_searchable r w = (Ok tt, w') /\
    posted w' (E ++ postings_of r) /\ same_ranked w w'.
Proof.
  intros HE. unfold index_searchable, postings_of.
  destruct (ensure_views ByClass (K1 (object_class r)) w (view w)
              (posted_views _ _ HE)) as (w0&He0&HV0&Hr0).
  destruct (one_step ByClass (K1 (object_class r)) (uid r) w E HE)
    as (w1&He1&HE1&Hr1).
  unfold bind in He1 at 1. rewrite He0 in He1.
  rewrite (bind_ok _ _ _ _ _ He0), (bind_ok _ _ _ _ _ He1).
  destruct (for_posted
    (fun atk_attr =>
       ensure ByAttr (K1 atk_attr) ;;;
       ensure ByClassAttr (K2 (object_class r) atk_attr) ;;;
       dict_add ByAttr (K1 atk_attr) (uid r) ;;;
       dict_add ByClassAttr (K2 (object_class r) atk_attr) (uid r))
    (fun a => [(ByAttr, K1 a, uid r); (ByClassAttr, K2 (object_class r) a, uid r)])
    (attr r)) with (w := w1) (E := E ++ [(ByClass, K1 (object_class r), uid r)])
    as (w2&He2&HE2&Hr2); [|done|].
  { intros a w' E' HE'.
    destruct (two_steps ByAttr (K1 a) ByClassAttr (K2 (object_class r) a)
                (uid r) w' E') as (w''&?&?&?); [done..|].
    exists w''. by rewrite <- app_assoc in *. }
  rewrite (bind_ok _ _ _ _ _ He2).
  destruct (for_posted
    (fun atk_value =>
       ensure ByValue (K1 atk_value) ;;;
       ensure ByClassValue (K2 (object_class r) atk_value) ;;;
       dict_add ByValue (K1 atk_value) (uid r) ;;;
       dict_add ByClassValue (K2 (object_class r) atk_value) (uid r))
    (fun v => [(ByValue, K1 v, uid r); (ByClassValue, K2 (object_class r) v, uid r)])
    (value r)) with (w := w2) (E := (E ++ [(ByClass, K1 (object_class r), uid r)]) ++
        flat_map (fun a => [(ByAttr, K1 a, uid r);
                            (ByClassAttr, K2 (object_class r) a, uid r)]) (attr r))
    as (w3&He3&HE3&Hr3); [|done|].
  { intros v w' E' HE'.
    destruct (two_steps ByValue (K1 v) ByClassValue (K2 (object_class r) v)
                (uid r) w' E') as (w''&?&?&?); [done..|].
    exists w''. by rewrite <- app_assoc in *. }
  rewrite (bind_ok _ _ _ _ _ He3).
  edestruct (for_posted
    (fun atk_attr_value : string * string =>
       let k := K2 atk_attr_value.1 atk_attr_value.2 in
       ensure ByAttrValue k ;;;
       dict_add ByAttrValue k (uid r) ;;;
       let '(atk_attr, atk_value) := atk_attr_value in
       ensure ByClassAttrValue (K3 (object_class r) atk_attr atk_value) ;;;
       dict_add ByClassAttrValue (K3 (object_class r) atk_attr atk_value) (uid r))
    (fun av => [(ByAttrValue, K2 av.1 av.2, uid r);
                (ByClassAttrValue, K3 (object_class r) av.1 av.2, uid r)])
    (attr_value r)) with (w := w3) as (w4&He4&HE4&Hr4); [|exact HE3|].
  { intros [a v] w' E' HE'. cbn [fst snd].
    destruct (one_step ByAttrValue (K2 a v) (uid r) w' E' HE') as (wa&Hea&HEa&Hra).
    destruct (one_step ByClassAttrValue (K3 (object_class r) a v) (uid r) wa _ HEa)
      as (wb&Heb&HEb&Hrb).
    exists wb. split.
    - unfold bind in Hea |- * at 1.
      destruct (ensure ByAttrValue (K2 a v) w') as [[[]|e] wx]; [|done].
      unfold bind at 1. destruct (dict_add ByAttrValue (K2 a v) (uid r) wx)
        as [[[]|e] wy]; [|done]. by simplify_eq.
    - rewrite <- app_assoc in HEb. split; [done|].
      unfold same_ranked in *. congruence. }
  exists w4. split; [done|].
  rewrite <- !app_assoc in HE4. split; [done|].
  unfold same_ranked in *. congruence.
Qed.

Lemma clear_tables {A} (k : M A) w :
  (dict_clear ByAttr ;;; dict_clear ByValue ;;; dict_clear ByAttrValue ;;;
   dict_clear ByClass ;;; dict_clear ByClassValue ;;; dict_clear ByClassAttr ;;;
   dict_clear ByClassAttrValue ;;; k) w = k (cleared w).
Proof. reflexivity. Qed.

Lemma posted_cleared w : posted (cleared w) [].
Proof.
  split; [split|].
  - intros d k l. by destruct d.
  - intros d d' k k' l. by destruct d.
  - intros d k. by destruct d.
Qed.

Lemma _index_searchables_posted R w :
  exists w', _index_searchables R w = (Ok tt, w') /\
    posted w' (postings R) /\ same_ranked w w'.
Proof.
  destruct (for_posted index_searchable postings_of R)
    with (w := cleared w) (E := @nil posting)
    as (w1&He1&HE1&Hr1); [|apply posted_cleared|].
  { intros r w' E' HE'. by apply index_searchable_posted. }
  exists w1. unfold _index_searchables. rewrite clear_tables. done.
Qed.

(** ** The probes of [search] *)

Lemma probe_spec ty d term results w :
  probe ty d term results w =
  (Ok (if String.eqb (type term) ty
       then results ++ [(term, get_table d (self w) !! key term)]
       else results), w).
Proof. unfold probe. by destruct (String.eqb (type term) ty). Qed.

Lemma probed_eq term results w :
  let get d := get_table d (self w) !! key term in
  let r1 := if String.eqb (type term) "cav"
            then results ++ [(term, get ByClassAttrValue)] else results in
  let r2 := if String.eqb (type term) "ca"
            then r1 ++ [(term, get ByClassAttr)] else r1 in
  let r3 := if String.eqb (type term) "cv"
            then r2 ++ [(term, get ByClassValue)] else r2 in
  let r4 := if String.eqb (type term) "av"
            then r3 ++ [(term, get ByAttrValue)] else r3 in
  let r5 := if String.eqb (type term) "c"
            then r4 ++ [(term, get ByClass)] else r4 in
  let r6 := if String.eqb (type term) "a"
            then r5 ++ [(term, get ByAttr)] else r5 in
  (if String.eqb (type term) "v" then r6 ++ [(term, get ByValue)] else r6)
  = results ++ hits w [term].
Proof.
  cbv zeta. unfold hits, table_of_type. cbn [flat_map].
  destruct (String.eqb (type term) "cav") eqn:E1;
    [apply String.eqb_eq in E1; rewrite E1; reflexivity|].
  destruct (String.eqb (type term) "ca") eqn:E2;
    [apply String.eqb_eq in E2; rewrite E2; reflexivity|].
  destruct (String.eqb (type term) "cv") eqn:E3;
    [apply String.eqb_eq in E3; rewrite E3; reflexivity|].
  destruct (String.eqb (type term) "av") eqn:E4;
    [apply String.eqb_eq in E4; rewrite E4; reflexivity|].
  destruct (String.eqb (type term) "c") eqn:E5;
    [apply String.eqb_eq in E5; rewrite E5; reflexivity|].
  destruct (String.eqb (type term) "a") eqn:E6;
    [apply String.eqb_eq in E6; rewrite E6; reflexivity|].
  destruct (String.eqb (type term) "v") eqn:E7; [reflexivity|].
  by rewrite !app_nil_r.
Qed.

Lemma probe_step {A} (k : list (Term * option nat) -> M A) term results w :
  (let* results := probe "cav" ByClassAttrValue term results in
   let* results := probe "ca" ByClassAttr term results in
   let* results := probe "cv" ByClassValue term results in
   let* results := probe "av" ByAttrValue term results in
   let* results := probe "c" ByClass term results in
   let* results := probe "a" ByAttr term results in
   let* results := probe "v" ByValue term results in
   k results) w
  = k (results ++ hits w [term]) w.
Proof.
  do 7 (erewrite bind_ok by apply probe_spec).
  exact (f_equal (fun r => k r w) (probed_eq term results w)).
Qed.

Lemma hits_cons w term terms : hits w (term :: terms) = hits w [term] ++ hits w terms.
Proof. unfold hits. cbn [flat_map]. by rewrite app_nil_r. Qed.

Lemma probe_terms_spec terms : forall results w,
  probe_terms terms results w = (Ok (results ++ hits w terms), w).
Proof.
  induction terms as [|term terms IH]; intros results w.
  - simpl. by rewrite app_nil_r.
  - cbn [probe_terms]. rewrite probe_step, IH, (hits_cons w term terms).
    by rewrite <- app_assoc.
Qed.

(** ** The loops of [_rank_results] *)

Lemma with_ranked_id w : with_ranked (ranked_items (self w)) w = w.
Proof. by destruct w as [h []]. Qed.

Lemma union_hits_spec results : forall master w,
  union_hits results master w = (Ok (master ∪ ⋃ hit_sets w results), w).
Proof.
  induction results as [|[t [l|]] results IH]; intros master w.
  - simpl. by rewrite union_empty_r_L.
  - cbn [union_hits snd]. unfold bind, read_set. rewrite IH.
    unfold hit_sets. simpl. by rewrite (assoc_L (∪)).
  - cbn [union_hits snd]. by rewrite IH.
Qed.

Lemma hit_sets_hits w terms : hit_sets w (hits w terms) = omap (match_set w) terms.
Proof.
  induction terms as [|t terms IH]; [done|].
  rewrite (hits_cons w t terms). unfold hit_sets in *. rewrite omap_app, IH.
  unfold hits, match_set, view. cbn [flat_map omap list_omap].
  destruct (table_of_type (type t)) as [d|]; [|done].
  rewrite lookup_fmap. simpl.
  by destruct (get_table d (self w) !! key t).
Qed.

Lemma score_spec x result w r :
  ranked_items (self w) !! x = Some r ->
  score x result w =
  (Ok tt, with_ranked (<[x := bump w x r result]> (ranked_items (self w))) w).
Proof.
  intros Hx. unfold score, bump. destruct result as [t [l|]]; simpl.
  - unfold bind, read_set. destruct (bool_decide (x ∈ deref w l)).
    + unfold ranked_getitem at 1. rewrite Hx.
      unfold ranked_setitem at 1. unfold ranked_getitem. simpl.
      rewrite lookup_insert_eq. unfold ranked_setitem, with_ranked. simpl.
      by rewrite insert_insert_eq.
    + rewrite insert_id by done. by rewrite with_ranked_id.
  - rewrite insert_id by done. by rewrite with_ranked_id.
Qed.

Lemma score_loop x results : forall w r,
  ranked_items (self w) !! x = Some r ->
  for_ results (score x) w =
  (Ok tt, with_ranked (<[x := scored w x results r]> (ranked_items (self w))) w).
Proof.
  induction results as [|result results IH]; intros w r Hx.
  - simpl. rewrite insert_id by done. by rewrite with_ranked_id.
  - cbn [for_]. erewrite bind_ok by by apply score_spec.
    erewrite IH by (simpl; apply lookup_insert_eq).
    unfold with_ranked. simpl. by rewrite insert_insert_eq.
Qed.

Lemma init_loop l : forall w,
  for_ l (fun item => ranked_setitem item rank0) w =
  (Ok tt, with_ranked (foldl (fun m x => <[x := rank0]> m)
                         (ranked_items (self w)) l) w).
Proof.
  induction l as [|x l IH]; intros w.
  - simpl. by rewrite with_ranked_id.
  - cbn [for_]. unfold bind. unfold ranked_setitem at 1. by rewrite IH.
Qed.

Lemma outer_loop results l : forall w,
  NoDup l ->
  (forall x, x ∈ l -> ranked_items (self w) !! x = Some rank0) ->
  for_ l (fun atk_obj => for_ results (score atk_obj)) w =
  (Ok tt, with_ranked (foldl (fun m x => <[x := scored w x results rank0]> m)
                         (ranked_items (self w)) l) w).
Proof.
  induction l as [|x l IH]; intros w Hnd Hl.
  - simpl. by rewrite with_ranked_id.
  - apply NoDup_cons in Hnd as [Hx Hnd]. cbn [for_].
    erewrite bind_ok by (apply score_loop, Hl; left).
    rewrite IH; [done|done|].
    intros y Hy. simpl. rewrite lookup_insert_ne by (intros ->; done).
    apply Hl. by right.
Qed.

Lemma foldl_insert_lookup {B} (f : string -> B) l : forall (m : gmap string B) y,
  foldl (fun m x => <[x := f x]> m) m l !! y =
  if decide (y ∈ l) then Some (f y) else m !! y.
Proof.
  induction l as [|x l IH]; intros m y; cbn [foldl].
  - rewrite decide_False; [done|]. by intros ?%elem_of_nil.
  - rewrite IH. destruct (decide (y ∈ l)) as [Hy|Hy].
    + rewrite decide_True; [done|]. by right.
    + destruct (decide (y = x)) as [->|Hne].
      * rewrite decide_True by left. by rewrite lookup_insert_eq.
      * rewrite decide_False by (intros [?|?]%elem_of_cons; done).
        by rewrite lookup_insert_ne.
Qed.

(** ** Sorting and the response *)

Lemma keyed_spec items : forall w,
  (forall x, x ∈ items -> is_Some (ranked_items (self w) !! x)) ->
  keyed items w = (Ok (key_of (ranked_items (self w)) <$> items), w).
Proof.
  induction items as [|x items IH]; intros w Hin; [done|].
  destruct (Hin x) as [r Hr]; [left|].
  assert (Hget : ranked_getitem x w = (Ok r, w)).
  { unfold ranked_getitem. by rewrite Hr. }
  cbn [keyed]. rewrite !(bind_ok _ _ _ _ _ Hget).
  erewrite bind_ok by (apply IH; intros y Hy; apply Hin; by right).
  unfold ret, key_of. simpl. by rewrite Hr.
Qed.

Lemma insert_keyed_perm x l : insert_keyed x l ≡ₚ x :: l.
Proof.
  induction l as [|y l IH]; [done|]. simpl.
  destruct (tuple_ltb y.1 x.1); [|done].
  rewrite IH. apply perm_swap.
Qed.

Lemma sort_keyed_perm l : sort_keyed l ≡ₚ l.
Proof.
  induction l as [|x l IH]; [done|]. simpl.
  by rewrite insert_keyed_perm, IH.
Qed.

Lemma key_of_snd rk (l : list string) : (key_of rk <$> l).*2 = l.
Proof. induction l as [|x l IH]; [done|]. simpl. f_equal. exact IH. Qed.

Lemma order_perm rk : order rk ≡ₚ (map_to_list rk).*1.
Proof. unfold order. by rewrite sort_keyed_perm, key_of_snd. Qed.

Lemma elem_of_order rk x : x ∈ order rk <-> is_Some (rk !! x).
Proof.
  rewrite order_perm. rewrite list_elem_of_fmap. split.
  - intros ([y r]&->&H%elem_of_map_to_list). eauto.
  - intros [r Hr]. exists (x, r). split; [done|]. by apply elem_of_map_to_list.
Qed.

Lemma NoDup_order rk : NoDup (order rk).
Proof. rewrite order_perm. apply NoDup_fst_map_to_list. Qed.

Lemma sorted_spec w : sorted w = (Ok (order (ranked_items (self w))), w).
Proof.
  unfold sorted, bind, ranked_keys. rewrite keyed_spec; [done|].
  intros x ([y r]&->&H%elem_of_map_to_list)%list_elem_of_fmap. eauto.
Qed.

Lemma respond_spec l : forall count resp w,
  count < 100 ->
  (forall x, x ∈ l -> is_Some (ranked_items (self w) !! x)) ->
  respond l count resp w =
  (Ok (resp ++ (record_of (ranked_items (self w)) <$> take (100 - count) l)), w).
Proof.
  induction l as [|x l IH]; intros count resp w Hc Hin.
  - simpl. rewrite take_nil. simpl. by rewrite app_nil_r.
  - destruct (Hin x) as [r Hr]; [left|].
    assert (Hget : ranked_getitem x w = (Ok r, w)).
    { unfold ranked_getitem. by rewrite Hr. }
    cbn [respond]. rewrite !(bind_ok _ _ _ _ _ Hget).
    destruct (100 - count) as [|n] eqn:Hn; [lia|].
    cbn [take fmap list_fmap].
    destruct (Nat.leb_spec 100 (count + 1)) as [Hle|Hlt].
    + assert (n = 0) as -> by lia. rewrite take_0. unfold ret, record_of.
      simpl. by rewrite Hr.
    + rewrite IH; [|lia|intros y Hy; apply Hin; by right].
      replace (100 - (count + 1)) with n by lia.
      rewrite <- app_assoc. unfold record_of at 2. by rewrite Hr.
Qed.

Lemma _rank_results_spec results w :
  _rank_results results w =
  (Ok (response (ranks w results), size (ranks w results)),
   with_ranked (ranks w results) w).
Proof.
  unfold _rank_results.
  erewrite bind_ok by apply union_hits_spec. rewrite union_empty_l_L.
  unfold bind at 1. unfold ranked_clear at 1.
  erewrite bind_ok by apply init_loop.
  erewrite bind_ok.
  2:{ apply outer_loop; [apply NoDup_elements|].
      intros x Hx. simpl. rewrite foldl_insert_lookup. by rewrite decide_True. }
  fold (with_ranked ∅ w). cbn [with_ranked heap self set_ranked_items ranked_items].
  change (scored ?w' ?x results rank0) with (scored w x results rank0).
  fold (ranks w results).
  erewrite bind_ok by apply sorted_spec.
  erewrite bind_ok.
  2:{ apply respond_spec; [lia|]. intros x Hx. by apply elem_of_order. }
  reflexivity.
Qed.

(** ** The ranking in closed form *)

Lemma ranking_lookup w terms x :
  ranking w terms !! x =
  if decide (x ∈ candidates w terms) then Some (rank_of w terms x) else None.
Proof.
  unfold ranking. case_decide as Hx.
  - apply lookup_set_to_map; [by intros ?? _ _ [= ->]|]. eauto.
  - apply eq_None_not_Some. intros [r Hr].
    apply lookup_set_to_map in Hr as (y&Hy&[= -> _]); [done|].
    by intros ?? _ _ [= ->].
Qed.

Lemma ranks_lookup w results x :
  ranks w results !! x =
  if decide (x ∈ ⋃ hit_sets w results) then Some (scored w x results rank0)
  else None.
Proof.
  unfold ranks. rewrite !foldl_insert_lookup, lookup_empty.
  destruct (decide (x ∈ elements (⋃ hit_sets w results))) as [H|H];
    rewrite elem_of_elements in H.
  - by rewrite decide_True.
  - by rewrite decide_False.
Qed.

Lemma Rank_eq r1 r2 :
  pscore r1 = pscore r2 -> sscore r1 = sscore r2 -> terms r1 = terms r2 -> r1 = r2.
Proof. destruct r1, r2. simpl. by intros -> -> ->. Qed.

Lemma primary_score_cons w t terms x :
  primary_score w (t :: terms) x =
  ((if contributes w x t then points t else 0) + primary_score w terms x)%Z.
Proof.
  unfold primary_score. rewrite filter_cons.
  destruct (contributes w x t); [by rewrite decide_True|].
  by rewrite decide_False.
Qed.

Lemma matched_term_keys_cons w t terms x :
  matched_term_keys w (t :: terms) x =
  (if contributes w x t then {[str (key t)]} else ∅) ∪ matched_term_keys w terms x.
Proof.
  unfold matched_term_keys. rewrite filter_cons.
  destruct (contributes w x t).
  - by rewrite decide_True.
  - rewrite decide_False by done. by rewrite union_empty_l_L.
Qed.

Lemma scored_hits w x ts : forall r,
  scored w x (hits w ts) r =
  {| pscore := pscore r + primary_score w ts x; sscore := sscore r;
     terms := terms r ∪ matched_term_keys w ts x |}.
Proof.
  unfold scored. induction ts as [|t ts IH]; intros r.
  - simpl. apply Rank_eq; simpl; [unfold primary_score; simpl; lia|done|].
    unfold matched_term_keys. simpl. by rewrite union_empty_r_L.
  - rewrite (hits_cons w t ts), foldl_app, IH.
    rewrite primary_score_cons, matched_term_keys_cons.
    unfold contributes, match_set, hits, view. cbn [flat_map].
    destruct (table_of_type (type t)) as [d|].
    + rewrite lookup_fmap. cbn [foldl app]. unfold bump. cbn [fst snd].
      destruct (get_table d (self w) !! key t) as [l|]; cbn [fmap option_fmap option_map].
      * destruct (bool_decide (x ∈ deref w l)).
        -- apply Rank_eq; simpl; [lia|done|]. by rewrite (assoc_L (∪)).
        -- apply Rank_eq; simpl; [lia|done|]. by rewrite union_empty_l_L.
      * apply Rank_eq; simpl; [lia|done|]. by rewrite union_empty_l_L.
    + cbn [foldl]. apply Rank_eq; simpl; [lia|done|]. by rewrite union_empty_l_L.
Qed.

Lemma ranks_hits w terms : ranks w (hits w terms) = ranking w terms.
Proof.
  apply map_eq. intros x. rewrite ranks_lookup, ranking_lookup.
  rewrite hit_sets_hits. fold (candidates w terms).
  case_decide; [|done]. f_equal. rewrite scored_hits.
  apply Rank_eq; simpl; [lia|done|]. by rewrite union_empty_l_L.
Qed.

Lemma search_ok term_string terms w :
  _get_terms term_string = Ok terms ->
  search term_string w =
  (Ok (response (ranking w terms), size (ranking w terms)),
   with_ranked (ranking w terms) w).
Proof.
  intros Ht. unfold search, lift. unfold bind at 1. rewrite Ht.
  erewrite bind_ok by apply probe_terms_spec.
  by rewrite _rank_results_spec, app_nil_l, ranks_hits.
Qed.

Lemma search_raise term_string e w :
  _get_terms term_string = Raise e -> search term_string w = (Raise e, w).
Proof. intros Ht. unfold search, lift. unfold bind at 1. by rewrite Ht. Qed.

Lemma size_ranking w terms : size (ranking w terms) = size (candidates w terms).
Proof.
  rewrite <- size_dom. f_equal. apply set_eq. intros x.
  rewrite elem_of_dom, ranking_lookup. case_decide; [|by split; [intros []|]].
  split; [done|eauto].
Qed.

(** ** The order of the sort keys *)

Lemma ltb_false_leb a b : String.ltb b a = false <-> String.leb a b = true.
Proof.
  unfold String.ltb, String.leb. rewrite (String.compare_antisym b a).
  destruct (String.compare a b); simpl; split; congruence.
Qed.

Lemma string_ltb_asym a b : String.ltb a b = true -> String.ltb b a = false.
Proof.
  unfold String.ltb. rewrite (String.compare_antisym a b).
  destruct (String.compare b a); simpl; congruence.
Qed.

Lemma string_ltb_le_trans a b c :
  String.ltb b a = false -> String.ltb c b = false -> String.ltb c a = false.
Proof.
  rewrite !ltb_false_leb. intros Hab Hbc.
  apply Is_true_true. apply Is_true_true in Hab, Hbc.
  exact (transitivity (R := String.le) Hab Hbc).
Qed.

Lemma string_ltb_total a b :
  a <> b -> String.ltb b a = false -> String.ltb a b = true.
Proof.
  intros Hne. unfold String.ltb. rewrite (String.compare_antisym a b).
  destruct (String.compare b a) eqn:E; simpl; try congruence.
  apply String.compare_eq_iff in E. congruence.
Qed.

(** Case analysis on every comparison of scores in the goal. *)
Ltac case_ltb :=
  repeat match goal with
  | |- context [Z.ltb ?a ?b] => destruct (Z.ltb_spec a b)
  end; try lia; try done.

Lemma tuple_ltb_asym x y : tuple_ltb x y = true -> tuple_ltb y x = false.
Proof.
  destruct x as [[p1 s1] u1], y as [[p2 s2] u2]. unfold tuple_ltb.
  case_ltb.
  apply string_ltb_asym.
Qed.

Lemma tuple_le_trans x y z :
  tuple_ltb y x = false -> tuple_ltb z y = false -> tuple_ltb z x = false.
Proof.
  destruct x as [[p1 s1] u1], y as [[p2 s2] u2], z as [[p3 s3] u3].
  unfold tuple_ltb.
  case_ltb.
  apply string_ltb_le_trans.
Qed.

Lemma insert_keyed_sorted x l :
  StronglySorted kle l -> StronglySorted kle (insert_keyed x l).
Proof.
  induction l as [|y l IH]; intros Hl; simpl.
  - repeat constructor.
  - apply StronglySorted_cons in Hl as [Hy Hl].
    destruct (tuple_ltb y.1 x.1) eqn:Hyx.
    + apply StronglySorted_cons. split; [|by apply IH].
      rewrite insert_keyed_perm. constructor; [|done].
      by apply tuple_ltb_asym.
    + apply StronglySorted_cons. split; [|by apply StronglySorted_cons].
      constructor; [done|]. eapply Forall_impl; [exact Hy|].
      intros z Hz. unfold kle in *. by eapply tuple_le_trans.
Qed.

Lemma sort_keyed_sorted l : StronglySorted kle (sort_keyed l).
Proof.
  induction l as [|x l IH]; simpl; [constructor|]. by apply insert_keyed_sorted.
Qed.

Lemma StronglySorted_lookup {A} (R : A -> A -> Prop) l i j a b :
  StronglySorted R l -> i < j -> l !! i = Some a -> l !! j = Some b -> R a b.
Proof.
  intros Hl. revert i j. induction Hl as [|x l Hl IH Hx]; intros i j Hij Hi Hj.
  - done.
  - destruct j as [|j]; [lia|]. destruct i as [|i]; simpl in *.
    + simplify_eq. rewrite Forall_forall in Hx. apply Hx.
      by eapply list_elem_of_lookup_2.
    + apply (IH i j); [lia|done..].
Qed.

Lemma kle_before rk x y :
  x <> y -> kle (key_of rk x) (key_of rk y) ->
  before (record_of rk x) (record_of rk y).
Proof.
  unfold kle, key_of, record_of, before, tuple_ltb. simpl.
  intros Hne.
  case_ltb.
  intros Hlt. right. split; [lia|]. right. split; [lia|].
  by apply string_ltb_total.
Qed.

Lemma sort_keyed_key_of rk l :
  sort_keyed (key_of rk <$> l) = key_of rk <$> (sort_keyed (key_of rk <$> l)).*2.
Proof.
  assert (H : forall l' : list ((Z * Z * string) * string),
    Forall (fun a => a = key_of rk a.2) l' -> l' = key_of rk <$> l'.*2).
  { induction 1 as [|a l' Ha _ IH]; [done|]. rewrite !fmap_cons. by f_equal. }
  apply H. rewrite sort_keyed_perm. apply Forall_fmap, Forall_forall. done.
Qed.

Lemma order_sorted rk i j x y :
  i < j -> order rk !! i = Some x -> order rk !! j = Some y ->
  before (record_of rk x) (record_of rk y).
Proof.
  intros Hij Hi Hj. apply kle_before.
  - intros ->. pose proof (NoDup_lookup _ _ _ _ (NoDup_order rk) Hi Hj). lia.
  - pose proof (sort_keyed_sorted (key_of rk <$> (map_to_list rk).*1)) as Hs.
    rewrite sort_keyed_key_of in Hs. fold (order rk) in Hs.
    eapply (StronglySorted_lookup _ _ i j); [exact Hs|done|..];
      rewrite list_lookup_fmap; by rewrite ?Hi, ?Hj.
Qed.

Lemma response_sorted rk i j ri rj :
  i < j -> response rk !! i = Some ri -> response rk !! j = Some rj ->
  before ri rj.
Proof.
  unfold response. rewrite !list_lookup_fmap.
  intros Hij Hi Hj.
  destruct (take 100 (order rk) !! i) as [x|] eqn:Hx; [|done].
  destruct (take 100 (order rk) !! j) as [y|] eqn:Hy; [|done].
  simpl in *. simplify_eq.
  apply lookup_take_Some in Hx as [Hx _]. apply lookup_take_Some in Hy as [Hy _].
  by eapply order_sorted.
Qed.

(** ** Extensionality in the views *)

Lemma match_set_ext w w' t :
  (forall d, view w d = view w' d) -> match_set w t = match_set w' t.
Proof. intros H. unfold match_set. destruct (table_of_type (type t)); by rewrite ?H. Qed.

Lemma contributes_ext w w' x t :
  (forall d, view w d = view w' d) -> contributes w x t = contributes w' x t.
Proof. intros H. unfold contributes. by rewrite (match_set_ext w w' t H). Qed.

Lemma candidates_ext w w' ts :
  (forall d, view w d = view w' d) -> candidates w ts = candidates w' ts.
Proof.
  intros H. unfold candidates. f_equal.
  apply list_omap_ext, Forall_Forall2_diag, Forall_forall.
  intros t _. by apply match_set_ext.
Qed.

Lemma primary_score_ext w w' ts x :
  (forall d, view w d = view w' d) -> primary_score w ts x = primary_score w' ts x.
Proof.
  intros H. induction ts as [|t ts IH]; [done|].
  by rewrite !primary_score_cons, IH, (contributes_ext w w' x t H).
Qed.

Lemma matched_term_keys_ext w w' ts x :
  (forall d, view w d = view w' d) ->
  matched_term_keys w ts x = matched_term_keys w' ts x.
Proof.
  intros H. induction ts as [|t ts IH]; [done|].
  by rewrite !matched_term_keys_cons, IH, (contributes_ext w w' x t H).
Qed.

Lemma ranking_ext w w' ts :
  (forall d, view w d = view w' d) -> ranking w ts = ranking w' ts.
Proof.
  intros H. apply map_eq. intros x. rewrite !ranking_lookup.
  rewrite (candidates_ext w w' ts H). case_decide; [|done].
  unfold rank_of.
  by rewrite (primary_score_ext w w' ts x H), (matched_term_keys_ext w w' ts x H).
Qed.

Lemma search_ext q w w' :
  (forall d, view w d = view w' d) -> (search q w).1 = (search q w').1.
Proof.
  intros H. destruct (_get_terms q) as [ts|e] eqn:Hq.
  - rewrite !(search_ok q ts) by done. simpl. by rewrite (ranking_ext w w' ts H).
  - by rewrite !(search_raise q e).
Qed.

Lemma search_frame q w :
  heap (search q w).2 = heap w /\
  forall d, get_table d (self (search q w).2) = get_table d (self w).
Proof.
  destruct (_get_terms q) as [ts|e] eqn:Hq.
  - rewrite (search_ok q ts) by done. simpl. split; [done|].
    intros d. apply get_table_set_ranked.
  - by rewrite (search_raise q e).
Qed.

Lemma view_frame w w' :
  heap w' = heap w -> (forall d, get_table d (self w') = get_table d (self w)) ->
  forall d, view w' d = view w d.
Proof.
  intros Hh Ht d. unfold view. rewrite Ht. apply map_fmap_ext.
  intros k l _. unfold deref. by rewrite Hh.
Qed.

(** ** Membership in the buckets *)

Lemma elem_of_bucket E d k s x :
  bucket E d k = Some s -> (x ∈ s <-> (d, k, x) ∈ E).
Proof.
  unfold bucket. case_decide; [done|]. intros [= <-].
  rewrite elem_of_list_to_set, list_elem_of_fmap. split.
  - intros ([[d' k'] y]&->&Hy). apply list_elem_of_filter in Hy as [Hy ?].
    simpl in Hy. by simplify_eq.
  - intros Hx. exists (d, k, x). split; [done|]. by apply list_elem_of_filter.
Qed.

Lemma bucket_is_Some E d k x : (d, k, x) ∈ E -> is_Some (bucket E d k).
Proof.
  intros Hx. unfold bucket. case_decide as Hs; [|eauto].
  exfalso. apply (not_elem_of_empty (C := gset string) x). rewrite <- Hs.
  rewrite elem_of_list_to_set, list_elem_of_fmap.
  exists (d, k, x). split; [done|]. by apply list_elem_of_filter.
Qed.

Lemma bucket_perm E E' d k : E ≡ₚ E' -> bucket E d k = bucket E' d k.
Proof.
  intros HE. unfold bucket.
  assert (list_to_set (C := gset string)
            ((fun e : posting => e.2) <$> filter (fun e : posting => e.1 = (d, k)) E)
          = list_to_set ((fun e : posting => e.2) <$>
                         filter (fun e : posting => e.1 = (d, k)) E')) as ->; [|done].
  apply list_to_set_perm_L. by rewrite HE.
Qed.

Lemma postings_perm R R' : R ≡ₚ R' -> postings R ≡ₚ postings R'.
Proof. intros H. unfold postings. by rewrite H. Qed.

Lemma elem_of_postings R p :
  p ∈ postings R <-> exists r, r ∈ R /\ p ∈ postings_of r.
Proof.
  unfold postings. rewrite list_elem_of_In, in_flat_map.
  by setoid_rewrite list_elem_of_In.
Qed.

Lemma postings_of_uid r p : p ∈ postings_of r -> p.2 = uid r.
Proof.
  unfold postings_of. rewrite !elem_of_app.
  rewrite !list_elem_of_In, !in_flat_map. setoid_rewrite <- list_elem_of_In.
  intros [H|[(a&_&H)|[(v&_&H)|(av&_&H)]]];
    repeat (apply elem_of_cons in H as [->|H]; [done|]);
    by apply elem_of_nil in H.
Qed.

Lemma indexed_posted w E d k x : posted w E -> (indexed w d k x <-> (d, k, x) ∈ E).
Proof.
  intros [_ HE]. unfold indexed. specialize (HE d k).
  unfold view in HE. rewrite lookup_fmap in HE. split.
  - intros (l&Hl&Hx). rewrite Hl in HE. simpl in HE.
    by apply (elem_of_bucket E d k (deref w l) x).
  - intros Hx. destruct (bucket_is_Some E d k x Hx) as [s Hs].
    rewrite Hs in HE. destruct (get_table d (self w) !! k) as [l|]; [|done].
    simpl in HE. simplify_eq. exists l. split; [done|].
    by apply (elem_of_bucket E d k (deref w l) x).
Qed.

Lemma posted_view_eq w w' E :
  posted w E -> posted w' E -> forall d, view w d = view w' d.
Proof. intros [_ H] [_ H'] d. apply map_eq. intros k. by rewrite H, H'. Qed.

Lemma posted_perm w E E' : posted w E -> E ≡ₚ E' -> posted w E'.
Proof.
  intros [Hwf H] HE. split; [done|]. intros d k.
  by rewrite H, (bucket_perm E E' d k HE).
Qed.

(** ** Tokens with one marker and a wildcard *)

Lemma has_char_append c s t : has_char c (s +:+ t) = has_char c s || has_char c t.
Proof.
  induction s as [|a s IH]; [done|].
  rewrite append_cons. simpl. by rewrite IH, orb_assoc.
Qed.

Lemma parse_input_table strng :
  strng <> EmptyString ->
  parse_input strng =
    Ok (disambiguation_table
          (segment class_escape (implied_any strng))
          (segment attr_escape (implied_any strng))
          (segment value_escape (implied_any strng))
          (segment any_escape (implied_any strng))).
Proof.
  destruct strng as [|c0 rest]; [done|]. intros _.
  rewrite parse_input_cons.
  rewrite (new_string_segment c0 rest class_escape "#" eq_refl eq_refl).
  rewrite (new_string_segment c0 rest attr_escape "@" eq_refl eq_refl).
  rewrite (new_string_segment c0 rest value_escape "=" eq_refl eq_refl).
  by rewrite (new_string_segment c0 rest any_escape "*" eq_refl eq_refl).
Qed.

(** A token [c1 a * x] with one marker [c1], a plain non-empty [a] and a
    plain [x]. *)
Lemma segments_marker_any c1 a x :
  is_marker c1 = true -> c1 <> "*"%char ->
  plain a = true -> a <> EmptyString -> plain x = true ->
  let s := String c1 (a +:+ String "*" x) in
  implied_any s = s /\
  segment (escape_of c1) s = Some a /\
  segment any_escape s = (if Nat.ltb 0 (String.length x) then Some x else None) /\
  forall c, is_marker c = true -> c <> c1 -> c <> "*"%char ->
    segment (escape_of c) s = None.
Proof.
  intros Hc1 Hstar Ha Hne Hx s. subst s. split; [|split; [|split]].
  - unfold implied_any. by rewrite Hc1.
  - unfold segment.
    change (String c1 (a +:+ String "*" x))
      with (EmptyString +:+ String c1 (a +:+ String "*" x)).
    by rewrite bst_mid.
  - unfold segment. change any_escape with (escape_of "*").
    change (String c1 (a +:+ String "*" x)) with (String c1 a +:+ String "*" x).
    rewrite bst_end; [done|done| |done].
    cbn [has_char]. rewrite (plain_has_char "*" a) by done.
    rewrite orb_false_r. by apply Ascii.eqb_neq.
  - intros c Hc Hne1 Hne2. unfold segment. rewrite bst_absent; [done|done|].
    cbn [has_char]. rewrite has_char_append. cbn [has_char].
    rewrite (plain_has_char c a), (plain_has_char c x) by done.
    rewrite (proj2 (Ascii.eqb_neq c1 c)) by congruence.
    by rewrite (proj2 (Ascii.eqb_neq "*" c)) by congruence.
Qed.

Lemma nonempty_length x : x <> EmptyString -> Nat.ltb 0 (String.length x) = true.
Proof. by destruct x. Qed.

Lemma parse_class_any c x :
  plain c = true -> c <> EmptyString -> plain x = true ->
  parse_input ("#" +:+ c +:+ "*" +:+ x) =
  Ok (if Nat.ltb 0 (String.length x)
      then [Build_Term (K2 c x) "ca" 3; Build_Term (K2 c x) "cv" 3]
      else [Build_Term (K1 c) "c" 2]).
Proof.
  intros Hc Hne Hx.
  destruct (segments_marker_any "#" c x eq_refl) as (Hi&Hcl&Han&Hno); [done..|].
  change ("#" +:+ c +:+ "*" +:+ x) with (String "#" (c +:+ String "*" x)).
  rewrite parse_input_table by done. rewrite Hi.
  change class_escape with (escape_of "#").
  change attr_escape with (escape_of "@").
  change value_escape with (escape_of "=").
  rewrite Hcl, Han, (Hno "@"%char), (Hno "="%char) by done.
  by destruct (Nat.ltb 0 (String.length x)).
Qed.

Lemma parse_value_any v x :
  plain v = true -> v <> EmptyString -> plain x = true ->
  parse_input ("=" +:+ v +:+ "*" +:+ x) =
  Ok (if Nat.ltb 0 (String.length x)
      then [Build_Term (K2 x v) "cv" 3; Build_Term (K2 x v) "av" 3]
      else [Build_Term (K1 v) "v" 2]).
Proof.
  intros Hv Hne Hx.
  destruct (segments_marker_any "=" v x eq_refl) as (Hi&Hva&Han&Hno); [done..|].
  change ("=" +:+ v +:+ "*" +:+ x) with (String "=" (v +:+ String "*" x)).
  rewrite parse_input_table by done. rewrite Hi.
  change class_escape with (escape_of "#").
  change attr_escape with (escape_of "@").
  change value_escape with (escape_of "=").
  rewrite Hva, Han, (Hno "#"%char), (Hno "@"%char) by done.
  by destruct (Nat.ltb 0 (String.length x)).
Qed.

(** ** Candidates, term keys and records *)

Lemma dom_ranking w ts : dom (ranking w ts) = candidates w ts.
Proof.
  apply set_eq. intros x. rewrite elem_of_dom, ranking_lookup.
  case_decide; [|by split; [intros []|]]. split; [done|eauto].
Qed.

Lemma elem_of_candidates w ts x :
  x ∈ candidates w ts <->
  exists t s, t ∈ ts /\ match_set w t = Some s /\ x ∈ s.
Proof.
  unfold candidates. rewrite elem_of_union_list. split.
  - intros (s&Hs&Hx). apply list_elem_of_omap in Hs as (t&Ht&Hm). eauto.
  - intros (t&s&Ht&Hm&Hx). exists s. split; [|done].
    apply list_elem_of_omap. eauto.
Qed.

Lemma contributes_true w x t :
  contributes w x t = true <-> exists s, match_set w t = Some s /\ x ∈ s.
Proof.
  unfold contributes. destruct (match_set w t) as [s|].
  - rewrite bool_decide_eq_true. split; [eauto|]. by intros (?&[= <-]&?).
  - split; [done|]. by intros (?&?&?).
Qed.

Lemma elem_of_matched_term_keys w ts x k :
  k ∈ matched_term_keys w ts x <->
  exists t, t ∈ ts /\ contributes w x t = true /\ k = str (key t).
Proof.
  unfold matched_term_keys. rewrite elem_of_list_to_set, list_elem_of_fmap.
  split.
  - intros (t&->&Ht). apply list_elem_of_filter in Ht as [??]. eauto.
  - intros (t&Ht&Hc&->). exists t. split; [done|]. by apply list_elem_of_filter.
Qed.

Lemma elem_of_response rk r :
  r ∈ response rk -> exists x rank, rk !! x = Some rank /\
    r = {| r_pscore := pscore rank; r_sscore := sscore rank;
           r_terms := elements (terms rank); r_uid := x |}.
Proof.
  unfold response. intros (x&->&Hx)%list_elem_of_fmap.
  apply elem_of_take in Hx as (i&Hx&_).
  apply list_elem_of_lookup_2, elem_of_order in Hx as [rank Hr].
  exists x, rank. split; [done|]. unfold record_of. by rewrite Hr.
Qed.

Lemma length_response rk : length (response rk) = Nat.min (size rk) 100.
Proof.
  unfold response. rewrite length_fmap, length_take.
  rewrite (Permutation_length (order_perm rk)), length_fmap, length_map_to_list.
  lia.
Qed.

Lemma order_candidates w ts : order (ranking w ts) ≡ₚ elements (candidates w ts).
Proof.
  apply NoDup_Permutation; [apply NoDup_order|apply NoDup_elements|].
  intros x. by rewrite elem_of_order, elem_of_elements, <- dom_ranking, elem_of_dom.
Qed.

Lemma response_sscore w ts r : r ∈ response (ranking w ts) -> r_sscore r = 0%Z.
Proof.
  intros (x&rank&Hx&->)%elem_of_response. rewrite ranking_lookup in Hx.
  case_decide; [|done]. by simplify_eq.
Qed.

Lemma string_ltb_irrefl a : String.ltb a a = false.
Proof.
  destruct (String.ltb a a) eqn:E; [|done].
  by rewrite (string_ltb_asym a a E) in E.
Qed.

Lemma _index_searchables_ok R w : (_index_searchables R w).1 = Ok tt.
Proof. destruct (_index_searchables_posted R w) as (w'&->&_). done. Qed.

Lemma _index_searchables_state R w : posted (_index_searchables R w).2 (postings R).
Proof. by destruct (_index_searchables_posted R w) as (w'&->&?&_). Qed.

Lemma elem_of_flat_map {A B} (f : A -> list B) (l : list A) (y : B) :
  y ∈ flat_map f l <-> exists x, x ∈ l /\ y ∈ f x.
Proof.
  rewrite list_elem_of_In, in_flat_map. by setoid_rewrite list_elem_of_In.
Qed.

Lemma elem_of_pair {A} (y a b : A) : y ∈ [a; b] <-> y = a \/ y = b.
Proof.
  rewrite !elem_of_cons, elem_of_nil. split; [|intros [?|?]; eauto].
  by intros [?|[?|[]]]; eauto.
Qed.

Lemma elem_of_postings_of r p :
  p ∈ postings_of r <->
  p = (ByClass, K1 (object_class r), uid r) \/
  (exists a, a ∈ attr r /\
     (p = (ByAttr, K1 a, uid r) \/ p = (ByClassAttr, K2 (object_class r) a, uid r))) \/
  (exists v, v ∈ value r /\
     (p = (ByValue, K1 v, uid r) \/ p = (ByClassValue, K2 (object_class r) v, uid r))) \/
  (exists a v, (a, v) ∈ attr_value r /\
     (p = (ByAttrValue, K2 a v, uid r) \/
      p = (ByClassAttrValue, K3 (object_class r) a v, uid r))).
Proof.
  unfold postings_of. rewrite !elem_of_app, list_elem_of_singleton.
  rewrite !elem_of_flat_map.
  split.
  - intros [?|[(a&?&Hp)|[(v&?&Hp)|([a v]&?&Hp)]]];
      [by left|apply elem_of_pair in Hp..].
    + right; left. eauto.
    + right; right; left. eauto.
    + right; right; right. eauto.
  - intros [?|[(a&?&Hp)|[(v&?&Hp)|(a&v&?&Hp)]]]; [by left|..].
    + right; left. exists a. split; [done|]. by apply elem_of_pair.
    + right; right; left. exists v. split; [done|]. by apply elem_of_pair.
    + right; right; right. exists (a, v). split; [done|]. by apply elem_of_pair.
Qed.

(** * The claims *)

(** ** Which queries parse *)

Lemma parse_input_nonempty s :
  s <> EmptyString -> exists ts, parse_input s = Ok ts.
Proof. intros Hs. rewrite parse_input_table by done. eauto. Qed.

Lemma extend_parsed_ok tokens : forall acc,
  EmptyString ∉ tokens -> exists ts, extend_parsed tokens acc = Ok ts.
Proof.
  induction tokens as [|t tokens IH]; intros acc Hne; [by eexists|].
  apply not_elem_of_cons in Hne as [Ht Hne].
  destruct (parse_input_nonempty t) as [ts Hts]; [done|].
  cbn [extend_parsed]. rewrite Hts. by apply IH.
Qed.

Lemma extend_parsed_raise tokens : forall acc,
  EmptyString ∈ tokens -> extend_parsed tokens acc = Raise IndexError.
Proof.
  induction tokens as [|t tokens IH]; intros acc Hin.
  - by apply elem_of_nil in Hin.
  - destruct (decide (t = EmptyString)) as [->|Ht]; [done|].
    apply elem_of_cons in Hin as [?|Hin]; [done|].
    destruct (parse_input_nonempty t Ht) as [ts Hts].
    cbn [extend_parsed]. rewrite Hts. by apply IH.
Qed.

(** ** Sample tokens *)

Example parse_leaf :
  parse_input "leaf" =
    Ok [Build_Term (K1 "leaf") "c" 1; Build_Term (K1 "leaf") "a" 1;
        Build_Term (K1 "leaf") "v" 1].
Proof. reflexivity. Qed.

Example parse_tenant_name_app1 :
  parse_input "#Tenant@name=APP1" =
    Ok [Build_Term (K3 "Tenant" "name" "APP1") "cav" 8].
Proof. reflexivity. Qed.

Example parse_star_leaf : parse_input "*leaf" = parse_input "leaf".
Proof. reflexivity. Qed.

Example split_two_spaces : split " " (strip " a  b ") = ["a"; EmptyString; "b"].
Proof. reflexivity. Qed.

(** Claim C1.  For every non-empty token, [parse_input] returns exactly
    the Terms that the disambiguation table gives for the class,
    attribute, value and wildcard segments that are valid, the first
    matching row winning; the segments are those of the token with its
    implied leading wildcard, and a valid segment is never empty.  A
    bare token, without any marker, gives exactly three Terms of kinds
    [c], [a] and [v], of weight 1 each, keyed with the token.  (The
    empty string is not a token: [strng[0]] raises on it, see C2.) *)
Theorem C1_parse_input_table (strng : string) :
  strng <> EmptyString ->
  parse_input strng =
    Ok (disambiguation_table
          (segment class_escape (implied_any strng))
          (segment attr_escape (implied_any strng))
          (segment value_escape (implied_any strng))
          (segment any_escape (implied_any strng)))
  /\ (forall e, segment e (implied_any strng) <> Some EmptyString)
  /\ (plain strng = true ->
      parse_input strng =
        Ok [Build_Term (K1 strng) "c" 1; Build_Term (K1 strng) "a" 1;
            Build_Term (K1 strng) "v" 1]).
Proof.
  intros Hne. split; [by apply parse_input_table|].
  split; [intros e; apply segment_nonempty|].
  intros Hplain. rewrite parse_input_table by done.
  destruct strng as [|c0 rest]; [done|]. unfold implied_any.
  rewrite (plain_head_not_marker _ _ Hplain).
  remember (String c0 rest) as s eqn:Es.
  assert (Habs : forall e c, is_marker c = true -> c <> "*"%char ->
            e = escape_of c -> segment e ("*" +:+ s) = None).
  { intros e c Hc Hstar ->. unfold segment. rewrite bst_absent; [done..|].
    rewrite append_cons, append_nil_l. cbn [has_char].
    rewrite (plain_has_char c s) by done.
    rewrite orb_false_r. apply Ascii.eqb_neq. congruence. }
  rewrite (Habs class_escape "#"%char), (Habs attr_escape "@"%char),
    (Habs value_escape "="%char) by done.
  unfold segment. change any_escape with (escape_of "*").
  change ("*" +:+ s) with (EmptyString +:+ String "*" s).
  rewrite (bst_end "*" EmptyString s eq_refl eq_refl Hplain). by subst s.
Qed.

Lemma C1_witness :
  "#Tenant@name=APP1" <> EmptyString /\
  parse_input "#Tenant@name=APP1" =
    Ok [Build_Term (K3 "Tenant" "name" "APP1") "cav" 8].
Proof.
  split; [done|].
  exact (eq_trans (proj1 (C1_parse_input_table "#Tenant@name=APP1" ltac:(done)))
           eq_refl).
Defined.

(** Claim C2, evaluated on the code.  Building the index never raises,
    but the empty query does not return the empty result: after the
    build of any record list, [_get_terms] splits the empty string into
    one empty token, [parse_input] raises [IndexError] on it, and the
    exception leaves [search], with the state unchanged.  The same
    happens for every query with an empty token (two adjacent spaces,
    or nothing but white space); every other query returns. *)
Theorem C2_search_empty_query_raises (R : list Searchable) (w0 : world) :
  let w := (_index_searchables R w0).2 in
  (_index_searchables R w0).1 = Ok tt /\
  split " " (strip EmptyString) = [EmptyString] /\
  parse_input EmptyString = Raise IndexError /\
  search EmptyString w = (Raise IndexError, w) /\
  (forall q, EmptyString ∈ split " " (strip q) ->
             search q w = (Raise IndexError, w)) /\
  (forall q, EmptyString ∉ split " " (strip q) ->
             exists r w', search q w = (Ok r, w')).
Proof.
  intros w. split; [apply _index_searchables_ok|].
  split; [done|]. split; [done|]. split; [by apply search_raise|].
  split.
  - intros q Hq. apply search_raise. by apply extend_parsed_raise.
  - intros q Hq. destruct (extend_parsed_ok _ [] Hq) as [ts Hts].
    eexists _, _. by apply search_ok.
Qed.

(** Claim C3, as amended.  A class marker with a plain non-empty name
    [t] followed by a trailing wildcard marker: the wildcard segment is
    empty and therefore not valid, and the token parses to exactly one
    Term, of kind [c], key [t] and weight 2. *)
Theorem C3_trailing_wildcard_invalid (t : string) :
  plain t = true -> t <> EmptyString ->
  build_search_term any_escape ("#" +:+ t +:+ "*") = (false, EmptyString) /\
  parse_input ("#" +:+ t +:+ "*") = Ok [Build_Term (K1 t) "c" 2].
Proof.
  intros Ht Hne. split.
  - change any_escape with (escape_of "*").
    change ("#" +:+ t +:+ "*") with (String "#" t +:+ String "*" EmptyString).
    rewrite bst_end; [done..| |done]. cbn [has_char].
    by rewrite (plain_has_char "*" t).
  - exact (parse_class_any t EmptyString Ht Hne eq_refl).
Qed.

Lemma C3_witness :
  plain "Tenant" = true /\ "Tenant" <> EmptyString /\
  parse_input "#Tenant*" = Ok [Build_Term (K1 "Tenant") "c" 2].
Proof.
  split; [done|]. split; [done|].
  exact (proj2 (C3_trailing_wildcard_invalid "Tenant" eq_refl ltac:(done))).
Defined.

Lemma C3_counterexample :
  parse_input "#Tenant*" <>
  Ok [Build_Term (K2 "Tenant" EmptyString) "ca" 3;
      Build_Term (K2 "Tenant" EmptyString) "cv" 3].
Proof. vm_compute. discriminate. Qed.

(** Claim C4.  For every query whose tokens parse to the Terms [ts],
    [search] returns, and the total it reports is the number of
    candidates.  The candidate set is the union of the match sets of
    exactly the Terms whose key is present in the table selected by
    their kind.  Every candidate is ranked in [self.ranked_items] with
    a primary score equal to the sum of the weights of the Terms whose
    match set contains it, a secondary score 0 and the set of the
    stringified keys of these Terms; every returned record carries the
    scores and the term keys of its uid. *)
Theorem C4_candidates_and_scores (w : world) (term_string : string)
    (ts : list Term) :
  _get_terms term_string = Ok ts ->
  exists resp w',
    search term_string w = (Ok (resp, size (candidates w ts)), w') /\
    (forall x, x ∈ candidates w ts <->
       exists t s, t ∈ ts /\ match_set w t = Some s /\ x ∈ s) /\
    (forall x t, contributes w x t = true <->
       exists s, match_set w t = Some s /\ x ∈ s) /\
    (forall x k, k ∈ matched_term_keys w ts x <->
       exists t, t ∈ ts /\ contributes w x t = true /\ k = str (key t)) /\
    dom (ranked_items (self w')) = candidates w ts /\
    (forall x, x ∈ candidates w ts ->
       ranked_items (self w') !! x =
         Some {| pscore := primary_score w ts x; sscore := 0;
                 terms := matched_term_keys w ts x |}) /\
    (forall r, r ∈ resp ->
       r_uid r ∈ candidates w ts /\
       r_pscore r = primary_score w ts (r_uid r) /\
       r_sscore r = 0%Z /\
       forall k, k ∈ r_terms r <-> k ∈ matched_term_keys w ts (r_uid r)).
Proof.
  intros Hq. eexists _, _. split.
  { rewrite (search_ok _ ts) by done. by rewrite size_ranking. }
  split; [apply elem_of_candidates|]. split; [apply contributes_true|].
  split; [apply elem_of_matched_term_keys|]. simpl.
  split; [apply dom_ranking|]. split.
  - intros x Hx. rewrite ranking_lookup. by rewrite decide_True.
  - intros r (x&rank&Hx&->)%elem_of_response. rewrite ranking_lookup in Hx.
    case_decide; [|done]. simplify_eq. simpl.
    split; [done|]. split; [done|]. split; [done|].
    intros k. apply elem_of_elements.
Qed.

Lemma C4_witness :
  _get_terms "#Tenant name" = Ok example_terms /\
  exists resp w',
    search "#Tenant name" example_world =
      (Ok (resp, size (candidates example_world example_terms)), w') /\
    dom (ranked_items (self w')) = candidates example_world example_terms /\
    (forall r, r ∈ resp ->
       r_pscore r = primary_score example_world example_terms (r_uid r)).
Proof.
  split; [reflexivity|].
  destruct (C4_candidates_and_scores example_world "#Tenant name"
              example_terms eq_refl) as (resp&w'&Hs&_&_&_&Hd&_&Hr).
  exists resp, w'. split; [exact Hs|]. split; [exact Hd|].
  intros r Hin. exact (proj1 (proj2 (Hr r Hin))).
Defined.

(** Claim C5.  The response of a query is sorted: of two records, the
    earlier has the higher primary score, or the same primary score and
    the higher secondary score, or the same scores and the smaller uid.
    In particular, of two records with equal primary score the one with
    the smaller uid comes first.  The response does not depend on the
    order in which the records were enumerated during the build. *)
Theorem C5_sorted_response (w : world) (term_string : string) (ts : list Term) :
  _get_terms term_string = Ok ts ->
  exists resp n w',
    search term_string w = (Ok (resp, n), w') /\
    (forall i j ri rj,
       i < j -> resp !! i = Some ri -> resp !! j = Some rj -> before ri rj) /\
    (forall i j ri rj,
       resp !! i = Some ri -> resp !! j = Some rj ->
       r_pscore ri = r_pscore rj ->
       String.ltb (r_uid ri) (r_uid rj) = true -> i < j) /\
    (forall R R' w0 w0',
       R ≡ₚ R' ->
       (search term_string (_index_searchables R w0).2).1 =
       (search term_string (_index_searchables R' w0').2).1).
Proof.
  intros Hq. eexists _, _, _. split; [by apply search_ok|].
  split; [apply response_sorted|]. split.
  - intros i j ri rj Hi Hj Hp Hlt.
    assert (Hsi : r_sscore ri = 0%Z).
    { eapply response_sscore, list_elem_of_lookup_2, Hi. }
    assert (Hsj : r_sscore rj = 0%Z).
    { eapply response_sscore, list_elem_of_lookup_2, Hj. }
    destruct (Nat.lt_trichotomy i j) as [?|[->|Hji]]; [done|..].
    + simplify_eq. by rewrite string_ltb_irrefl in Hlt.
    + destruct (response_sorted _ _ _ _ _ Hji Hj Hi) as [?|[_ [?|[_ Hlt']]]];
        [lia..|].
      by rewrite (string_ltb_asym _ _ Hlt) in Hlt'.
  - intros R R' w0 w0' HR. apply search_ext.
    apply (posted_view_eq _ _ (postings R')); [|apply _index_searchables_state].
    eapply posted_perm; [apply _index_searchables_state|by apply postings_perm].
Qed.

Lemma C5_witness :
  _get_terms "#Tenant name" = Ok example_terms /\
  exists resp n w',
    search "#Tenant name" example_world = (Ok (resp, n), w') /\
    (forall i j ri rj,
       i < j -> resp !! i = Some ri -> resp !! j = Some rj -> before ri rj).
Proof.
  split; [reflexivity|].
  destruct (C5_sorted_response example_world "#Tenant name" example_terms
              eq_refl) as (resp&n&w'&Hs&Hb&_).
  exists resp, n, w'. split; [exact Hs|exact Hb].
Defined.

(** Claim C6.  With [N] the number of candidates of a query, [search]
    reports the total [N] and returns the records of the first 100 uids
    of [full], the list of all the candidates in sorted order: exactly
    [min N 100] records, hence 100 records when [N] is 150. *)
Theorem C6_truncation (w : world) (term_string : string) (ts : list Term) :
  _get_terms term_string = Ok ts ->
  exists resp full w',
    search term_string w = (Ok (resp, size (candidates w ts)), w') /\
    full ≡ₚ elements (candidates w ts) /\
    (forall i j x y,
       i < j -> full !! i = Some x -> full !! j = Some y ->
       before (record_of (ranking w ts) x) (record_of (ranking w ts) y)) /\
    resp = record_of (ranking w ts) <$> take 100 full /\
    r_uid <$> resp = take 100 full /\
    length resp = Nat.min (size (candidates w ts)) 100 /\
    (size (candidates w ts) = 150 -> length resp = 100).
Proof.
  intros Hq. exists (response (ranking w ts)), (order (ranking w ts)). eexists.
  split. { rewrite (search_ok _ ts) by done. by rewrite size_ranking. }
  split; [apply order_candidates|]. split; [apply order_sorted|].
  split; [done|]. split.
  { unfold response. rewrite <- list_fmap_compose.
    generalize (take 100 (order (ranking w ts))) as l.
    induction l as [|x l IH]; [done|]. rewrite !fmap_cons. by f_equal. }
  rewrite length_response, size_ranking. split; [done|]. intros ->. done.
Qed.

Lemma C6_witness :
  _get_terms "#T" = Ok [Build_Term (K1 "T") "c" 2] /\
  exists resp w',
    search "#T" many_world = (Ok (resp, 150), w') /\ length resp = 100.
Proof.
  split; [reflexivity|].
  assert (Hn : size (candidates many_world [Build_Term (K1 "T") "c" 2]) = 150)
    by (vm_compute; reflexivity).
  destruct (C6_truncation many_world "#T" [Build_Term (K1 "T") "c" 2] eq_refl)
    as (resp&full&w'&Hs&_&_&_&_&_&H150).
  exists resp, w'. rewrite Hn in Hs. split; [exact Hs|exact (H150 Hn)].
Defined.

(** Claim C7.  A build returns, and afterwards the uid of every record
    is in [by_class] under its class, in [by_attr] and [by_class_attr]
    under each of its attributes, in [by_value] and [by_class_value]
    under each of its values, and in [by_attr_value] and
    [by_class_attr_value] under each of its attribute and value pairs;
    and every uid in an entry of one of the seven tables is the uid of
    a record of the build. *)
Theorem C7_index_invariant (R : list Searchable) (w0 : world) :
  exists w,
    _index_searchables R w0 = (Ok tt, w) /\
    (forall r, r ∈ R ->
       indexed w ByClass (K1 (object_class r)) (uid r) /\
       (forall a, a ∈ attr r ->
          indexed w ByAttr (K1 a) (uid r) /\
          indexed w ByClassAttr (K2 (object_class r) a) (uid r)) /\
       (forall v, v ∈ value r ->
          indexed w ByValue (K1 v) (uid r) /\
          indexed w ByClassValue (K2 (object_class r) v) (uid r)) /\
       (forall a v, (a, v) ∈ attr_value r ->
          indexed w ByAttrValue (K2 a v) (uid r) /\
          indexed w ByClassAttrValue (K3 (object_class r) a v) (uid r))) /\
    (forall d k x, indexed w d k x -> exists r, r ∈ R /\ uid r = x).
Proof.
  destruct (_index_searchables_posted R w0) as (w&Hw&HE&_).
  exists w. split; [done|].
  assert (Hin : forall r p, r ∈ R -> p ∈ postings_of r ->
            indexed w p.1.1 p.1.2 p.2).
  { intros r [[d k] x] Hr Hp. apply (indexed_posted _ _ _ _ _ HE).
    apply elem_of_postings. eauto. }
  split.
  - intros r Hr. split; [|split; [|split]].
    + apply (Hin r (_, _, _) Hr), elem_of_postings_of. by left.
    + intros a Ha. split; apply (Hin r (_, _, _) Hr), elem_of_postings_of;
        right; left; eauto.
    + intros v Hv. split; apply (Hin r (_, _, _) Hr), elem_of_postings_of;
        right; right; left; eauto.
    + intros a v Hav. split; apply (Hin r (_, _, _) Hr), elem_of_postings_of;
        right; right; right; eauto.
  - intros d k x Hx. apply (indexed_posted _ _ _ _ _ HE) in Hx.
    apply elem_of_postings in Hx as (r&Hr&Hp). exists r. split; [done|].
    by apply postings_of_uid in Hp.
Qed.

(** Claim C8.  Building twice in succession with the same records
    leaves tables with the same contents as building once, and every
    query gives the same result on both; the contents after a build do
    not depend on the state before it, since the build starts from
    seven new empty tables. *)
Theorem C8_build_idempotent (R : list Searchable) (w0 : world)
    (term_string : string) :
  let w1 := (_index_searchables R w0).2 in
  let w2 := (_index_searchables R w1).2 in
  (forall d, view w2 d = view w1 d) /\
  (search term_string w2).1 = (search term_string w1).1 /\
  (forall w0' d, view (_index_searchables R w0').2 d = view w1 d).
Proof.
  intros w1 w2.
  assert (H : forall w0' d, view (_index_searchables R w0').2 d = view w1 d).
  { intros w0'. apply (posted_view_eq _ _ (postings R));
      apply _index_searchables_state. }
  split; [apply H|]. split; [apply search_ext, H|apply H].
Qed.

(** Claim C9.  A sequence of queries modifies no set object and none of
    the seven tables: the heap and the tables are the same after it as
    before, so the contents of the tables are the same and every query
    gives the same result after the sequence as before it. *)
Theorem C9_search_read_only (w : world) (qs : list string) :
  let w' := run_queries qs w in
  heap w' = heap w /\
  (forall d, get_table d (self w') = get_table d (self w)) /\
  (forall d, view w' d = view w d) /\
  (forall q, (search q w').1 = (search q w).1).
Proof.
  assert (H : heap (run_queries qs w) = heap w /\
              forall d, get_table d (self (run_queries qs w)) = get_table d (self w)).
  { revert w. induction qs as [|q qs IH]; intros w; [done|].
    simpl. destruct (IH (search q w).2) as [Hh Ht].
    destruct (search_frame q w) as [Hh' Ht'].
    split; [congruence|]. intros d. by rewrite Ht, Ht'. }
  destruct H as [Hh Ht]. intros w'.
  split; [done|]. split; [done|].
  split; [by apply view_frame|]. intros q. by apply search_ext, view_frame.
Qed.

(** Claim C10.  The class and wildcard row gives a [ca] Term and a [cv]
    Term with the same key, and the value and wildcard row gives a [cv]
    Term and an [av] Term with the same key.  The number of term keys
    of a candidate is at most the number of Terms that contribute to
    its score, and it can be smaller: the query [#Tenant*x] ranks the
    tenant [uni/tn-a] with primary score 3 + 3 from two Terms and with
    one term key. *)
Theorem C10_shared_key_terms :
  (forall c x, plain c = true -> c <> EmptyString ->
               plain x = true -> x <> EmptyString ->
     parse_input ("#" +:+ c +:+ "*" +:+ x) =
       Ok [Build_Term (K2 c x) "ca" 3; Build_Term (K2 c x) "cv" 3]) /\
  (forall v x, plain v = true -> v <> EmptyString ->
               plain x = true -> x <> EmptyString ->
     parse_input ("=" +:+ v +:+ "*" +:+ x) =
       Ok [Build_Term (K2 x v) "cv" 3; Build_Term (K2 x v) "av" 3]) /\
  (forall w ts x,
     size (matched_term_keys w ts x) <=
     length (filter (fun t => contributes w x t = true) ts)) /\
  (exists ts r,
     _get_terms "#Tenant*x" = Ok ts /\
     (search "#Tenant*x" example_world).1 = Ok ([r], 1) /\
     r_pscore r = (3 + 3)%Z /\
     length (filter (fun t => contributes example_world (r_uid r) t = true) ts) = 2 /\
     length (r_terms r) = 1).
Proof.
  split; [|split; [|split]].
  - intros c x Hc Hne Hx Hnx. rewrite parse_class_any by done.
    by rewrite nonempty_length.
  - intros v x Hv Hne Hx Hnx. rewrite parse_value_any by done.
    by rewrite nonempty_length.
  - intros w ts x. unfold matched_term_keys.
    generalize (filter (fun t => contributes w x t = true) ts) as l.
    induction l as [|t l IH]; [done|]. rewrite fmap_cons. cbn [list_to_set length].
    rewrite size_union_alt, size_singleton.
    pose proof (subseteq_size (list_to_set (C := gset string)
      ((fun t => str (key t)) <$> l) ∖ {[str (key t)]})
      (list_to_set ((fun t => str (key t)) <$> l))) as Hsub.
    assert (size (list_to_set (C := gset string) ((fun t => str (key t)) <$> l)
                  ∖ {[str (key t)]}) <= length l); [|lia].
    etrans; [apply Hsub, subseteq_difference_l; done|done].
  - eexists _, _. split; [reflexivity|]. split; [by vm_compute|].
    split; [done|]. split; by vm_compute.
Qed.

(** * Further properties

    Properties of the parts of the program that the claims leave
    out: the object store, the session and the database, and further
    properties of the index. *)

(** ** The Terms of a query as a multiset *)







(** ** The weights of the Terms and the scores of the response *)

Lemma disambiguation_table_points c a v x :
  Forall (fun t => (1 <= points t <= 8)%Z)
    (disambiguation_table c a v x).
Proof.
  destruct c, a, v, x; cbn [disambiguation_table];
    repeat constructor; cbn [points]; lia.
Qed.

Lemma parse_input_points s ts :
  parse_input s = Ok ts -> Forall (fun t => (1 <= points t <= 8)%Z) ts.
Proof.
  intros H. destruct (decide (s = EmptyString)) as [->|Hne]; [done|].
  rewrite parse_input_table in H by done. injection H as <-.
  apply disambiguation_table_points.
Qed.

Lemma extend_parsed_points tokens : forall acc ts,
  extend_parsed tokens acc = Ok ts ->
  Forall (fun t => (1 <= points t <= 8)%Z) acc ->
  Forall (fun t => (1 <= points t <= 8)%Z) ts.
Proof.
  induction tokens as [|tok tokens IH]; intros acc ts H Hacc.
  - by injection H as <-.
  - cbn [extend_parsed] in H. destruct (parse_input tok) as [ps|e] eqn:Hp; [|done].
    apply (IH _ _ H). apply Forall_app. split; [done|]. by apply parse_input_points in Hp.
Qed.

Lemma _get_terms_points q ts :
  _get_terms q = Ok ts -> Forall (fun t => (1 <= points t <= 8)%Z) ts.
Proof. intros H. by apply (extend_parsed_points _ _ _ H). Qed.

Lemma primary_score_bounds w ts x :
  Forall (fun t => (1 <= points t <= 8)%Z) ts ->
  (0 <= primary_score w ts x <= 8 * Z.of_nat (length ts))%Z /\
  forall t, t ∈ ts -> contributes w x t = true -> (1 <= primary_score w ts x)%Z.
Proof.
  induction 1 as [|t ts Ht _ IH].
  - split; [done|]. intros t Ht. by apply elem_of_nil in Ht.
  - rewrite primary_score_cons. cbn [length]. destruct IH as [IH1 IH2].
    split; [destruct (contributes w x t); lia|].
    intros u [->|Hu]%elem_of_cons Hc.
    + rewrite Hc. lia.
    + specialize (IH2 u Hu Hc). destruct (contributes w x t); lia.
Qed.

(** Property X23.  Every Term of a query has a weight between 1 and 8,
    so every record of a response has a primary score of at least 1
    and at most 8 times the number of Terms, and at least one term
    key. *)
Theorem response_scores_are_positive q ts w :
  _get_terms q = Ok ts ->
  exists resp n w',
    search q w = (Ok (resp, n), w') /\
    forall r, r ∈ resp ->
      (1 <= r_pscore r <= 8 * Z.of_nat (length ts))%Z /\ r_terms r <> [].
Proof.
  intros Hq. eexists _, _, _. split; [by apply search_ok|].
  intros r (x & rank & Hx & ->)%elem_of_response. cbn [r_pscore r_terms].
  rewrite ranking_lookup in Hx. case_decide as Hc; [|done]. injection Hx as <-.
  cbn [rank_of pscore terms].
  apply elem_of_candidates in Hc as (t & s & Ht & Hm & Hs).
  assert (Hct : contributes w x t = true) by (apply contributes_true; eauto).
  destruct (primary_score_bounds w ts x (_get_terms_points _ _ Hq)) as [[_ Hle] Hge].
  split; [split; [by apply (Hge t) | done]|].
  intros Hnil.
  assert (Hk : str (key t) ∈ matched_term_keys w ts x).
  { apply elem_of_matched_term_keys. eauto. }
  apply elem_of_elements in Hk. rewrite Hnil in Hk. by apply elem_of_nil in Hk.
Qed.

Lemma response_scores_are_positive_witness :
  _get_terms "#Tenant name" = Ok example_terms /\
  exists resp n w',
    search "#Tenant name" example_world = (Ok (resp, n), w') /\
    forall r, r ∈ resp ->
      (1 <= r_pscore r <= 8 * Z.of_nat (length example_terms))%Z /\ r_terms r <> [].
Proof.
  split; [reflexivity|].
  exact (response_scores_are_positive "#Tenant name" example_terms example_world eq_refl).
Defined.

(** ** The tables after a build *)

(** Property X24.  After a build no entry of a table is empty, and
    the tables with longer keys refine the others: a uid under a class
    and an attribute is under the class and under the attribute, a uid
    under a class and a value is under the class and under the value,
    and a uid under a class, an attribute and a value is under the
    class and under the pair of the attribute and the value. *)
Theorem specific_tables_refine_general (R : list Searchable) (w0 : world) :
  let w := (_index_searchables R w0).2 in
  (forall d k l, get_table d (self w) !! k = Some l -> deref w l <> ∅) /\
  (forall c a x, indexed w ByClassAttr (K2 c a) x ->
     indexed w ByClass (K1 c) x /\ indexed w ByAttr (K1 a) x) /\
  (forall c v x, indexed w ByClassValue (K2 c v) x ->
     indexed w ByClass (K1 c) x /\ indexed w ByValue (K1 v) x) /\
  (forall c a v x, indexed w ByClassAttrValue (K3 c a v) x ->
     indexed w ByClass (K1 c) x /\ indexed w ByAttrValue (K2 a v) x).
Proof.
  intros w. pose proof (_index_searchables_state R w0) as HE. fold w in HE.
  assert (Hin : forall d k x, indexed w d k x <->
            exists r, r ∈ R /\ (d, k, x) ∈ postings_of r).
  { intros d k x. rewrite (indexed_posted _ _ _ _ _ HE). apply elem_of_postings. }
  assert (Hclass : forall r, r ∈ R -> indexed w ByClass (K1 (object_class r)) (uid r)).
  { intros r Hr. apply Hin. exists r. split; [done|].
    apply elem_of_postings_of. by left. }
  split.
  { intros d k l Hl Hempty. destruct HE as [_ Hv].
    specialize (Hv d k). unfold view in Hv. rewrite lookup_fmap, Hl in Hv.
    cbn in Hv. unfold bucket in Hv. case_decide as Hs; [done|].
    injection Hv as Hv. congruence. }
  split; [|split].
  - intros c a x (r & Hr & Hp)%Hin.
    apply elem_of_postings_of in Hp
      as [?|[(a' & Ha & [?|?])|[(v' & Hv & [?|?])|(a' & v' & Hav & [?|?])]]];
      simplify_eq.
    split; [by apply Hclass|]. apply Hin. exists r. split; [done|].
    apply elem_of_postings_of. right. left. eauto.
  - intros c v x (r & Hr & Hp)%Hin.
    apply elem_of_postings_of in Hp
      as [?|[(a' & Ha & [?|?])|[(v' & Hv & [?|?])|(a' & v' & Hav & [?|?])]]];
      simplify_eq.
    split; [by apply Hclass|]. apply Hin. exists r. split; [done|].
    apply elem_of_postings_of. right. right. left. eauto.
  - intros c a v x (r & Hr & Hp)%Hin.
    apply elem_of_postings_of in Hp
      as [?|[(a' & Ha & [?|?])|[(v' & Hv & [?|?])|(a' & v' & Hav & [?|?])]]];
      simplify_eq.
    split; [by apply Hclass|]. apply Hin. exists r. split; [done|].
    apply elem_of_postings_of. right. right. right. eauto 6.
Qed.

(** ** A build followed by a query for a class *)

Lemma lstrip_spaceless s : spaceless s = true -> lstrip s = s.
Proof.
  destruct s as [|a s]; [done|]. unfold spaceless. cbn [string_forall lstrip].
  intros [Ha _]%andb_true_iff. by apply negb_true_iff in Ha as ->.
Qed.

Lemma rstrip_spaceless s : spaceless s = true -> rstrip s = s.
Proof.
  unfold spaceless. induction s as [|a s IH]; [done|]. cbn [string_forall rstrip].
  intros [Ha Hs]%andb_true_iff. rewrite (IH Hs). apply negb_true_iff in Ha as ->.
  by destruct s.
Qed.

Lemma strip_spaceless s : spaceless s = true -> strip s = s.
Proof. intros H. unfold strip. by rewrite (lstrip_spaceless s H), rstrip_spaceless. Qed.

Lemma split_from_spaceless s : forall cur,
  spaceless s = true -> split_from " " cur s = [cur +:+ s].
Proof.
  unfold spaceless. induction s as [|a s IH]; intros cur.
  - intros _. cbn [split_from]. by rewrite append_nil_r.
  - cbn [string_forall split_from]. intros [Ha Hs]%andb_true_iff.
    destruct (Ascii.eqb_spec a " ") as [->|_]; [done|].
    rewrite (IH _ Hs), append_assoc. reflexivity.
Qed.

Lemma _get_terms_spaceless s :
  spaceless s = true -> _get_terms s = extend_parsed [s] [].
Proof.
  intros H. unfold _get_terms, split.
  by rewrite (strip_spaceless s H), (split_from_spaceless s _ H).
Qed.

Lemma parse_class c :
  plain c = true -> c <> EmptyString ->
  parse_input ("#" +:+ c) = Ok [Build_Term (K1 c) "c" 2].
Proof.
  intros Hc Hne.
  change ("#" +:+ c) with (String "#" c).
  rewrite parse_input_table by done.
  change (implied_any (String "#" c)) with (String "#" c).
  assert (Habs : forall m, is_marker m = true -> m <> "#"%char ->
            segment (escape_of m) (String "#" c) = None).
  { intros m Hm Hne'. unfold segment. rewrite bst_absent; [done|done|].
    cbn [has_char]. rewrite (plain_has_char m c Hm Hc), orb_false_r.
    by apply Ascii.eqb_neq. }
  change class_escape with (escape_of "#").
  change attr_escape with (escape_of "@").
  change value_escape with (escape_of "=").
  change any_escape with (escape_of "*").
  rewrite (Habs "@"%char), (Habs "="%char), (Habs "*"%char) by done.
  unfold segment.
  change (String "#" c) with (EmptyString +:+ String "#" c).
  rewrite bst_end by done. by rewrite nonempty_length.
Qed.

Lemma _get_terms_class c :
  plain c = true -> c <> EmptyString -> spaceless c = true ->
  _get_terms ("#" +:+ c) = Ok [Build_Term (K1 c) "c" 2].
Proof.
  intros Hc Hne Hs. rewrite _get_terms_spaceless by done.
  cbn [extend_parsed]. by rewrite parse_class.
Qed.

Lemma candidates_class R w0 c :
  candidates (_index_searchables R w0).2 [Build_Term (K1 c) "c" 2] = uids_of_class R c.
Proof.
  pose proof (_index_searchables_state R w0) as HE.
  apply set_eq. intros x. rewrite elem_of_candidates.
  unfold uids_of_class. rewrite elem_of_list_to_set, list_elem_of_fmap.
  split.
  - intros (t & s & ->%list_elem_of_singleton & Hm & Hx).
    change (view (_index_searchables R w0).2 ByClass !! K1 c = Some s) in Hm.
    destruct HE as [_ Hv]. rewrite Hv in Hm.
    apply (elem_of_bucket _ _ _ _ x) in Hm. apply Hm in Hx.
    apply elem_of_postings in Hx as (r & Hr & Hp).
    apply elem_of_postings_of in Hp
      as [?|[(a' & Ha & [?|?])|[(v' & Hv' & [?|?])|(a' & v' & Hav & [?|?])]]];
      simplify_eq.
    exists r. split; [done|]. by apply list_elem_of_filter.
  - intros (r & -> & [<- Hr]%list_elem_of_filter).
    assert (Hp : (ByClass, K1 (object_class r), uid r) ∈ postings R).
    { apply elem_of_postings. exists r. split; [done|].
      apply elem_of_postings_of. by left. }
    destruct (bucket_is_Some _ _ _ _ Hp) as [s Hs].
    exists (Build_Term (K1 (object_class r)) "c" 2), s.
    split; [apply list_elem_of_here|]. split.
    + change (view (_index_searchables R w0).2 ByClass !! K1 (object_class r) = Some s).
      destruct HE as [_ Hv]. by rewrite Hv.
    + by apply (elem_of_bucket _ _ _ _ (uid r) Hs).
Qed.

(** Property X25.  After a build of the records [R], the query [#c]
    for a class name [c] without markers and white space finds the
    records of class [c]: the total is the number of their uids, every
    returned record is one of them, with primary score 2 and the term
    key [c], and when they are at most 100 all of them are
    returned. *)
Theorem build_then_query_by_class R w0 c :
  plain c = true -> c <> EmptyString -> spaceless c = true ->
  let w := (_index_searchables R w0).2 in
  exists resp w',
    search ("#" +:+ c) w = (Ok (resp, size (uids_of_class R c)), w') /\
    (forall r, r ∈ resp ->
       r_uid r ∈ uids_of_class R c /\ r_pscore r = 2%Z /\ r_terms r = [c]) /\
    length resp = Nat.min (size (uids_of_class R c)) 100 /\
    (size (uids_of_class R c) <= 100 ->
     forall x, x ∈ uids_of_class R c -> x ∈ r_uid <$> resp).
Proof.
  intros Hc Hne Hs w.
  pose proof (_get_terms_class c Hc Hne Hs) as Hq.
  set (ts := [Build_Term (K1 c) "c" 2]) in *.
  assert (Hcand : candidates w ts = uids_of_class R c) by apply candidates_class.
  eexists _, _. split.
  { rewrite (search_ok _ ts) by done. by rewrite size_ranking, Hcand. }
  split; [|split].
  - intros r (x & rank & Hx & ->)%elem_of_response. cbn [r_uid r_pscore r_terms].
    rewrite ranking_lookup in Hx. case_decide as Hin; [|done]. injection Hx as <-.
    cbn [rank_of pscore terms]. split; [by rewrite <- Hcand|].
    apply elem_of_candidates in Hin as (t & s & ->%list_elem_of_singleton & Hm & Hxs).
    assert (Hct : contributes w x (Build_Term (K1 c) "c" 2) = true)
      by (apply contributes_true; eauto).
    unfold ts. rewrite primary_score_cons, matched_term_keys_cons, Hct.
    cbn. split; [done|]. rewrite (right_id_L ∅ (∪)). apply elements_singleton.
  - by rewrite length_response, size_ranking, Hcand.
  - intros Hle x Hx. unfold response. rewrite <- list_fmap_compose.
    rewrite take_ge.
    2:{ rewrite (Permutation_length (order_candidates w ts)), Hcand.
        exact Hle. }
    apply list_elem_of_fmap. exists x. split; [done|].
    rewrite (order_candidates w ts), Hcand. by apply elem_of_elements.
Qed.

Lemma build_then_query_by_class_witness :
  plain "Tenant" = true /\ "Tenant" <> EmptyString /\ spaceless "Tenant" = true /\
  exists resp w',
    search "#Tenant" (_index_searchables [tenant_a; tenant_b] __init__).2 =
      (Ok (resp, size (uids_of_class [tenant_a; tenant_b] "Tenant")), w') /\
    (forall r, r ∈ resp ->
       r_uid r ∈ uids_of_class [tenant_a; tenant_b] "Tenant" /\
       r_pscore r = 2%Z /\ r_terms r = ["Tenant"]) /\
    length resp = Nat.min (size (uids_of_class [tenant_a; tenant_b] "Tenant")) 100 /\
    (size (uids_of_class [tenant_a; tenant_b] "Tenant") <= 100 ->
     forall x, x ∈ uids_of_class [tenant_a; tenant_b] "Tenant" -> x ∈ r_uid <$> resp).
Proof.
  assert (Hne : "Tenant" <> EmptyString) by discriminate.
  split; [reflexivity|]. split; [exact Hne|]. split; [reflexivity|].
  exact (build_then_query_by_class [tenant_a; tenant_b] __init__ "Tenant"
           eq_refl Hne eq_refl).
Defined.

(** ** Outcomes *)

Lemma returned_inv {A St} (p : outcome A * St) :
  returned p.1 = true -> exists x, p = (Return x, p.2).
Proof. destruct p as [[x|e] st]; [by exists x | done]. Qed.

(** ** The session *)

Section Session.
Import SearchSession.

Lemma session_cached response fuel st s :
  _session (obj st) = Some s ->
  session response (S fuel) st = Some (Return (Some s), st).
Proof. intros H. cbn [session]. rewrite H. reflexivity. Qed.

Lemma session_fresh response fuel st a l :
  _session (obj st) = None -> args (obj st) = Some a -> login a = Some l ->
  let s := new_session a l in
  let st3 := {| obj := obj (set_session (Some s) st);
                calls := calls st ++ [(s, timeout (obj st))] |} in
  session response (S (S fuel)) st =
  Some (match response (calls st) s (timeout (obj st)) with
        | Throw e => Throw e
        | Return ok => if ok then Return (Some s) else Throw LoginError
        end, st3).
Proof.
  intros Hs Ha Hl s st3.
  change (session response (S (S fuel)) st) with
    (match _session (obj st) with
     | None =>
         match args (obj st) with
         | Some a =>
             match login a with
             | Some l =>
                 let st1 := set_session (Some {| session_url := url a; session_login := l;
                                                 session_password := password a |}) st in
                 match session response (S fuel) st1 with
                 | None => None
                 | Some (Throw e, st2) => Some (Throw e, st2)
                 | Some (Return None, st2) => Some (Throw AttributeError, st2)
                 | Some (Return (Some s), st2) =>
                     let st3 := {| obj := obj st2; calls := calls st2 ++ [(s, timeout (obj st2))] |} in
                     match response (calls st2) s (timeout (obj st2)) with
                     | Throw e => Some (Throw e, st3)
                     | Return ok =>
                         if negb ok then Some (Throw LoginError, st3)
                         else Some (Return (_session (obj st3)), st3)
                     end
                 end
             | None => Some (Throw LoginError, st)
             end
         | None => Some (Throw LoginError, st)
         end
     | Some _ => Some (Return (_session (obj st)), st)
     end).
  rewrite Hs, Ha, Hl. cbv zeta.
  rewrite (session_cached response fuel _ (new_session a l)) by reflexivity.
  fold s. cbn [set_session obj calls timeout _session].
  destruct (response (calls st) s (timeout (obj st))) as [[]|]; reflexivity.
Qed.


(** Property X2.  When the login is refused (the response is not
    [ok]), the access raises [LoginError] but the session object stays
    stored: the next access returns it, and logs in no more. *)
Theorem session_failed_login_is_kept response fuel fuel' st a l :
  _session (obj st) = None -> args (obj st) = Some a -> login a = Some l ->
  response (calls st) (new_session a l) (timeout (obj st)) = Return false ->
  exists st',
    session response (S (S fuel)) st = Some (Throw LoginError, st') /\
    session response (S fuel') st' = Some (Return (Some (new_session a l)), st') /\
    calls st' = calls st ++ [(new_session a l, timeout (obj st))].
Proof.
  intros Hs Ha Hl Hr. eexists. 
  rewrite (session_fresh response fuel st a l Hs Ha Hl), Hr.
  split; [reflexivity|]. split; [|reflexivity].
  apply session_cached. reflexivity.
Qed.

Lemma session_failed_login_is_kept_witness :
  let refuse := fun (_ : list (Session * option Z)) (_ : Session) (_ : option Z) =>
                  Return false in
  _session (obj sample_state) = None /\
  exists st',
    session refuse 2 sample_state = Some (Throw LoginError, st') /\
    session refuse 1 st' = Some (Return (Some (new_session sample_args "admin")), st') /\
    calls st' = calls sample_state ++
                [(new_session sample_args "admin", timeout (obj sample_state))].
Proof.
  split; [reflexivity|].
  exact (session_failed_login_is_kept (fun _ _ _ => Return false) 0 0 sample_state
           sample_args "admin" eq_refl eq_refl eq_refl eq_refl).
Defined.

(** Property X3.  [set_login_credentials] forgets the stored session:
    the next access logs in once, with the new credentials and the new
    timeout, and stores and returns the new session, whatever was
    stored before. *)
Theorem session_after_set_login_credentials response fuel st a l tmo :
  login a = Some l ->
  response (calls st) (new_session a l) tmo = Return true ->
  exists st',
    session response (S (S fuel)) (set_login_credentials (Some a) tmo st) =
      Some (Return (Some (new_session a l)), st') /\
    _session (obj st') = Some (new_session a l) /\
    calls st' = calls st ++ [(new_session a l, tmo)].
Proof.
  intros Hl Hr. eexists.
  rewrite (session_fresh response fuel (set_login_credentials (Some a) tmo st) a l
             eq_refl eq_refl Hl).
  cbn [set_login_credentials _clear_switch_info set_session obj calls timeout].
  rewrite Hr. split; [reflexivity|]. split; reflexivity.
Qed.

Lemma session_after_set_login_credentials_witness :
  let accept := fun (_ : list (Session * option Z)) (_ : Session) (_ : option Z) =>
                  Return true in
  login sample_args = Some "admin" /\
  exists st',
    session accept 2 (set_login_credentials (Some sample_args) (Some 5%Z) sample_state) =
      Some (Return (Some (new_session sample_args "admin")), st') /\
    _session (obj st') = Some (new_session sample_args "admin") /\
    calls st' = calls sample_state ++ [(new_session sample_args "admin", Some 5%Z)].
Proof.
  split; [reflexivity|].
  exact (session_after_set_login_credentials (fun _ _ _ => Return true) 0 sample_state
           sample_args "admin" (Some 5%Z) eq_refl eq_refl).
Defined.

End Session.

(** ** The directory *)

Section Directory.
Import SearchObjectStore.
Local Open Scope store_scope.

Lemma Obj_children_ind (P : Obj -> Prop) :
  (forall o, Forall P (o_children o) -> P o) -> forall o, P o.
Proof.
  intros H. fix IH 1. intros o. apply H.
  destruct o as [i c isa n d a at' p cs rs]. cbn [o_children].
  induction cs as [|x cs IHcs]; constructor; [apply IH | apply IHcs].
Qed.

Lemma bind_Return {A B} (m : N A) (f : A -> N B) st x st' :
  m st = (Return x, st') -> bind m f st = f x st'.
Proof. intros H. unfold bind. rewrite H. reflexivity. Qed.

Lemma bind_Throw {A B} (m : N A) (f : A -> N B) st e st' :
  m st = (Throw e, st') -> bind m f st = (Throw e, st').
Proof. intros H. unfold bind. rewrite H. reflexivity. Qed.

Lemma _add_dir_entry_eq root :
  _add_dir_entry root =
  (let attrs := o_attributes root in
   when (negb (bool_decide (is_Some (attrs !! "dn")))) (print "no guid") ;;;
   let* guid := getitem attrs "dn" in
   let* s := get_store in
   when (bool_decide (is_Some (object_directory s !! guid)))
     (print ("Duplicate guid " +:+ guid)) ;;;
   directory_setitem guid root ;;;
   for_ (o_children root) _add_dir_entry ;;;
   let* s := get_store in
   when (negb (bool_decide (is_Some (map_class s !! o_class root))))
     (map_class_setitem (o_class root) []) ;;;
   let* s := get_store in
   let* l := getitem (map_class s) (o_class root) in
   map_class_setitem (o_class root) (l ++ [root]))%store.
Proof.
  destruct root as [i c isa n d a at' p cs rs]. cbn [_add_dir_entry o_children].
  cbv zeta.
  assert (H : for_ cs _add_dir_entry =
              (fix children_loop (children : list Obj) : N unit :=
                 match children with
                 | [] => ret tt
                 | child :: rest => _add_dir_entry child ;;; children_loop rest
                 end) cs).
  { induction cs as [|x cs IH]; [reflexivity|].
    cbn [for_]. rewrite IH. reflexivity. }
  rewrite H. reflexivity.
Qed.

Lemma added_nil st : added [] [] st = st.
Proof. destruct st as [[mc d] g out]. reflexivity. Qed.

Lemma added_app p1 p2 q1 q2 st :
  added (p1 ++ p2) (q1 ++ q2) st = added p2 q2 (added p1 q1 st).
Proof. unfold added. cbn. rewrite !foldl_app. by destruct (foldl dir_step _ p1). Qed.

Lemma class_entry mc o g out d :
  (let* s := get_store in
   when (negb (bool_decide (is_Some (map_class s !! o_class o))))
     (map_class_setitem (o_class o) []) ;;;
   let* s := get_store in
   let* l := getitem (map_class s) (o_class o) in
   map_class_setitem (o_class o) (l ++ [o]))%store
    {| store := {| map_class := mc; object_directory := d |};
       gui_x_reference := g; stdout := out |} =
  (Return tt, {| store := {| map_class := class_step mc o; object_directory := d |};
                 gui_x_reference := g; stdout := out |}).
Proof.
  unfold class_step.
  destruct (mc !! o_class o) as [l|] eqn:Hl.
  - unfold bind at 1. cbn [get_store store map_class]. rewrite Hl.
    rewrite (bool_decide_eq_true_2 _ (mk_is_Some _ _ eq_refl)). cbn.
    unfold getitem. rewrite Hl. reflexivity.
  - unfold bind at 1. cbn [get_store store map_class]. rewrite Hl.
    rewrite bool_decide_eq_false_2 by (intros [? [=]]). cbn.
    unfold getitem. rewrite lookup_insert_eq. cbn. by rewrite insert_insert_eq.
Qed.

Lemma tree_eq root : tree root = root :: flat_map tree (o_children root).
Proof. by destruct root. Qed.

Lemma postorder_eq root : postorder root = flat_map postorder (o_children root) ++ [root].
Proof. by destruct root. Qed.

Lemma class_entry_added o st :
  (let* s := get_store in
   when (negb (bool_decide (is_Some (map_class s !! o_class o))))
     (map_class_setitem (o_class o) []) ;;;
   let* s := get_store in
   let* l := getitem (map_class s) (o_class o) in
   map_class_setitem (o_class o) (l ++ [o]))%store st =
  (Return tt, added [] [o] st).
Proof. destruct st as [[mc d] g out]. apply class_entry. Qed.

Lemma dir_entry_head {A} root k (K : N A) st :
  o_attributes root !! "dn" = Some k ->
  (when (negb (bool_decide (is_Some (o_attributes root !! "dn")))) (print "no guid") ;;;
   let* guid := getitem (o_attributes root) "dn" in
   let* s := get_store in
   when (bool_decide (is_Some (object_directory s !! guid)))
     (print ("Duplicate guid " +:+ guid)) ;;;
   directory_setitem guid root ;;;
   K)%store st = K (added [root] [] st).
Proof.
  intros Hk. destruct st as [[mc d] g out].
  unfold added, dir_step, guid, getitem. cbn. rewrite !Hk. cbn.
  destruct (bool_decide (is_Some (d !! k))); reflexivity.
Qed.

Lemma dir_entry_no_dn {A} root (K : string -> N A) st :
  o_attributes root !! "dn" = None ->
  (when (negb (bool_decide (is_Some (o_attributes root !! "dn")))) (print "no guid") ;;;
   let* guid := getitem (o_attributes root) "dn" in
   K guid)%store st =
  (Throw (Builtin KeyError),
   {| store := store st; gui_x_reference := gui_x_reference st;
      stdout := stdout st ++ ["no guid"] |}).
Proof.
  intros Hk. unfold getitem. rewrite Hk.
  rewrite bool_decide_eq_false_2 by (intros [? [=]]). reflexivity.
Qed.

Lemma for_add_dir_entry_ok cs :
  Forall (fun o => forall st, forallb has_dn (tree o) = true ->
            _add_dir_entry o st = (Return tt, added (tree o) (postorder o) st)) cs ->
  forall st, forallb has_dn (flat_map tree cs) = true ->
  for_ cs _add_dir_entry st =
    (Return tt, added (flat_map tree cs) (flat_map postorder cs) st).
Proof.
  induction 1 as [|x cs Hx _ IHcs]; intros st Hdn.
  - by rewrite added_nil.
  - cbn [flat_map] in *. rewrite forallb_app in Hdn. apply andb_prop in Hdn as [H1 H2].
    cbn [for_]. rewrite (bind_Return _ _ _ _ _ (Hx st H1)).
    rewrite IHcs by done. by rewrite added_app.
Qed.

Lemma _add_dir_entry_ok root : forall st,
  forallb has_dn (tree root) = true ->
  _add_dir_entry root st = (Return tt, added (tree root) (postorder root) st).
Proof.
  induction root as [root IH] using Obj_children_ind. intros st Hdn.
  pose proof (for_add_dir_entry_ok _ IH) as Hloop.
  rewrite tree_eq in Hdn. cbn [forallb] in Hdn. apply andb_prop in Hdn as [H0 Hdn].
  apply bool_decide_eq_true_1 in H0 as [k Hk].
  rewrite _add_dir_entry_eq. cbv zeta.
  rewrite (dir_entry_head root k _ st Hk).
  rewrite (bind_Return _ _ _ _ _ (Hloop _ Hdn)).
  rewrite class_entry_added.
  rewrite tree_eq, postorder_eq.
  change (root :: flat_map tree (o_children root))
    with ([root] ++ flat_map tree (o_children root)).
  rewrite <- (app_nil_l (flat_map postorder (o_children root) ++ [root])).
  rewrite added_app.
  rewrite <- (app_nil_r (flat_map tree (o_children root))) at 2.
  by rewrite added_app.
Qed.

Lemma for_add_dir_entry_raise cs :
  Forall (fun o => forall st, forallb has_dn (tree o) = true ->
            _add_dir_entry o st = (Return tt, added (tree o) (postorder o) st)) cs ->
  Forall (fun o => forall st, forallb has_dn (tree o) = false ->
            exists st', _add_dir_entry o st = (Throw (Builtin KeyError), st')) cs ->
  forall st, forallb has_dn (flat_map tree cs) = false ->
  exists st', for_ cs _add_dir_entry st = (Throw (Builtin KeyError), st').
Proof.
  induction 1 as [|x cs Hx _ IHcs]; intros Hr st Hdn; [done|].
  apply Forall_cons_1 in Hr as [Hrx Hr].
  cbn [flat_map] in Hdn. rewrite forallb_app in Hdn. cbn [for_].
  destruct (forallb has_dn (tree x)) eqn:H1.
  - rewrite (bind_Return _ _ _ _ _ (Hx st eq_refl)). apply IHcs; done.
  - destruct (Hrx st eq_refl) as [st' Hst']. exists st'. by apply bind_Throw.
Qed.

Lemma _add_dir_entry_raise root : forall st,
  forallb has_dn (tree root) = false ->
  exists st', _add_dir_entry root st = (Throw (Builtin KeyError), st').
Proof.
  induction root as [root IH] using Obj_children_ind. intros st Hdn.
  rewrite tree_eq in Hdn. cbn [forallb] in Hdn.
  rewrite _add_dir_entry_eq. cbv zeta.
  destruct (o_attributes root !! "dn") as [k|] eqn:Hk.
  - unfold has_dn at 1 in Hdn. rewrite Hk in Hdn.
    rewrite (bool_decide_eq_true_2 _ (mk_is_Some _ _ eq_refl)) in Hdn. cbn in Hdn.
    rewrite <- Hk. rewrite (dir_entry_head root k _ st Hk).
    destruct (for_add_dir_entry_raise (o_children root)) with (st := added [root] [] st)
      as [st' Hst']; [|done|done|].
    + apply Forall_forall. intros o _. apply _add_dir_entry_ok.
    + exists st'. by apply bind_Throw.
  - eexists. rewrite <- Hk. apply dir_entry_no_dn. done.
Qed.

Lemma _create_object_directory_eq root st :
  _create_object_directory root st = _add_dir_entry root (reset_directory st).
Proof. reflexivity. Qed.

Lemma foldl_dir_step_lookup l : forall d out k,
  Forall (fun o => has_dn o = true) l ->
  (foldl dir_step (d, out) l).1 !! k =
    match last (with_guid k l) with Some o => Some o | None => d !! k end.
Proof.
  induction l as [|o l IH] using rev_ind; intros d out k Hl; [done|].
  apply Forall_app in Hl as [Hl Ho%Forall_inv].
  apply bool_decide_eq_true_1 in Ho as [g Hg].
  rewrite foldl_app. cbn [foldl]. unfold dir_step at 1. cbn [fst].
  unfold with_guid. rewrite filter_app, filter_cons, filter_nil.
  unfold guid. rewrite Hg. cbn [default].
  destruct (decide (g = k)) as [->|Hne].
  - rewrite lookup_insert_eq. rewrite decide_True by done. by rewrite last_snoc.
  - rewrite lookup_insert_ne by done. rewrite decide_False by congruence.
    rewrite app_nil_r. by apply IH.
Qed.

Lemma foldl_class_step_lookup l : forall mc c,
  default [] (foldl class_step mc l !! c) = default [] (mc !! c) ++ of_class c l.
Proof.
  induction l as [|o l IH] using rev_ind; intros mc c.
  - cbn. by rewrite app_nil_r.
  - rewrite foldl_app. cbn [foldl]. unfold class_step at 1, of_class.
    rewrite filter_app, filter_cons, filter_nil.
    destruct (decide (o_class o = c)) as [->|Hne].
    + rewrite lookup_insert_eq. cbn [default]. rewrite IH. by rewrite app_assoc.
    + rewrite lookup_insert_ne by done. rewrite app_nil_r. apply IH.
Qed.

Lemma foldl_dir_step_stdout l : forall d out,
  exists lines,
    (foldl dir_step (d, out) l).2 = out ++ lines /\
    Forall (fun line => exists o, o ∈ l /\ line = "Duplicate guid " +:+ guid o) lines /\
    length lines + size (dom (foldl dir_step (d, out) l).1) = size (dom d) + length l.
Proof.
  induction l as [|o l IH] using rev_ind; intros d out.
  - exists []. cbn. rewrite app_nil_r. repeat split; [constructor | lia].
  - destruct (IH d out) as (lines & Hout & Hlines & Hsize).
    rewrite foldl_app. cbn [foldl]. unfold dir_step at 1 3. cbn [fst snd].
    destruct (foldl dir_step (d, out) l) as [d' out'] eqn:Hf. cbn [fst snd] in *.
    subst out'. rewrite dom_insert_L, length_app. cbn [length].
    assert (Hl' : Forall (fun line => exists o0, o0 ∈ l ++ [o] /\
                     line = "Duplicate guid " +:+ guid o0) lines).
    { eapply Forall_impl; [exact Hlines|]. intros line (o0 & ? & ?).
      exists o0. split; [|done]. apply elem_of_app. by left. }
    destruct (d' !! guid o) as [x|] eqn:Hx.
    + rewrite (bool_decide_eq_true_2 _ (mk_is_Some _ _ eq_refl)).
      exists (lines ++ ["Duplicate guid " +:+ guid o]).
      rewrite app_assoc. split; [done|]. split.
      * apply Forall_app. split; [done|]. apply Forall_singleton.
        exists o. split; [|done]. apply elem_of_app. right. by apply list_elem_of_singleton.
      * rewrite length_app. cbn [length].
        assert (guid o ∈ dom d') by (apply elem_of_dom; eauto).
        assert ({[guid o]} ∪ dom d' = dom d') as ->
          by (by apply subseteq_union_1_L, singleton_subseteq_l).
        lia.
    + rewrite bool_decide_eq_false_2 by (intros [? [=]]).
      exists lines. split; [done|]. split; [done|].
      rewrite size_union by (by apply disjoint_singleton_l, not_elem_of_dom).
      rewrite size_singleton. lia.
Qed.

Lemma forallb_has_dn l : forallb has_dn l = true -> Forall (fun o => has_dn o = true) l.
Proof. intros H. apply Forall_forall. intros o Ho. 
  rewrite forallb_forall in H. apply H. by apply list_elem_of_In. Qed.

Lemma _create_object_directory_returns root st st' :
  _create_object_directory root st = (Return tt, st') ->
  forallb has_dn (tree root) = true /\
  st' = added (tree root) (postorder root) (reset_directory st).
Proof.
  rewrite _create_object_directory_eq. intros H.
  destruct (forallb has_dn (tree root)) eqn:Hdn.
  - rewrite _add_dir_entry_ok in H by done. by injection H as <-.
  - destruct (_add_dir_entry_raise root (reset_directory st) Hdn) as [st'' H'].
    congruence.
Qed.

(** Property X4.  [_create_object_directory] returns exactly when
    every object of the tree has the attribute ['dn']; otherwise it
    raises [KeyError]. *)
Theorem create_directory_needs_every_dn root st :
  (forallb has_dn (tree root) = true /\
   exists st', _create_object_directory root st = (Return tt, st')) \/
  (forallb has_dn (tree root) = false /\
   exists st', _create_object_directory root st = (Throw (Builtin KeyError), st')).
Proof.
  rewrite _create_object_directory_eq.
  destruct (forallb has_dn (tree root)) eqn:Hdn; [left | right]; (split; [done|]).
  - eexists. by apply _add_dir_entry_ok.
  - by apply _add_dir_entry_raise.
Qed.

Lemma sample_directory_built :
  _create_object_directory sample_fabric sample_state = (Return tt, sample_directory).
Proof.
  destruct (returned_inv (_create_object_directory sample_fabric sample_state))
    as [[] H]; [vm_compute; reflexivity | exact H].
Qed.

(** Property X5.  After [_create_object_directory] the directory holds,
    under each key, the last object of the tree (parents before their
    children) whose ['dn'] is that key, and nothing else: the entries
    of an earlier call are gone. *)
Theorem directory_holds_last_object_of_each_dn root st st' k :
  _create_object_directory root st = (Return tt, st') ->
  object_directory (store st') !! k = last (with_guid k (tree root)).
Proof.
  intros H. apply _create_object_directory_returns in H as [Hdn ->].
  unfold added. cbn [store object_directory reset_directory].
  rewrite foldl_dir_step_lookup by by apply forallb_has_dn.
  rewrite lookup_empty. by destruct (last _).
Qed.

Lemma directory_holds_last_object_of_each_dn_witness :
  _create_object_directory sample_fabric sample_state = (Return tt, sample_directory) /\
  object_directory (store sample_directory) !! "uni/tn-a" =
    last (with_guid "uni/tn-a" (tree sample_fabric)).
Proof.
  split; [exact sample_directory_built|].
  exact (directory_holds_last_object_of_each_dn sample_fabric sample_state
           sample_directory "uni/tn-a" sample_directory_built).
Defined.

(** Property X6.  [_create_object_directory] does not reset
    [map_class]: the list of a class is its list before the call,
    followed by the objects of that class in the tree, children before
    their parents.  A second call lists every object twice. *)
Theorem class_map_is_extended_not_rebuilt root st st' c :
  _create_object_directory root st = (Return tt, st') ->
  instances (store st') c = instances (store st) c ++ of_class c (postorder root).
Proof.
  intros H. apply _create_object_directory_returns in H as [Hdn ->].
  unfold instances, added. cbn [store map_class reset_directory].
  apply foldl_class_step_lookup.
Qed.

Lemma class_map_is_extended_not_rebuilt_witness :
  exists st',
    _create_object_directory sample_fabric sample_directory = (Return tt, st') /\
    instances (store st') "Tenant" =
      instances (store sample_directory) "Tenant" ++
      of_class "Tenant" (postorder sample_fabric).
Proof.
  destruct (returned_inv (_create_object_directory sample_fabric sample_directory))
    as [[] H]; [vm_compute; reflexivity|].
  eexists. split; [exact H|].
  exact (class_map_is_extended_not_rebuilt sample_fabric sample_directory _ "Tenant" H).
Defined.

(** Property X7.  A successful [_create_object_directory] prints only
    lines [Duplicate guid] for objects of the tree, and the number of
    these lines is the number of objects of the tree less the number
    of keys of the directory. *)
Theorem duplicate_guids_are_reported root st st' :
  _create_object_directory root st = (Return tt, st') ->
  exists lines,
    stdout st' = stdout st ++ lines /\
    Forall (fun line => exists o, o ∈ tree root /\ line = "Duplicate guid " +:+ guid o) lines /\
    length lines + size (dom (object_directory (store st'))) = length (tree root).
Proof.
  intros H. apply _create_object_directory_returns in H as [Hdn ->].
  unfold added. cbn [store stdout object_directory reset_directory].
  destruct (foldl_dir_step_stdout (tree root) ∅ (stdout st)) as (lines & H1 & H2 & H3).
  exists lines. rewrite dom_empty_L, size_empty in H3. done.
Qed.

Lemma duplicate_guids_are_reported_witness :
  _create_object_directory sample_fabric sample_state = (Return tt, sample_directory) /\
  exists lines,
    stdout sample_directory = stdout sample_state ++ lines /\
    Forall (fun line => exists o, o ∈ tree sample_fabric /\
                                  line = "Duplicate guid " +:+ guid o) lines /\
    length lines + size (dom (object_directory (store sample_directory))) =
      length (tree sample_fabric).
Proof.
  split; [exact sample_directory_built|].
  exact (duplicate_guids_are_reported sample_fabric sample_state sample_directory
           sample_directory_built).
Defined.

End Directory.

(** ** Short records *)

Section Short.
Import SearchObjectStore.
Local Open Scope store_scope.

Lemma get_by_uids_short_loop_cons uid rest result st :
  get_by_uids_short_loop (uid :: rest) result st =
    match short (store st) uid with
    | Some r => get_by_uids_short_loop rest (<[uid := r]> result) st
    | None => (Throw (Builtin KeyError), st)
    end.
Proof.
  cbn [get_by_uids_short_loop]. unfold short, brief, bind at 1, get_store. cbn [fst snd].
  unfold bind at 1, getitem at 1.
  destruct (object_directory (store st) !! uid) as [o|]; [|reflexivity]. cbn.
  unfold bind at 1, getitem at 1.
  destruct (o_attributes o !! "name") as [n|]; [|reflexivity]. cbn.
  unfold bind at 1, getitem at 1.
  destruct (o_attributes o !! "dn") as [d|]; reflexivity.
Qed.

Lemma get_by_uids_short_loop_returns uids : forall result st m st',
  get_by_uids_short_loop uids result st = (Return m, st') ->
  st' = st /\
  forall uid, m !! uid = if bool_decide (uid ∈ uids) then short (store st) uid
                         else result !! uid.
Proof.
  induction uids as [|u rest IH]; intros result st m st' H.
  - injection H as <- <-. split; [done|]. intros uid.
    rewrite bool_decide_eq_false_2; [done|]. apply not_elem_of_nil.
  - rewrite get_by_uids_short_loop_cons in H.
    destruct (short (store st) u) as [r|] eqn:Hr; [|done].
    apply IH in H as [-> H]. split; [done|]. intros uid. rewrite H.
    destruct (decide (uid = u)) as [->|Hne].
    + rewrite (bool_decide_eq_true_2 (u ∈ u :: rest)) by apply list_elem_of_here.
      rewrite lookup_insert_eq, Hr. by destruct (bool_decide _).
    + rewrite lookup_insert_ne by done.
      destruct (decide (uid ∈ rest)) as [Hin|Hin].
      * rewrite !bool_decide_eq_true_2; [done| |done]. by apply list_elem_of_further.
      * rewrite !bool_decide_eq_false_2; [done| |done].
        intros [?|?]%elem_of_cons; done.
Qed.

Lemma get_by_uids_short_loop_raises uids : forall result st uid,
  uid ∈ uids -> short (store st) uid = None ->
  get_by_uids_short_loop uids result st = (Throw (Builtin KeyError), st).
Proof.
  induction uids as [|u rest IH]; intros result st uid Hin Hs.
  - by apply elem_of_nil in Hin.
  - rewrite get_by_uids_short_loop_cons.
    destruct (short (store st) u) as [r|] eqn:Hr; [|done].
    apply elem_of_cons in Hin as [->|Hin]; [congruence|]. by apply (IH _ _ uid).
Qed.

Lemma get_by_uids_short_loop_ok uids : forall result st,
  Forall (fun uid => is_Some (short (store st) uid)) uids ->
  exists m, get_by_uids_short_loop uids result st = (Return m, st).
Proof.
  induction uids as [|u rest IH]; intros result st Hall.
  - by eexists.
  - apply Forall_cons_1 in Hall as [[r Hr] Hall].
    rewrite get_by_uids_short_loop_cons, Hr. by apply IH.
Qed.

(** Property X8.  When [get_by_uids_short] returns, the store is
    unchanged and the result has exactly the given uids as keys, each
    with the record of class, name and dn of the object that the
    directory has under it. *)
Theorem get_by_uids_short_records uids st m st' :
  get_by_uids_short uids st = (Return m, st') ->
  st' = st /\
  forall uid, m !! uid = if bool_decide (uid ∈ uids) then short (store st) uid else None.
Proof.
  intros H. apply get_by_uids_short_loop_returns in H as [-> H]. split; [done|].
  intros uid. rewrite H, lookup_empty. done.
Qed.

Lemma get_by_uids_short_records_witness :
  exists m st',
    get_by_uids_short ["uni/tn-a"; "topology"] sample_directory = (Return m, st') /\
    st' = sample_directory /\
    forall uid, m !! uid =
      if bool_decide (uid ∈ ["uni/tn-a"; "topology"])
      then short (store sample_directory) uid else None.
Proof.
  destruct (returned_inv (get_by_uids_short ["uni/tn-a"; "topology"] sample_directory))
    as [m H]; [vm_compute; reflexivity|].
  exists m. eexists. split; [exact H|].
  exact (get_by_uids_short_records _ _ _ _ H).
Defined.

(** Property X9.  [get_by_uids_short] returns when every uid is in the
    directory with an object that has a ['name'] and a ['dn'];
    otherwise it raises [KeyError], and the state is unchanged. *)
Theorem get_by_uids_short_needs_every_uid uids st :
  (Forall (fun uid => is_Some (short (store st) uid)) uids /\
   exists m, get_by_uids_short uids st = (Return m, st)) \/
  (Exists (fun uid => short (store st) uid = None) uids /\
   get_by_uids_short uids st = (Throw (Builtin KeyError), st)).
Proof.
  destruct (decide (Forall (fun uid => is_Some (short (store st) uid)) uids)) as [H|H].
  - left. split; [done|]. by apply get_by_uids_short_loop_ok.
  - right. apply not_Forall_Exists in H; [|apply _].
    assert (H' : Exists (fun uid => short (store st) uid = None) uids).
    { eapply Exists_impl; [exact H|]. intros uid Hn. cbn in Hn.
      destruct (short (store st) uid); [|done]. by destruct Hn. }
    split; [done|]. apply Exists_exists in H' as (uid & Hin & Hs).
    by apply (get_by_uids_short_loop_raises _ _ _ uid).
Qed.

Lemma filter_none {A} (P : A -> Prop) `{!forall x, Decision (P x)} (l : list A) :
  (forall x, x ∈ l -> ~ P x) -> filter P l = [].
Proof.
  induction l as [|x l IH]; intros Hn; [done|].
  rewrite filter_cons_False by (apply Hn, list_elem_of_here).
  apply IH. intros y Hy. by apply Hn, list_elem_of_further.
Qed.

Lemma dn_guid x k :
  has_dn x = true -> (o_attributes x !! "dn" = Some k <-> guid x = k).
Proof.
  intros [g Hg]%bool_decide_eq_true_1. unfold guid. rewrite Hg. cbn.
  split; congruence.
Qed.

Lemma with_guid_unique l : forall o,
  Forall (fun o => has_dn o = true) l ->
  NoDup (guid <$> l) -> o ∈ l -> with_guid (guid o) l = [o].
Proof.
  induction l as [|x l IH]; intros o Hdn Hnd Hin; [by apply elem_of_nil in Hin|].
  apply Forall_cons_1 in Hdn as [Hx Hdn]. rewrite fmap_cons in Hnd.
  apply NoDup_cons in Hnd as [Hnx Hnd].
  assert (Hnone : forall y, y ∈ l -> guid y <> guid x).
  { intros y Hy Heq. apply Hnx. rewrite <- Heq. by apply list_elem_of_fmap_2. }
  unfold with_guid.
  apply elem_of_cons in Hin as [->|Hin].
  - rewrite filter_cons_True by by apply dn_guid.
    f_equal. apply filter_none. intros y Hy Hk.
    apply (Hnone y Hy). apply dn_guid; [|done].
    rewrite Forall_forall in Hdn. by apply Hdn.
  - rewrite filter_cons_False.
    + by apply IH.
    + intros Hk. apply dn_guid in Hk; [|done]. by apply (Hnone o Hin).
Qed.

(** Property X10.  After [_create_object_directory] on a tree whose dn
    are distinct, [get_by_uids_short] of the dn of an object of the
    tree gives the class, the name and the dn of that object. *)
Theorem directory_round_trip root st st' o n :
  _create_object_directory root st = (Return tt, st') ->
  NoDup (guid <$> tree root) -> o ∈ tree root ->
  o_attributes o !! "name" = Some n ->
  get_by_uids_short [guid o] st' =
    (Return {[ guid o := {| b_class := o_class o; b_name := n; b_dn := guid o |} ]}, st').
Proof.
  intros H Hnd Hin Hn.
  destruct (_create_object_directory_returns _ _ _ H) as [Hdn Hst].
  apply forallb_has_dn in Hdn.
  assert (Hd : object_directory (store st') !! guid o = Some o).
  { rewrite Hst. unfold added. cbn [store object_directory reset_directory].
    rewrite foldl_dir_step_lookup by done.
    by rewrite with_guid_unique. }
  unfold get_by_uids_short. rewrite get_by_uids_short_loop_cons.
  unfold short. rewrite Hd. cbn. unfold brief. rewrite Hn. cbn.
  assert (Ho : has_dn o = true) by (rewrite Forall_forall in Hdn; by apply Hdn).
  apply bool_decide_eq_true_1 in Ho as [g Hg].
  unfold guid. rewrite Hg. cbn. reflexivity.
Qed.

Lemma directory_round_trip_witness :
  _create_object_directory sample_fabric sample_state = (Return tt, sample_directory) /\
  NoDup (guid <$> tree sample_fabric) /\
  sample_bd ∈ tree sample_fabric /\
  o_attributes sample_bd !! "name" = Some "bd1" /\
  get_by_uids_short [guid sample_bd] sample_directory =
    (Return {[ guid sample_bd :=
                 {| b_class := o_class sample_bd; b_name := "bd1";
                    b_dn := guid sample_bd |} ]}, sample_directory).
Proof.
  assert (Hnd : NoDup (guid <$> tree sample_fabric))
    by (refine (bool_decide_unpack _ _); vm_compute; exact I).
  assert (Hin : sample_bd ∈ tree sample_fabric)
    by (apply list_elem_of_further, list_elem_of_further, list_elem_of_here).
  assert (Hn : o_attributes sample_bd !! "name" = Some "bd1")
    by (vm_compute; reflexivity).
  split; [exact sample_directory_built|]. split; [exact Hnd|]. split; [exact Hin|].
  split; [exact Hn|].
  exact (directory_round_trip sample_fabric sample_state sample_directory sample_bd
           "bd1" sample_directory_built Hnd Hin Hn).
Defined.

End Short.

(** ** Relations *)

Section Relations.
Import SearchObjectStore.
Local Open Scope store_scope.

Lemma child_name_run child st :
  (if isinstance child "BridgeDomain" || isinstance child "Context" then
     let* pn := parent_name child in
     ret (pn +:+ ":" +:+ o_name child)
   else ret (o_name child))%store st =
  match child_name child with
  | Some n => (Return n, st)
  | None => (Throw AttributeError, st)
  end.
Proof.
  unfold child_name, parent_name.
  destruct (isinstance child "BridgeDomain" || isinstance child "Context"); [|done].
  by destruct (o_parent child).
Qed.

Lemma _add_relation_ok t child parent n st :
  child_name child = Some n ->
  _add_relation t (Some child) (Some parent) st =
    (Return tt, related t (record_of_child child n) parent st).
Proof.
  intros Hn. destruct st as [s g out].
  unfold _add_relation.
  unfold bind at 1, gui_has. cbn [gui_x_reference fst snd].
  unfold related. cbn [gui_x_reference store stdout].
  destruct (g !! o_id parent) as [d|] eqn:Hd.
  - rewrite (bool_decide_eq_true_2 _ (mk_is_Some _ _ eq_refl)). cbn [negb when from_option id].
    unfold bind at 1. cbn [ret].
    unfold bind at 1. rewrite child_name_run, Hn.
    unfold bind at 1, gui_get at 1. cbn [gui_x_reference]. rewrite Hd.
    destruct (d !! t) as [l|] eqn:Hl; cbn [from_option id].
    + rewrite (bool_decide_eq_true_2 _ (mk_is_Some _ _ eq_refl)). cbn [negb when from_option id].
      unfold bind at 1. cbn [ret].
      unfold bind at 1, gui_get at 1. cbn [gui_x_reference]. rewrite Hd.
      unfold bind at 1, getitem at 1. rewrite Hl. cbn [ret].
      fold (record_of_child child n). fold (known (record_of_child child n) l).
      destruct (known (record_of_child child n) l); [done|].
      unfold bind at 1, gui_get at 1. cbn [gui_x_reference]. rewrite Hd.
      unfold bind at 1, getitem at 1. rewrite Hl. cbn [ret]. reflexivity.
    + rewrite bool_decide_eq_false_2 by (intros [? [=]]). cbn [negb when from_option id known existsb].
      unfold bind at 1, gui_set at 1. cbn [gui_x_reference store stdout].
      unfold bind at 1, gui_get at 1. cbn [gui_x_reference]. rewrite lookup_insert_eq.
      unfold bind at 1, getitem at 1. rewrite lookup_insert_eq. cbn [ret existsb].
      unfold bind at 1, gui_get at 1. cbn [gui_x_reference]. rewrite lookup_insert_eq.
      unfold bind at 1, getitem at 1. rewrite lookup_insert_eq. cbn [ret].
      unfold gui_set. cbn [gui_x_reference store stdout].
      by rewrite !insert_insert_eq.
  - rewrite bool_decide_eq_false_2 by (intros [? [=]]). cbn [negb when from_option id].
    rewrite lookup_empty. cbn [from_option id known existsb].
    unfold bind at 1, gui_set at 1. cbn [gui_x_reference store stdout].
    unfold bind at 1. rewrite child_name_run, Hn.
    unfold bind at 1, gui_get at 1. cbn [gui_x_reference]. rewrite lookup_insert_eq.
    rewrite lookup_empty.
    rewrite bool_decide_eq_false_2 by (intros [? [=]]). cbn [negb when].
    unfold bind at 1, gui_set at 1. cbn [gui_x_reference store stdout].
    unfold bind at 1, gui_get at 1. cbn [gui_x_reference]. rewrite lookup_insert_eq.
    unfold bind at 1, getitem at 1. rewrite lookup_insert_eq. cbn [ret existsb].
    unfold bind at 1, gui_get at 1. cbn [gui_x_reference]. rewrite lookup_insert_eq.
    unfold bind at 1, getitem at 1. rewrite lookup_insert_eq. cbn [ret].
    unfold gui_set. cbn [gui_x_reference store stdout].
    by rewrite !insert_insert_eq.
Qed.

Lemma _add_relation_raise t child parent st :
  child_name child = None ->
  exists st', _add_relation t (Some child) (Some parent) st = (Throw AttributeError, st') /\
              store st' = store st /\ stdout st' = stdout st.
Proof.
  intros Hn. unfold _add_relation.
  unfold bind at 1, gui_has. cbn [fst snd].
  destruct (bool_decide (is_Some (gui_x_reference st !! o_id parent))); cbn [negb when].
  - unfold bind at 1. cbn [ret]. unfold bind at 1. rewrite child_name_run, Hn. by eexists.
  - unfold bind at 1, gui_set at 1. unfold bind at 1. rewrite child_name_run, Hn.
    by eexists.
Qed.

Lemma xrefs_related t r p st o' t' :
  xrefs (related t r p st) o' t' =
    if bool_decide (o_id o' = o_id p /\ t' = t)
    then (if known r (xrefs st p t) then xrefs st p t else xrefs st p t ++ [r])
    else xrefs st o' t'.
Proof.
  unfold related. fold (xrefs st p t).
  destruct (known r (xrefs st p t)) eqn:Hk.
  - case_bool_decide as H; [|done]. destruct H as [H ->]. unfold xrefs. by rewrite H.
  - unfold xrefs at 1. cbn [gui_x_reference].
    case_bool_decide as H.
    + destruct H as [-> ->]. rewrite lookup_insert_eq. cbn. by rewrite lookup_insert_eq.
    + destruct (decide (o_id o' = o_id p)) as [Hid|Hid].
      * rewrite Hid, lookup_insert_eq. cbn.
        rewrite lookup_insert_ne by (intros ->; by apply H).
        unfold xrefs. by rewrite Hid.
      * by rewrite lookup_insert_ne.
Qed.

Lemma known_spec r l : known r l = true <-> b_dn r ∈ b_dn <$> l.
Proof.
  unfold known. rewrite existsb_exists. split.
  - intros (x & Hx & ->%String.eqb_eq). apply list_elem_of_fmap_2. by apply list_elem_of_In.
  - intros (x & -> & Hx)%list_elem_of_fmap. exists x.
    split; [by apply list_elem_of_In | apply String.eqb_refl].
Qed.

Lemma related_store t r p st : store (related t r p st) = store st.
Proof. unfold related. by destruct (known _ _). Qed.

Lemma related_stdout t r p st : stdout (related t r p st) = stdout st.
Proof. unfold related. by destruct (known _ _). Qed.

Lemma related_idem t r p st : related t r p (related t r p st) = related t r p st.
Proof.
  assert (Hk : known r (xrefs (related t r p st) p t) = true).
  { rewrite xrefs_related. rewrite bool_decide_eq_true_2 by done.
    destruct (known r (xrefs st p t)) eqn:Hk; [done|].
    apply known_spec. rewrite fmap_app. apply elem_of_app. right.
    apply list_elem_of_here. }
  unfold related at 1. fold (xrefs (related t r p st) p t). by rewrite Hk.
Qed.

Lemma _add_relation_returns t child_obj parent_obj st st' :
  _add_relation t child_obj parent_obj st = (Return tt, st') ->
  exists child parent n,
    child_obj = Some child /\ parent_obj = Some parent /\ child_name child = Some n /\
    st' = related t (record_of_child child n) parent st.
Proof.
  intros H. destruct parent_obj as [parent|]; [|done].
  destruct child_obj as [child|].
  - destruct (child_name child) as [n|] eqn:Hn.
    + rewrite (_add_relation_ok _ _ _ n) in H by done. injection H as <-. eauto 10.
    + destruct (_add_relation_raise t child parent st Hn) as (st'' & H' & _). congruence.
  - exfalso. revert H. unfold _add_relation, bind, gui_has, when, gui_set.
    cbn [fst snd]. by destruct (negb _).
Qed.

(** Property X11.  [_add_relation] returns exactly when both objects
    are given and the child, if it is a bridge domain or a context, has
    a parent; otherwise it raises [AttributeError], and neither the
    store nor the output is changed. *)
Theorem add_relation_needs_both_objects t child_obj parent_obj st :
  (exists child parent n,
     child_obj = Some child /\ parent_obj = Some parent /\ child_name child = Some n /\
     exists st', _add_relation t child_obj parent_obj st = (Return tt, st')) \/
  ((parent_obj = None \/ child_obj ≫= child_name = None) /\
   exists st', _add_relation t child_obj parent_obj st = (Throw AttributeError, st') /\
               store st' = store st /\ stdout st' = stdout st).
Proof.
  destruct parent_obj as [parent|].
  2:{ right. split; [by left|]. by exists st. }
  destruct child_obj as [child|].
  2:{ right. split; [by right|]. unfold _add_relation, bind, gui_has, when, gui_set.
      cbn [fst snd]. destruct (negb _); by eexists. }
  destruct (child_name child) as [n|] eqn:Hn.
  - left. exists child, parent, n. repeat split; [done|]. eexists. by apply _add_relation_ok.
  - right. split; [by right|]. by apply _add_relation_raise.
Qed.

Lemma sample_child_name : child_name sample_bd = Some "a:bd1".
Proof. vm_compute. reflexivity. Qed.

(** Property X12.  [_add_relation] appends the record of the child to
    the list of the relationship type of the parent, unless that list
    has a record with the dn of the child; every other list, the store
    and the output stay as they are. *)
Theorem add_relation_appends_new_dn t child parent n st :
  child_name child = Some n ->
  exists st',
    _add_relation t (Some child) (Some parent) st = (Return tt, st') /\
    store st' = store st /\ stdout st' = stdout st /\
    forall o' t',
      xrefs st' o' t' =
        if bool_decide (o_id o' = o_id parent /\ t' = t)
        then (if bool_decide (o_dn child ∈ b_dn <$> xrefs st parent t)
              then xrefs st parent t
              else xrefs st parent t ++ [record_of_child child n])
        else xrefs st o' t'.
Proof.
  intros Hn. eexists. split; [by apply _add_relation_ok|].
  split; [apply related_store|]. split; [apply related_stdout|].
  intros o' t'. rewrite xrefs_related.
  destruct (known (record_of_child child n) (xrefs st parent t)) eqn:Hk.
  - apply known_spec in Hk. cbn [record_of_child b_dn] in Hk.
    by rewrite (bool_decide_eq_true_2 (o_dn child ∈ _)).
  - rewrite (bool_decide_eq_false_2 (o_dn child ∈ _)); [done|].
    intros Hin. apply (known_spec (record_of_child child n)) in Hin. congruence.
Qed.

Lemma add_relation_appends_new_dn_witness :
  child_name sample_bd = Some "a:bd1" /\
  exists st',
    _add_relation "bridge domains" (Some sample_bd) (Some sample_tenant) sample_state =
      (Return tt, st') /\
    store st' = store sample_state /\ stdout st' = stdout sample_state /\
    forall o' t',
      xrefs st' o' t' =
        if bool_decide (o_id o' = o_id sample_tenant /\ t' = "bridge domains")
        then (if bool_decide (o_dn sample_bd ∈
                                b_dn <$> xrefs sample_state sample_tenant "bridge domains")
              then xrefs sample_state sample_tenant "bridge domains"
              else xrefs sample_state sample_tenant "bridge domains" ++
                   [record_of_child sample_bd "a:bd1"])
        else xrefs sample_state o' t'.
Proof.
  split; [exact sample_child_name|].
  exact (add_relation_appends_new_dn "bridge domains" sample_bd sample_tenant "a:bd1"
           sample_state sample_child_name).
Defined.

(** Property X13.  [_add_relation] is idempotent: a second call with
    the same arguments changes nothing. *)
Theorem add_relation_idempotent t child_obj parent_obj st st' :
  _add_relation t child_obj parent_obj st = (Return tt, st') ->
  _add_relation t child_obj parent_obj st' = (Return tt, st').
Proof.
  intros H.
  destruct (_add_relation_returns _ _ _ _ _ H) as (child & parent & n & -> & -> & Hn & ->).
  rewrite (_add_relation_ok _ _ _ n) by done. by rewrite related_idem.
Qed.

Lemma add_relation_idempotent_witness :
  exists st',
    _add_relation "tenant" (Some sample_tenant) (Some sample_app) sample_state =
      (Return tt, st') /\
    _add_relation "tenant" (Some sample_tenant) (Some sample_app) st' = (Return tt, st').
Proof.
  destruct (returned_inv (_add_relation "tenant" (Some sample_tenant) (Some sample_app)
                            sample_state)) as [[] H]; [vm_compute; reflexivity|].
  eexists. split; [exact H|].
  exact (add_relation_idempotent "tenant" (Some sample_tenant) (Some sample_app)
           sample_state _ H).
Defined.

(** Property X14.  [_add_relation] keeps the dn of the records of
    every cross reference list distinct. *)
Theorem add_relation_keeps_dns_unique t child_obj parent_obj st st' :
  (forall o' t', NoDup (b_dn <$> xrefs st o' t')) ->
  _add_relation t child_obj parent_obj st = (Return tt, st') ->
  forall o' t', NoDup (b_dn <$> xrefs st' o' t').
Proof.
  intros Hnd H o' t'.
  destruct (_add_relation_returns _ _ _ _ _ H) as (child & parent & n & -> & -> & Hn & ->).
  rewrite xrefs_related. case_bool_decide; [|done].
  destruct (known _ _) eqn:Hk; [done|].
  rewrite fmap_app. apply NoDup_app. split; [done|]. split.
  - intros x Hx [->|Hx']%elem_of_cons; [|by apply elem_of_nil in Hx'].
    apply (known_spec (record_of_child child n)) in Hx. congruence.
  - apply NoDup_singleton.
Qed.

Lemma add_relation_keeps_dns_unique_witness :
  (forall o' t', NoDup (b_dn <$> xrefs sample_state o' t')) /\
  exists st',
    _add_relation "tenant" (Some sample_tenant) (Some sample_app) sample_state =
      (Return tt, st') /\
    forall o' t', NoDup (b_dn <$> xrefs st' o' t').
Proof.
  assert (H0 : forall o' t', NoDup (b_dn <$> xrefs sample_state o' t'))
    by (intros o' t'; apply NoDup_nil_2).
  destruct (returned_inv (_add_relation "tenant" (Some sample_tenant) (Some sample_app)
                            sample_state)) as [[] H]; [vm_compute; reflexivity|].
  split; [exact H0|]. eexists. split; [exact H|].
  exact (add_relation_keeps_dns_unique "tenant" (Some sample_tenant) (Some sample_app)
           sample_state _ H0 H).
Defined.

End Relations.

(** ** Cross references *)

Section CrossReference.
Import SearchObjectStore.
Local Open Scope store_scope.

Lemma keeps_ret {A} (x : A) : keeps (ret x).
Proof. by intros st. Qed.

Lemma keeps_throw {A} e : keeps (@throw A e).
Proof. by intros st. Qed.

Lemma keeps_bind {A B} (m : N A) (f : A -> N B) :
  keeps m -> (forall x, keeps (f x)) -> keeps (bind m f).
Proof.
  intros Hm Hf st. unfold bind. specialize (Hm st).
  destruct (m st) as [[x|e] st1]; cbn [snd] in *; [|done].
  by rewrite Hf.
Qed.

Lemma keeps_for {A} (l : list A) (body : A -> N unit) :
  (forall x, keeps (body x)) -> keeps (for_ l body).
Proof.
  intros Hb. induction l as [|x l IH]; [apply keeps_ret|].
  cbn [for_]. apply keeps_bind; [apply Hb | by intros _].
Qed.

Lemma keeps_when b (body : N unit) : keeps body -> keeps (when b body).
Proof. intros Hb. destruct b; [done | apply keeps_ret]. Qed.

Lemma keeps_print line : keeps (print line).
Proof. by intros st. Qed.

Lemma keeps_getitem {V} (d : gmap string V) k : keeps (getitem d k).
Proof. intros st. unfold getitem. by destruct (d !! k). Qed.

Lemma keeps_get_store : keeps get_store.
Proof. by intros st. Qed.

Lemma keeps_parent_name o : keeps (parent_name o).
Proof. intros st. unfold parent_name. by destruct (o_parent o). Qed.

Lemma keeps_add_relation t child_obj parent_obj :
  keeps (_add_relation t child_obj parent_obj).
Proof.
  intros st. destruct parent_obj as [parent|]; [|done].
  destruct child_obj as [child|].
  - destruct (child_name child) as [n|] eqn:Hn.
    + rewrite (_add_relation_ok _ _ _ n) by done. apply related_store.
    + destruct (_add_relation_raise t child parent st Hn) as (st' & -> & Hs & _). done.
  - unfold _add_relation, bind, gui_has, when, gui_set. cbn [fst snd].
    by destruct (negb _).
Qed.

Lemma keeps_map_class_get_or_empty cls : keeps (map_class_get_or_empty cls).
Proof. by intros st. Qed.

Lemma keeps_for_concrete_bds body :
  (forall x, keeps (body x)) -> keeps (for_concrete_bds body).
Proof.
  intros Hb. apply keeps_bind; [apply keeps_map_class_get_or_empty|].
  intros cbds. by apply keeps_for.
Qed.

Ltac keeps_step :=
  first
    [ apply keeps_ret | apply keeps_throw | apply keeps_print | apply keeps_getitem
    | apply keeps_get_store | apply keeps_parent_name | apply keeps_add_relation
    | apply keeps_map_class_get_or_empty
    | apply keeps_bind; [|intros ?] | apply keeps_for; intros ?
    | apply keeps_for_concrete_bds; intros ? | apply keeps_when
    | match goal with |- keeps (match ?x with _ => _ end) => destruct x end
    | progress cbv zeta ].

(** The five loops of [_cross_reference_objects]. *)
Lemma keeps_cross_reference_objects : keeps _cross_reference_objects.
Proof. unfold _cross_reference_objects. repeat keeps_step. Qed.

Lemma fails_bind_l {A B} s (m : N A) (f : A -> N B) :
  fails_on s m -> fails_on s (bind m f).
Proof.
  intros Hm st Hs. destruct (Hm st Hs) as (e & st' & H).
  exists e, st'. by apply bind_Throw.
Qed.

Lemma fails_bind_r {A B} s (m : N A) (f : A -> N B) :
  keeps m -> (forall x, fails_on s (f x)) -> fails_on s (bind m f).
Proof.
  intros Hm Hf st Hs. unfold bind. specialize (Hm st).
  destruct (m st) as [[x|e] st1]; cbn [snd] in *; [|by eauto].
  apply Hf. congruence.
Qed.

Lemma fails_getitem {B} s c (f : list Obj -> N B) :
  map_class s !! c = None ->
  fails_on s (let* s := get_store in let* l := getitem (map_class s) c in f l).
Proof.
  intros Hc st <-. unfold bind, get_store, getitem. cbn [fst snd]. rewrite Hc.
  by eexists _, _.
Qed.

Lemma _cross_reference_objects_fails s c :
  c ∈ ["BridgeDomain"; "Context"; "EPG"] -> map_class s !! c = None ->
  fails_on s _cross_reference_objects.
Proof.
  intros Hc Hs. unfold _cross_reference_objects.
  apply fails_bind_r; [repeat keeps_step | intros _].
  apply elem_of_cons in Hc as [->|Hc].
  { apply fails_bind_l. intros st <-. unfold bind, get_store. cbn [fst snd].
    rewrite Hs. by eexists _, _. }
  apply fails_bind_r; [repeat keeps_step | intros _].
  apply elem_of_cons in Hc as [->|Hc].
  { apply fails_bind_l. by apply fails_getitem. }
  apply fails_bind_r; [repeat keeps_step | intros _].
  apply fails_bind_r; [repeat keeps_step | intros _].
  apply list_elem_of_singleton in Hc as ->.
  by apply fails_getitem.
Qed.

Lemma get_by_uids_short_loop_store uids : forall result st1 st2,
  store st1 = store st2 ->
  (get_by_uids_short_loop uids result st1).1 = (get_by_uids_short_loop uids result st2).1.
Proof.
  induction uids as [|u rest IH]; intros result st1 st2 Hs; [done|].
  rewrite !get_by_uids_short_loop_cons, Hs.
  destruct (short (store st2) u); [by apply IH | done].
Qed.

Lemma sample_directory_no_context :
  map_class (store sample_directory) !! "Context" = None.
Proof. vm_compute. reflexivity. Qed.

(** Property X15.  [_cross_reference_objects] raises when [map_class]
    has no entry for [BridgeDomain], for [Context] or for [EPG]; the
    class map and the directory are the same afterwards. *)
Theorem cross_reference_needs_class_lists st c :
  c ∈ ["BridgeDomain"; "Context"; "EPG"] -> map_class (store st) !! c = None ->
  exists e st', _cross_reference_objects st = (Throw e, st') /\ store st' = store st.
Proof.
  intros Hc Hs.
  destruct (_cross_reference_objects_fails _ c Hc Hs st eq_refl) as (e & st' & H).
  exists e, st'. split; [done|].
  pose proof (keeps_cross_reference_objects st) as Hk. by rewrite H in Hk.
Qed.

Lemma cross_reference_needs_class_lists_witness :
  "Context" ∈ ["BridgeDomain"; "Context"; "EPG"] /\
  map_class (store sample_directory) !! "Context" = None /\
  exists e st', _cross_reference_objects sample_directory = (Throw e, st') /\
                store st' = store sample_directory.
Proof.
  assert (Hc : "Context" ∈ ["BridgeDomain"; "Context"; "EPG"])
    by apply list_elem_of_further, list_elem_of_here.
  split; [exact Hc|]. split; [exact sample_directory_no_context|].
  exact (cross_reference_needs_class_lists sample_directory "Context" Hc
           sample_directory_no_context).
Defined.

(** Property X16.  Whatever its outcome, [_cross_reference_objects]
    changes neither the class map nor the directory, so every
    [get_by_uids_short] gives the same result after it as before. *)
Theorem cross_reference_keeps_store st :
  store (_cross_reference_objects st).2 = store st /\
  forall uids,
    (get_by_uids_short uids (_cross_reference_objects st).2).1 =
    (get_by_uids_short uids st).1.
Proof.
  split; [apply keeps_cross_reference_objects|].
  intros uids. apply get_by_uids_short_loop_store, keeps_cross_reference_objects.
Qed.

Lemma elem_of_postorder root : forall o, o ∈ postorder root <-> o ∈ tree root.
Proof.
  induction root as [root IH] using Obj_children_ind. intros o.
  rewrite tree_eq, postorder_eq, elem_of_app, list_elem_of_singleton, elem_of_cons.
  assert (H : o ∈ flat_map postorder (o_children root) <->
              o ∈ flat_map tree (o_children root)).
  { induction IH as [|x cs Hx _ IHcs]; [done|].
    cbn [flat_map]. by rewrite !elem_of_app, Hx, IHcs. }
  rewrite H. tauto.
Qed.

Lemma foldl_class_step_None l : forall mc c,
  mc !! c = None -> (forall o, o ∈ l -> o_class o <> c) ->
  foldl class_step mc l !! c = None.
Proof.
  induction l as [|o l IH]; intros mc c Hmc Hl; [done|].
  cbn [foldl]. apply IH.
  - unfold class_step. rewrite lookup_insert_ne; [done|].
    apply Hl, list_elem_of_here.
  - intros o' Ho'. by apply Hl, list_elem_of_further.
Qed.

(** Property X17.  [add_atk_objects] raises for a tree with no object
    of class [BridgeDomain], or none of class [Context], or none of
    class [EPG], when the class map has no entry for that class
    either. *)
Theorem add_atk_objects_needs_three_classes root st c :
  c ∈ ["BridgeDomain"; "Context"; "EPG"] ->
  map_class (store st) !! c = None ->
  (forall o, o ∈ tree root -> o_class o <> c) ->
  exists e st', add_atk_objects root st = (Throw e, st').
Proof.
  intros Hc Hs Hno. unfold add_atk_objects.
  destruct (_create_object_directory root st) as [[[]|e] st1] eqn:H1.
  - rewrite (bind_Return _ _ _ _ _ H1).
    apply (_cross_reference_objects_fails (store st1) c Hc); [|done].
    apply _create_object_directory_returns in H1 as [_ ->].
    unfold added. cbn [store map_class reset_directory].
    apply foldl_class_step_None; [done|].
    intros o Ho. by apply Hno, elem_of_postorder.
  - exists e, st1. by apply bind_Throw.
Qed.

Lemma add_atk_objects_needs_three_classes_witness :
  "EPG" ∈ ["BridgeDomain"; "Context"; "EPG"] /\
  map_class (store sample_state) !! "EPG" = None /\
  (forall o, o ∈ tree sample_fabric -> o_class o <> "EPG") /\
  exists e st', add_atk_objects sample_fabric sample_state = (Throw e, st').
Proof.
  assert (Hc : "EPG" ∈ ["BridgeDomain"; "Context"; "EPG"])
    by apply list_elem_of_further, list_elem_of_further, list_elem_of_here.
  assert (H : forall o, o ∈ tree sample_fabric -> o_class o <> "EPG").
  { apply Forall_forall. refine (bool_decide_unpack _ _). vm_compute. exact I. }
  split; [exact Hc|]. split; [reflexivity|]. split; [exact H|].
  exact (add_atk_objects_needs_three_classes sample_fabric sample_state "EPG"
           Hc eq_refl H).
Defined.

End CrossReference.

(** ** Object information *)

Section ObjectInfo.
Import SearchObjectStore.
Local Open Scope store_scope.

Lemma brief_run {A} o (K : string -> string -> N A) st :
  (let* name := getitem (o_attributes o) "name" in
   let* dn := getitem (o_attributes o) "dn" in
   K name dn)%store st =
  match brief o with
  | Some b => K (b_name b) (b_dn b) st
  | None => (Throw (Builtin KeyError), st)
  end.
Proof.
  unfold brief, bind, getitem.
  destruct (o_attributes o !! "name"); [|done]. cbn.
  by destruct (o_attributes o !! "dn").
Qed.

Lemma brief_class o b : brief o = Some b -> b_class b = o_class o.
Proof.
  unfold brief. destruct (o_attributes o !! "name"); [|done]. cbn.
  destruct (o_attributes o !! "dn"); [|done]. cbn. by intros [= <-].
Qed.

Lemma Brief_eta b : {| b_class := b_class b; b_name := b_name b; b_dn := b_dn b |} = b.
Proof. by destruct b. Qed.

Lemma children_loop_cons child rest result st :
  children_loop (child :: rest) result st =
    match brief child with
    | Some b =>
        children_loop rest
          (<[o_class child := default [] (result !! o_class child) ++ [b]]> result) st
    | None => (Throw (Builtin KeyError), st)
    end.
Proof.
  cbn [children_loop]. cbv zeta. rewrite brief_run.
  destruct (brief child) as [b|] eqn:Hb; [|done].
  rewrite <- (brief_class _ _ Hb), Brief_eta.
  destruct (result !! b_class b) as [l|] eqn:Hl.
  - rewrite (bool_decide_eq_true_2 _ (mk_is_Some _ _ eq_refl)).
    unfold bind at 1, getitem. rewrite Hl. reflexivity.
  - rewrite bool_decide_eq_false_2 by (intros [? [=]]).
    unfold bind at 1, getitem. rewrite lookup_insert_eq. cbn [ret from_option id].
    by rewrite insert_insert_eq.
Qed.

Lemma omap_cons_Some {A B} (f : A -> option B) x y l :
  f x = Some y -> omap f (x :: l) = y :: omap f l.
Proof. intros H. cbn. by rewrite H. Qed.

Lemma children_loop_keeps cs : forall result st,
  exists r, children_loop cs result st = (r, st) /\
            (r = Throw (Builtin KeyError) \/ exists m, r = Return m).
Proof.
  induction cs as [|child rest IH]; intros result st.
  - eexists. split; [done|]. right. by eexists.
  - rewrite children_loop_cons. destruct (brief child); [apply IH|].
    eexists. split; [done|]. by left.
Qed.

Lemma children_loop_returns cs : forall result st m st',
  children_loop cs result st = (Return m, st') ->
  Forall (fun child => is_Some (brief child)) cs /\
  forall c,
    default [] (m !! c) = default [] (result !! c) ++ omap brief (of_class c cs) /\
    (is_Some (m !! c) <-> is_Some (result !! c) \/ of_class c cs <> []).
Proof.
  induction cs as [|child rest IH]; intros result st m st' H.
  - injection H as <- <-. split; [constructor|]. intros c. cbn.
    rewrite app_nil_r. split; [done|]. split; [by left | by intros [?|?]].
  - rewrite children_loop_cons in H. destruct (brief child) as [b|] eqn:Hb; [|done].
    apply IH in H as [Hall H]. split; [by constructor|].
    intros c. destruct (H c) as [H1 H2]. rewrite H1, H2. unfold of_class.
    rewrite filter_cons.
    destruct (decide (o_class child = c)) as [->|Hne].
    + rewrite lookup_insert_eq. rewrite (omap_cons_Some _ _ _ _ Hb).
      cbn [from_option id]. rewrite <- app_assoc. split; [done|].
      split; [by right | intros _; left; by eexists].
    + rewrite lookup_insert_ne by done. done.
Qed.

Lemma relations_run {A} o (K : option (gmap string (list Brief)) -> A) st :
  (let* has := gui_has o in
   let* relations :=
     if has then (let* d := gui_get o in ret (Some d)) else ret None in
   ret (K relations))%store st =
  (Return (K (gui_x_reference st !! o_id o)), st).
Proof.
  unfold bind at 1, gui_has. cbn [fst snd]. unfold bind at 1.
  destruct (gui_x_reference st !! o_id o) as [d|] eqn:Hd.
  - rewrite (bool_decide_eq_true_2 _ (mk_is_Some _ _ eq_refl)).
    unfold bind, gui_get. by rewrite Hd.
  - by rewrite bool_decide_eq_false_2 by (intros [? [=]]).
Qed.

(** Property X18.  [get_object_info] never changes the state, and the
    only exception it raises is [KeyError]. *)
Theorem get_object_info_reads_only obj_dn st :
  exists r,
    get_object_info obj_dn st = (r, st) /\
    (r = Throw (Builtin KeyError) \/ exists info, r = Return info).
Proof.
  unfold get_object_info. unfold bind at 1, get_store. cbn [fst snd].
  unfold bind at 1, getitem at 1.
  destruct (object_directory (store st) !! obj_dn) as [o|];
    [|eexists; split; [done | by left]].
  cbn [ret]. unfold bind at 1, getitem at 1.
  destruct (o_attributes o !! "name") as [n|];
    [|eexists; split; [done | by left]].
  cbn [ret]. unfold bind at 1.
  assert (Hp : exists r, match o_parent o with
     | Some p =>
         let* parent := getitem (o_attributes p) "name" in
         let* parent_dn := getitem (o_attributes p) "dn" in
         ret (Some {| b_class := o_class p; b_name := parent; b_dn := parent_dn |})
     | None => ret None
     end st = (r, st) /\ (r = Throw (Builtin KeyError) \/ exists p, r = Return p)).
  { destruct (o_parent o) as [p|].
    - rewrite brief_run. destruct (brief p); eexists; (split; [done|]); eauto. 
    - eexists; (split; [done|]); eauto. }
  destruct Hp as (r & -> & [->|[p ->]]); [eexists; split; [done | by left]|].
  unfold bind at 1.
  destruct (children_loop_keeps (o_children o) ∅ st) as (r & -> & [->|[m ->]]);
    [eexists; split; [done | by left]|].
  rewrite (relations_run o (fun relations =>
    {| properties := {| b_class := o_class o; b_name := n; b_dn := obj_dn |};
       attributes := o_attributes o; parent := p; children := m;
       relations := relations |})).
  eexists. split; [done|]. right. by eexists.
Qed.

(** Property X19.  When [get_object_info] returns, the result
    describes the object that the directory has under the given dn:
    its class, its attributes, its cross references if it has any, the
    record of its parent if it has one, and its children grouped by
    class, in their order, with an entry for exactly the classes that
    have a child. *)
Theorem get_object_info_groups_children obj_dn st info st' :
  get_object_info obj_dn st = (Return info, st') ->
  exists o,
    object_directory (store st) !! obj_dn = Some o /\
    b_dn (properties info) = obj_dn /\
    b_class (properties info) = o_class o /\
    attributes info = o_attributes o /\
    relations info = gui_x_reference st !! o_id o /\
    parent info = o_parent o ≫= brief /\
    Forall (fun child => is_Some (brief child)) (o_children o) /\
    forall c,
      default [] (children info !! c) = omap brief (of_class c (o_children o)) /\
      (is_Some (children info !! c) <-> of_class c (o_children o) <> []).
Proof.
  unfold get_object_info. unfold bind at 1, get_store. cbn [fst snd].
  unfold bind at 1, getitem at 1.
  destruct (object_directory (store st) !! obj_dn) as [o|]; [|done].
  cbn [ret]. unfold bind at 1, getitem at 1.
  destruct (o_attributes o !! "name") as [n|]; [|done].
  cbn [ret]. unfold bind at 1.
  assert (Hp : match o_parent o with
     | Some p =>
         let* parent := getitem (o_attributes p) "name" in
         let* parent_dn := getitem (o_attributes p) "dn" in
         ret (Some {| b_class := o_class p; b_name := parent; b_dn := parent_dn |})
     | None => ret None
     end st = match o_parent o with
              | Some p => match brief p with
                          | Some b => (Return (Some b), st)
                          | None => (Throw (Builtin KeyError), st)
                          end
              | None => (Return None, st)
              end).
  { destruct (o_parent o) as [p|]; [|done].
    rewrite brief_run. destruct (brief p) as [b|] eqn:Hb; [|done].
    by rewrite <- (brief_class _ _ Hb), Brief_eta. }
  rewrite Hp. clear Hp.
  destruct (children_loop (o_children o) ∅ st) as [[m|e] st1] eqn:Hc.
  2:{ destruct (o_parent o) as [p|]; [destruct (brief p)|]; unfold bind; rewrite ?Hc; done. }
  pose proof (children_loop_keeps (o_children o) ∅ st) as (r & Hr & _).
  rewrite Hc in Hr. injection Hr as <- ->.
  pose proof Hc as Hc0.
  apply children_loop_returns in Hc as [Hall Hc].
  intros H. exists o. split; [done|].
  assert (Hinfo : exists pb, o_parent o ≫= brief = pb /\
    info = {| properties := {| b_class := o_class o; b_name := n; b_dn := obj_dn |};
              attributes := o_attributes o; parent := pb; children := m;
              relations := gui_x_reference st !! o_id o |}).
  { revert H.
    destruct (o_parent o) as [p|]; cbn [mbind option_bind];
      [destruct (brief p) as [b|]; [|done]|];
      unfold bind at 1; cbn [fst snd]; rewrite Hc0;
      (rewrite (relations_run o (fun relations =>
         {| properties := {| b_class := o_class o; b_name := n; b_dn := obj_dn |};
            attributes := o_attributes o; parent := _; children := m;
            relations := relations |})));
      intros [= <- _]; eexists; split; reflexivity. }
  destruct Hinfo as (pb & Hpb & ->). cbn.
  repeat split; try done.
  - destruct (Hc c) as [H1 _]. by rewrite H1, lookup_empty.
  - destruct (Hc c) as [_ H2]. rewrite H2, lookup_empty.
    intros [[? [=]]|?]; done.
  - destruct (Hc c) as [_ H2]. rewrite H2. by right.
Qed.

Lemma get_object_info_groups_children_witness :
  exists info st',
    get_object_info "uni/tn-a" sample_directory = (Return info, st') /\
    exists o,
      object_directory (store sample_directory) !! "uni/tn-a" = Some o /\
      b_dn (properties info) = "uni/tn-a" /\
      b_class (properties info) = o_class o /\
      attributes info = o_attributes o /\
      relations info = gui_x_reference sample_directory !! o_id o /\
      parent info = o_parent o ≫= brief /\
      Forall (fun child => is_Some (brief child)) (o_children o) /\
      forall c,
        default [] (children info !! c) = omap brief (of_class c (o_children o)) /\
        (is_Some (children info !! c) <-> of_class c (o_children o) <> []).
Proof.
  destruct (returned_inv (get_object_info "uni/tn-a" sample_directory))
    as [info H]; [vm_compute; reflexivity|].
  exists info. eexists. split; [exact H|].
  exact (get_object_info_groups_children "uni/tn-a" sample_directory info _ H).
Defined.

End ObjectInfo.

(** ** The database *)

Section Db.
Import SearchObjectStore SearchDb.

Lemma enrich_one_eq result st :
  enrich_one result st =
    match short (SearchObjectStore.store st) (r_uid result) with
    | Some b => (Return {| ranked := result; f_name := b_name b; f_class := b_class b |}, st)
    | None => (Throw (Builtin KeyError), st)
    end.
Proof.
  unfold enrich_one, get_by_uids_short. rewrite get_by_uids_short_loop_cons.
  destruct (short _ _) as [b|]; [|done].
  cbn [get_by_uids_short_loop SearchObjectStore.ret]. by rewrite lookup_insert_eq.
Qed.

Lemma enrich_ok results : forall st,
  Forall (fun r => is_Some (short (SearchObjectStore.store st) (r_uid r))) results ->
  exists fs,
    enrich results st = (Return fs, st) /\
    ranked <$> fs = results /\
    Forall (fun f => exists b,
              short (SearchObjectStore.store st) (r_uid (ranked f)) = Some b /\
              f_name f = b_name b /\ f_class f = b_class b) fs.
Proof.
  induction results as [|r rest IH]; intros st Hall.
  - exists []. by repeat split.
  - apply Forall_cons_1 in Hall as [[b Hb] Hall].
    destruct (IH st Hall) as (fs & Hfs & Hr & Hn).
    eexists (_ :: fs). cbn [enrich]. rewrite enrich_one_eq, Hb, Hfs.
    split; [done|]. split; [by rewrite fmap_cons, Hr|].
    constructor; [|done]. by exists b.
Qed.

Lemma enrich_raise results : forall st,
  Exists (fun r => short (SearchObjectStore.store st) (r_uid r) = None) results ->
  enrich results st = (Throw (Builtin KeyError), st).
Proof.
  induction results as [|r rest IH]; intros st Hex; [by apply Exists_nil in Hex|].
  cbn [enrich]. rewrite enrich_one_eq.
  destruct (short _ (r_uid r)) as [b|] eqn:Hb; [|done].
  apply Exists_cons in Hex as [Hex|Hex]; [congruence|].
  by rewrite (IH st Hex).
Qed.

Lemma Exists_None_or_Forall_Some {A B} (f : A -> option B) (l : list A) :
  Forall (fun x => is_Some (f x)) l \/ Exists (fun x => f x = None) l.
Proof.
  induction l as [|x l [IH|IH]].
  - left. constructor.
  - destruct (f x) as [y|] eqn:Hx.
    + left. constructor; [by rewrite Hx | done].
    + right. by apply Exists_cons_hd.
  - right. by apply Exists_cons_tl.
Qed.

(** Property X20.  [SearchDb.search] on a query that parses: when the
    store has a record for the uid of every entry of the response of
    the index (at most 100), it returns the entries of the index in
    their order, each with the name and the class that the store has
    for its uid, and the total of the index; otherwise it raises
    [KeyError]. *)
Theorem db_search_names_the_response q ts st :
  _get_terms q = Ok ts ->
  let rs := response (ranking (index st) ts) in
  let st' := {| index := with_ranked (ranking (index st) ts) (index st);
                store := store st |} in
  (Forall (fun r => is_Some (short (SearchObjectStore.store (store st)) (r_uid r))) rs /\
   exists fs,
     SearchDb.search q st = (Return (fs, size (ranking (index st) ts)), st') /\
     ranked <$> fs = rs /\
     Forall (fun f => exists b,
               short (SearchObjectStore.store (store st)) (r_uid (ranked f)) = Some b /\
               f_name f = b_name b /\ f_class f = b_class b) fs) \/
  (Exists (fun r => short (SearchObjectStore.store (store st)) (r_uid r) = None) rs /\
   SearchDb.search q st = (Throw (Builtin KeyError), st')).
Proof.
  intros Hq rs st'. unfold SearchDb.search. rewrite (search_ok q ts) by done.
  fold rs.
  destruct (Exists_None_or_Forall_Some
              (fun r => short (SearchObjectStore.store (store st)) (r_uid r)) rs) as [H|H].
  - left. split; [done|]. destruct (enrich_ok rs (store st) H) as (fs & -> & Hr & Hn).
    by exists fs.
  - right. split; [done|]. by rewrite (enrich_raise rs (store st) H).
Qed.

Lemma db_search_names_the_response_witness :
  let q := "#Tenant" in
  let ts := [Build_Term (K1 "Tenant") "c" 2] in
  let st := sample_db in
  let rs := response (ranking (index st) ts) in
  let st' := {| index := with_ranked (ranking (index st) ts) (index st);
                store := store st |} in
  _get_terms q = Ok ts /\
  ((Forall (fun r => is_Some (short (SearchObjectStore.store (store st)) (r_uid r))) rs /\
    exists fs,
      SearchDb.search q st = (Return (fs, size (ranking (index st) ts)), st') /\
      ranked <$> fs = rs /\
      Forall (fun f => exists b,
                short (SearchObjectStore.store (store st)) (r_uid (ranked f)) = Some b /\
                f_name f = b_name b /\ f_class f = b_class b) fs) \/
   (Exists (fun r => short (SearchObjectStore.store (store st)) (r_uid r) = None) rs /\
    SearchDb.search q st = (Throw (Builtin KeyError), st'))).
Proof.
  split; [reflexivity|].
  exact (db_search_names_the_response "#Tenant" [Build_Term (K1 "Tenant") "c" 2]
           sample_db eq_refl).
Defined.

(** Property X21.  [SearchDb.search] on a query with an empty token
    (the empty query, two adjacent spaces) raises [IndexError] and
    leaves the index and the store as they are. *)
Theorem db_search_empty_token_raises q st :
  EmptyString ∈ split " " (strip q) ->
  SearchDb.search q st = (Throw (Builtin IndexError), st).
Proof.
  intros Hq. unfold SearchDb.search.
  rewrite (search_raise q IndexError) by by apply extend_parsed_raise.
  by destruct st.
Qed.

Lemma db_search_empty_token_raises_witness :
  EmptyString ∈ split " " (strip EmptyString) /\
  SearchDb.search EmptyString sample_db = (Throw (Builtin IndexError), sample_db).
Proof.
  assert (H : EmptyString ∈ split " " (strip EmptyString)) by apply list_elem_of_here.
  split; [exact H|].
  exact (db_search_empty_token_raises EmptyString sample_db H).
Defined.

End Db.
